(** * Stream deletion in the api-server ([methods/streams.js])

    A shallow embedding of the [streams.delete] method: the trash gate
    ([deleteStream], [flagAsTrashed]) and the cascading hard deletion
    ([deleteWithData]) with its merge and detach paths, over an in-memory
    picture of the streams, events and event-files storages. *)

From Stdlib Require Import List String Bool Arith Lia.
Import ListNotations.
Open Scope string_scope.
Open Scope list_scope.

(** ** Data model *)

(** A stream document: [{id, parentId, name, trashed}] plus the tracking
    properties that [context.updateTrackingProperties] writes.  [trashed]
    is optional: [None] stands for an absent (or null) attribute. *)
Module Stream.
Record t : Type := make {
  id : string;
  parentId : option string;
  name : string;
  trashed : option bool;
  modified : option nat;
  modifiedBy : option string
}.
End Stream.

(** An event document.  Every attribute but [id] is optional, as in the
    stored JSON: [headId] is present on history rows only, [attachments]
    only on events that carry files. *)
Module Event.
Record t : Type := make {
  id : string;
  streamIds : option (list string);
  headId : option string;
  attachments : option (list string);
  content : option string;
  modified : option nat;
  modifiedBy : option string
}.

Definition with_streamIds (l : option (list string)) (e : t) : t :=
  make (id e) l (headId e) (attachments e) (content e) (modified e) (modifiedBy e).
End Event.

(** The tree that [userStreamsStorage.find] hands to the method: every
    item carries its [children]. *)
Unset Elimination Schemes.
Inductive StreamTree : Type :=
| Node (item : Stream.t) (children : list StreamTree).
Set Elimination Schemes.

Definition item (t : StreamTree) : Stream.t := let 'Node s _ := t in s.
Definition children (t : StreamTree) : list StreamTree := let 'Node _ cs := t in cs.

(** [b.includes(i)] on arrays of strings. *)
Definition includes (b : list string) (i : string) : bool :=
  existsb (String.eqb i) b.

(** [arrayAIsIncludedInB]: [a.every(i => b.includes(i))]. *)
Definition arrayAIsIncludedInB (a b : list string) : bool :=
  forallb (fun i => includes b i) a.

Definition isSome {A} (o : option A) : bool :=
  match o with Some _ => true | None => false end.

Fixpoint list_eqb (a b : list string) : bool :=
  match a, b with
  | [], [] => true
  | x :: a', y :: b' => String.eqb x y && list_eqb a' b'
  | _, _ => false
  end.

(** ** treeUtils *)

(** Modelled from the spec: [treeUtils.collectPluckFromRootItem] (utils
    component, not among the sources): the item itself, then its
    descendants depth-first, parent before children.  [collectFromRootItem]
    gathers the items, [collectPluckFromRootItem] plucks their [id]. *)
Fixpoint collectFromRootItem (t : StreamTree) : list Stream.t :=
  match t with
  | Node s cs => s :: flat_map collectFromRootItem cs
  end.

Definition collectPluckFromRootItem (t : StreamTree) : list string :=
  map Stream.id (collectFromRootItem t).

Definition collectFromForest (f : list StreamTree) : list Stream.t :=
  flat_map collectFromRootItem f.

(** Modelled from the spec: [treeUtils.findById] (utils component, not
    among the sources): depth-first search of the materialized tree for the
    item with the given id. *)
Fixpoint findByIdIn (i : string) (t : StreamTree) : option StreamTree :=
  match t with
  | Node s cs =>
      if String.eqb (Stream.id s) i then Some t
      else (fix scan (l : list StreamTree) : option StreamTree :=
              match l with
              | [] => None
              | c :: r =>
                  match findByIdIn i c with
                  | Some found => Some found
                  | None => scan r
                  end
              end) cs
  end.

Fixpoint findById (streams : list StreamTree) (i : string) : option StreamTree :=
  match streams with
  | [] => None
  | t :: r =>
      match findByIdIn i t with
      | Some found => Some found
      | None => findById r i
      end
  end.

(** ** Storage queries

    The query and update documents the method passes to the events
    storage, as a small syntax with the database's matching rules. *)

Inductive Cond : Type :=
| StreamIds_in (l : list string)        (* streamIds: { $in: l } *)
| StreamIds_ne (x : string)             (* streamIds: { $ne: x } *)
| StreamIds_is (l : list string)        (* streamIds: l *)
| HeadId_exists (b : bool)              (* headId: { $exists: b } *)
| HeadId_is (x : string)                (* headId: x *)
| Attachments_exists (b : bool).        (* attachments: { $exists: b } *)

(** A query document is the conjunction of its conditions. *)
Definition Query : Type := list Cond.

(** An array attribute satisfies [$in] when one of its elements is in the
    list, [$ne] when none of its elements equals the value; an absent
    attribute never satisfies [$in] and always satisfies [$ne]. *)
Definition holds (c : Cond) (e : Event.t) : bool :=
  match c with
  | StreamIds_in l =>
      match Event.streamIds e with
      | Some sids => existsb (includes l) sids
      | None => false
      end
  | StreamIds_ne x =>
      match Event.streamIds e with
      | Some sids => negb (includes sids x)
      | None => true
      end
  | StreamIds_is l =>
      match Event.streamIds e with
      | Some sids => list_eqb sids l
      | None => false
      end
  | HeadId_exists b => Bool.eqb (isSome (Event.headId e)) b
  | HeadId_is x =>
      match Event.headId e with
      | Some h => String.eqb h x
      | None => false
      end
  | Attachments_exists b => Bool.eqb (isSome (Event.attachments e)) b
  end.

Definition matches (q : Query) (e : Event.t) : bool :=
  forallb (fun c => holds c e) q.

Inductive Update : Type :=
| Set_streamIds_positional (v : string)   (* { 'streamIds.$': v } *)
| Pull_streamIds_in (l : list string).    (* { $pull: { streamIds: { $in: l } } } *)

(** The positional [$]: the first array element that satisfied the
    query's [$in] is the one overwritten. *)
Fixpoint setFirstIn (l : list string) (v : string) (sids : list string) : list string :=
  match sids with
  | [] => []
  | x :: r => if includes l x then v :: r else x :: setFirstIn l v r
  end.

Fixpoint positionalList (q : Query) : option (list string) :=
  match q with
  | [] => None
  | StreamIds_in l :: _ => Some l
  | _ :: r => positionalList r
  end.

Definition pull (l : list string) (sids : list string) : list string :=
  filter (fun x => negb (includes l x)) sids.

Definition applyUpdate (q : Query) (u : Update) (e : Event.t) : Event.t :=
  match u, Event.streamIds e with
  | Set_streamIds_positional v, Some sids =>
      match positionalList q with
      | Some l => Event.with_streamIds (Some (setFirstIn l v sids)) e
      | None => e
      end
  | Pull_streamIds_in l, Some sids => Event.with_streamIds (Some (pull l sids)) e
  | _, None => e
  end.

(** ** The storages and the method monad *)

Inductive Notification : Type :=
| USERNAME_BASED_STREAMS_CHANGED
| USERNAME_BASED_EVENTS_CHANGED.

(** What the method can read and write: the tenant's streams tree, its
    events collection (live events and history rows together), the
    attachment files per event id, the error log and the notifications
    emitted so far. *)
Record World : Type := mkWorld {
  streams : list StreamTree;
  events : list Event.t;
  eventFiles : list (string * list string);
  logged : list string;
  notifications : list Notification
}.

Definition set_streams (f : list StreamTree) (w : World) : World :=
  mkWorld f (events w) (eventFiles w) (logged w) (notifications w).
Definition set_events (l : list Event.t) (w : World) : World :=
  mkWorld (streams w) l (eventFiles w) (logged w) (notifications w).
Definition set_eventFiles (l : list (string * list string)) (w : World) : World :=
  mkWorld (streams w) (events w) l (logged w) (notifications w).
Definition add_logged (x : string) (w : World) : World :=
  mkWorld (streams w) (events w) (eventFiles w) (logged w ++ [x]) (notifications w).
Definition add_notification (n : Notification) (w : World) : World :=
  mkWorld (streams w) (events w) (eventFiles w) (logged w) (notifications w ++ [n]).

(** The errors of the [errors] factory that the method hands to [next];
    [UncaughtTypeError] stands for a property read on [null]. *)
Inductive ApiError : Type :=
| unknownResource (id : string)
| forbidden
| unexpectedError
| invalidOperation
| invalidParametersFormat
| UncaughtTypeError.

(** Every storage call of the method that has an [if (err)] branch, named
    after the step that makes it; per-record calls carry the event id. *)
Inductive StorageCall : Type :=
| flagAsTrashed_updateOne
| retrieveStreamIdsToDelete_find
| checkLinkedEvents_find
| generateLog_findStreamed
| generateLog_insertOne (eventId : string)
| addParentStreamId_updateMany
| removeStreamdIds_updateMany
| handleHistory_findStreamed
| handleHistory_minimize (eventId : string)
| handleHistory_removeMany (eventId : string)
| attachments_findStreamed
| attachments_removeAllForEvent (eventId : string)
| removeStreamdIdsFromAllEvents_updateMany
| deleteEvents_delete
| deleteStreams_delete.

Record AuditSettings : Type := mkAudit {
  forceKeepHistory : bool;
  deletionMode : string
}.

(** What the module closes over: the [versioning] configuration, which
    storage calls report an error, and the key the database gives to a
    document inserted without one. *)
Record Env : Type := mkEnv {
  auditSettings : AuditSettings;
  storageFails : StorageCall -> bool;
  newId : list Event.t -> string
}.

(** The attributes an update document may set on a stream. *)
Record StreamData : Type := mkData {
  d_trashed : option bool;
  d_modified : option nat;
  d_modifiedBy : option string
}.

(** The request context: the access check, and the modification time and
    author that its tracking helper stamps on update documents. *)
Record Context : Type := mkContext {
  canDeleteStream : string -> bool;
  trackingModified : nat;
  trackingModifiedBy : string
}.

(** [context.updateTrackingProperties] (method context, not among the
    sources), taken as stamping [modified] and [modifiedBy] and nothing
    else. *)
Definition updateTrackingProperties (context : Context) (d : StreamData) : StreamData :=
  mkData (d_trashed d) (Some (trackingModified context)) (Some (trackingModifiedBy context)).

Record Params : Type := mkParams {
  id : string;
  mergeEventsWithParent : option bool
}.

Record Result : Type := mkResult {
  stream : option Stream.t;
  streamDeletion : option string
}.

Definition emptyResult : Result := mkResult None None.

Inductive Outcome (A : Type) : Type :=
| Done (a : A)
| Failed (e : ApiError).
Arguments Done {A} a.
Arguments Failed {A} e.

(** A step reads and writes the world and either hands a value to the
    next step or stops the series with an error. *)
Definition M (A : Type) : Type := World -> Outcome A * World.

Definition ret {A} (a : A) : M A := fun w => (Done a, w).
Definition fail {A} (e : ApiError) : M A := fun w => (Failed e, w).
Definition bind {A B} (m : M A) (k : A -> M B) : M B :=
  fun w =>
    match m w with
    | (Done a, w') => k a w'
    | (Failed e, w') => (Failed e, w')
    end.
Definition gets {A} (f : World -> A) : M A := fun w => (Done (f w), w).
Definition modify (f : World -> World) : M unit := fun w => (Done tt, f w).

Declare Scope method_scope.
Delimit Scope method_scope with method.
Notation "x <- m ;; k" := (bind m (fun x => k))
  (at level 61, m at next level, right associativity) : method_scope.
Notation "m ;;; k" := (bind m (fun _ => k))
  (at level 61, right associativity) : method_scope.
Open Scope method_scope.

(** [if (err) return done(errors.unexpectedError(err))]. *)
Definition storageCall (env : Env) (c : StorageCall) : M unit :=
  if storageFails env c then fail unexpectedError else ret tt.

Definition emit (n : Notification) : M unit := modify (add_notification n).

(** A streamed find: every record runs its handler, in order; a handler
    that reports an error does not stop the others.  In the source such a
    handler calls [subStepDone(err)], and the 'end' event of the stream
    calls [subStepDone()] as well: which of the two calls the series acts
    on depends on the [async] library and on the moment the storage
    answers, neither of which is among the sources.  The step is read
    here as ending with the first error reported, if any; what runs after
    such an error is left out of the statements below, which either assume
    that the handlers' storage calls answer or hold whatever follows. *)
Fixpoint forEachRecord {A} (records : list A) (handler : A -> M unit) : M unit :=
  match records with
  | [] => ret tt
  | r :: rest =>
      fun w =>
        match handler r w with
        | (Done _, w') => forEachRecord rest handler w'
        | (Failed e, w') => (Failed e, snd (forEachRecord rest handler w'))
        end
  end.

(** ** Storage primitives *)

(** [userStreamsStorage.updateOne(user, {id}, data)]: the first item with
    that id gets the attributes of [data]; the updated item is returned. *)
Definition patch (d : StreamData) (s : Stream.t) : Stream.t :=
  Stream.make (Stream.id s) (Stream.parentId s) (Stream.name s)
    (match d_trashed d with Some b => Some b | None => Stream.trashed s end)
    (match d_modified d with Some n => Some n | None => Stream.modified s end)
    (match d_modifiedBy d with Some a => Some a | None => Stream.modifiedBy s end).

Fixpoint updateOneIn (i : string) (d : StreamData) (t : StreamTree)
  : option (Stream.t * StreamTree) :=
  match t with
  | Node s cs =>
      if String.eqb (Stream.id s) i then Some (patch d s, Node (patch d s) cs)
      else
        match (fix scan (l : list StreamTree) : option (Stream.t * list StreamTree) :=
                 match l with
                 | [] => None
                 | c :: r =>
                     match updateOneIn i d c with
                     | Some (s', c') => Some (s', c' :: r)
                     | None =>
                         match scan r with
                         | Some (s', r') => Some (s', c :: r')
                         | None => None
                         end
                     end
                 end) cs with
        | Some (s', cs') => Some (s', Node s cs')
        | None => None
        end
  end.

Fixpoint updateOneStream (i : string) (d : StreamData) (f : list StreamTree)
  : option (Stream.t * list StreamTree) :=
  match f with
  | [] => None
  | t :: r =>
      match updateOneIn i d t with
      | Some (s', t') => Some (s', t' :: r)
      | None =>
          match updateOneStream i d r with
          | Some (s', r') => Some (s', t :: r')
          | None => None
          end
      end
  end.

(** [userStreamsStorage.delete(user, {id: {$in: ids}})]: every document
    whose id is listed goes; the other documents stay (see
    [removeIds_documents]). *)
Fixpoint removeIdsIn (ids : list string) (t : StreamTree) : list StreamTree :=
  match t with
  | Node s cs =>
      if includes ids (Stream.id s) then flat_map (removeIdsIn ids) cs
      else [Node s (flat_map (removeIdsIn ids) cs)]
  end.

Definition removeIds (ids : list string) (f : list StreamTree) : list StreamTree :=
  flat_map (removeIdsIn ids) f.

(** [userEventsStorage.find] and [findStreamed]: the documents of the
    collection that the query document selects, in stored order; a streamed
    find is read as the finite sequence of the documents selected when the
    step starts. *)
Definition find (env : Env) (c : StorageCall) (q : Query) : M (list Event.t) :=
  storageCall env c ;;; gets (fun w => filter (matches q) (events w)).

(** What [updateMany] does to one document. *)
Definition updated (q : Query) (u : Update) (e : Event.t) : Event.t :=
  if matches q e then applyUpdate q u e else e.

Definition updateMany (env : Env) (c : StorageCall) (q : Query) (u : Update) : M unit :=
  storageCall env c ;;;
  modify (fun w => set_events (map (updated q u) (events w)) w).

(** [insertOne]: the document joins the collection; [doc] may look at the
    stored documents, for the key the database makes up. *)
Definition insertOne (env : Env) (c : StorageCall) (doc : list Event.t -> Event.t) : M unit :=
  storageCall env c ;;;
  modify (fun w => set_events (events w ++ [doc (events w)]) w).

(** [removeMany]: the documents the query selects leave the collection. *)
Definition removeMany (env : Env) (c : StorageCall) (q : Query) : M unit :=
  storageCall env c ;;;
  modify (fun w => set_events (filter (fun e => negb (matches q e)) (events w)) w).

(** Modelled from the spec: [userEventsStorage.delete(user, filter,
    deletionMode)] (storage component, not among the sources): the events
    the filter selects are removed outright. *)
Definition delete (env : Env) (c : StorageCall) (q : Query) (mode : string) : M unit :=
  storageCall env c ;;;
  modify (fun w => set_events (filter (fun e => negb (matches q e)) (events w)) w).

(** Modelled from the spec: [userEventsStorage.minimizeEventsHistory(user,
    headId)] (storage component, not among the sources): the history rows
    of that head keep their author and timestamp attribution ([modifiedBy],
    [modified]) and their identity, and lose every other attribute. *)
Definition minimized (h : Event.t) : Event.t :=
  Event.make (Event.id h) None (Event.headId h) None None
    (Event.modified h) (Event.modifiedBy h).

Definition minimizedIfOf (headId : string) (e : Event.t) : Event.t :=
  if matches [HeadId_is headId] e then minimized e else e.

Definition minimizeEventsHistory (env : Env) (headId : string) : M unit :=
  storageCall env (handleHistory_minimize headId) ;;;
  modify (fun w => set_events (map (minimizedIfOf headId) (events w)) w).

(** [userEventFilesStorage.removeAllForEvent(user, id, cb)] with the
    method's callback: an error is logged and nothing else. *)
Definition removeAllForEvent (env : Env) (eventId : string) : M unit :=
  if storageFails env (attachments_removeAllForEvent eventId)
  then modify (add_logged eventId)
  else modify (fun w =>
         set_eventFiles
           (filter (fun kv => negb (String.eqb (fst kv) eventId)) (eventFiles w)) w).

(** ** streams.delete *)

Definition verifyStreamExistenceAndPermissions (context : Context) (params : Params)
  : M Stream.t :=
  found <- gets (fun w => findById (streams w) (id params)) ;;
  match found with
  | None => fail (unknownResource (id params))
  | Some node =>
      if negb (canDeleteStream context (Stream.id (item node))) then fail forbidden
      else ret (item node)
  end.

Definition flagAsTrashed (env : Env) (context : Context) (params : Params) (result : Result)
  : M Result :=
  let updatedData := updateTrackingProperties context (mkData (Some true) None None) in
  storageCall env flagAsTrashed_updateOne ;;;
  updated <- (fun w =>
    match updateOneStream (id params) updatedData (streams w) with
    | Some (s', f') => (Done (Some s'), set_streams f' w)
    | None => (Done None, w)
    end) ;;
  emit USERNAME_BASED_STREAMS_CHANGED ;;;
  ret (mkResult updated (streamDeletion result)).

Definition retrieveStreamIdsToDelete (env : Env) (params : Params)
  : M (list string * option string) :=
  storageCall env retrieveStreamIdsToDelete_find ;;;
  found <- gets (fun w => findById (streams w) (id params)) ;;
  match found with
  | None => fail UncaughtTypeError
  | Some streamToDelete =>
      ret (collectPluckFromRootItem streamToDelete, Stream.parentId (item streamToDelete))
  end.

Definition checkIfRootStreamAndLinkedEventsExist (env : Env) (params : Params)
  (streamAndDescendantIds : list string) (parentId : option string) : M bool :=
  match mergeEventsWithParent params, parentId with
  | Some true, None => fail invalidOperation
  | _, _ =>
      found <- find env checkLinkedEvents_find [StreamIds_in streamAndDescendantIds] ;;
      let hasLinkedEvents := negb (List.length (firstn 1 found) =? 0)%nat in
      match mergeEventsWithParent params with
      | None => if hasLinkedEvents then fail invalidParametersFormat else ret hasLinkedEvents
      | Some _ => ret hasLinkedEvents
      end
  end.

(** [_.extend(event, {headId: event.id})] with its [id] deleted: the
    database keys the inserted copy. *)
Definition eventToVersion (env : Env) (event : Event.t) (stored : list Event.t) : Event.t :=
  Event.make (newId env stored) (Event.streamIds event) (Some (Event.id event))
    (Event.attachments event) (Event.content event)
    (Event.modified event) (Event.modifiedBy event).

Definition generateLogIfNecessary (env : Env) (streamAndDescendantIds : list string)
  : M unit :=
  if negb (forceKeepHistory (auditSettings env)) then ret tt
  else
    found <- find env generateLog_findStreamed [StreamIds_in streamAndDescendantIds] ;;
    forEachRecord found (fun event =>
      insertOne env (generateLog_insertOne (Event.id event)) (eventToVersion env event)).

Definition addParentStreamIdIfNeeded (env : Env) (streamAndDescendantIds : list string)
  (parentId : string) : M unit :=
  updateMany env addParentStreamId_updateMany
    [StreamIds_ne parentId; StreamIds_in streamAndDescendantIds; HeadId_exists false]
    (Set_streamIds_positional parentId) ;;;
  emit USERNAME_BASED_EVENTS_CHANGED.

Definition removeStreamdIds (env : Env) (streamAndDescendantIds : list string) : M unit :=
  updateMany env removeStreamdIds_updateMany
    [StreamIds_in streamAndDescendantIds; HeadId_exists false]
    (Pull_streamIds_in streamAndDescendantIds).

(** The test both streamed handlers of the detach path make on a record:
    several streamIds, not all of them in the list.  A record that the
    [$in] find returned has streamIds; the [None] case is there for
    totality only. *)
Definition stillAttached (streamIds : option (list string))
  (streamAndDescendantIds : list string) : bool :=
  match streamIds with
  | Some sids =>
      (1 <? List.length sids)%nat && negb (arrayAIsIncludedInB sids streamAndDescendantIds)
  | None => false
  end.

Definition handleHistory (env : Env) (streamAndDescendantIds : list string) : M unit :=
  if String.eqb (deletionMode (auditSettings env)) "keep-everything" then ret tt
  else if String.eqb (deletionMode (auditSettings env)) "keep-authors" then
    found <- find env handleHistory_findStreamed [StreamIds_in streamAndDescendantIds] ;;
    forEachRecord found (fun head => minimizeEventsHistory env (Event.id head))
  else
    found <- find env handleHistory_findStreamed [StreamIds_in streamAndDescendantIds] ;;
    forEachRecord found (fun head =>
      if stillAttached (Event.streamIds head) streamAndDescendantIds then ret tt
      else removeMany env (handleHistory_removeMany (Event.id head))
             [HeadId_is (Event.id head)]).

Definition deleteEventsWithAttachments (env : Env) (streamAndDescendantIds : list string)
  : M unit :=
  found <- find env attachments_findStreamed
             [StreamIds_in streamAndDescendantIds; Attachments_exists true] ;;
  forEachRecord found (fun event =>
    if stillAttached (Event.streamIds event) streamAndDescendantIds then ret tt
    else removeAllForEvent env (Event.id event)).

Definition removeStreamdIdsFromAllEvents (env : Env) (streamAndDescendantIds : list string)
  : M unit :=
  if String.eqb (deletionMode (auditSettings env)) "keep-everything" then ret tt
  else
    updateMany env removeStreamdIdsFromAllEvents_updateMany
      [StreamIds_in streamAndDescendantIds; HeadId_exists false]
      (Pull_streamIds_in streamAndDescendantIds).

Definition deleteEventsFilter (env : Env) (streamAndDescendantIds : list string) : Query :=
  if String.eqb (deletionMode (auditSettings env)) "keep-everything"
  then [HeadId_exists false; StreamIds_in streamAndDescendantIds]
  else [HeadId_exists false; StreamIds_is []].

Definition deleteEvents (env : Env) (streamAndDescendantIds : list string) : M unit :=
  delete env deleteEvents_delete (deleteEventsFilter env streamAndDescendantIds)
    (deletionMode (auditSettings env)) ;;;
  emit USERNAME_BASED_EVENTS_CHANGED.

Definition handleLinkedEvents (env : Env) (params : Params)
  (streamAndDescendantIds : list string) (parentId : option string)
  (hasLinkedEvents : bool) : M unit :=
  if negb hasLinkedEvents then ret tt
  else
    match mergeEventsWithParent params with
    | Some true =>
        match parentId with
        | Some parent =>
            generateLogIfNecessary env streamAndDescendantIds ;;;
            addParentStreamIdIfNeeded env streamAndDescendantIds parent ;;;
            removeStreamdIds env streamAndDescendantIds
        | None =>
            (* ruled out by checkIfRootStreamAndLinkedEventsExist *)
            ret tt
        end
    | _ =>
        handleHistory env streamAndDescendantIds ;;;
        deleteEventsWithAttachments env streamAndDescendantIds ;;;
        removeStreamdIdsFromAllEvents env streamAndDescendantIds ;;;
        deleteEvents env streamAndDescendantIds
    end.

Definition deleteStreams (env : Env) (params : Params) (result : Result)
  (streamAndDescendantIds : list string) : M Result :=
  storageCall env deleteStreams_delete ;;;
  modify (fun w => set_streams (removeIds streamAndDescendantIds (streams w)) w) ;;;
  emit USERNAME_BASED_STREAMS_CHANGED ;;;
  ret (mkResult (stream result) (Some (id params))).

Definition deleteWithData (env : Env) (params : Params) (result : Result) : M Result :=
  retrieved <- retrieveStreamIdsToDelete env params ;;
  let streamAndDescendantIds := fst retrieved in
  let parentId := snd retrieved in
  hasLinkedEvents <-
    checkIfRootStreamAndLinkedEventsExist env params streamAndDescendantIds parentId ;;
  handleLinkedEvents env params streamAndDescendantIds parentId hasLinkedEvents ;;;
  deleteStreams env params result streamAndDescendantIds.

Definition deleteStream (env : Env) (context : Context) (params : Params)
  (contextStream : Stream.t) (result : Result) : M Result :=
  match Stream.trashed contextStream with
  | None => flagAsTrashed env context params result
  | Some _ => deleteWithData env params result
  end.

(** The registered chain: [verifyStreamExistenceAndPermissions] then
    [deleteStream]. *)
Definition streams_delete (env : Env) (context : Context) (params : Params) : M Result :=
  contextStream <- verifyStreamExistenceAndPermissions context params ;;
  deleteStream env context params contextStream emptyResult.


(** ** The other methods of the file

    The guard on system streams that opens the create, update and delete
    chains, and the steps of [streams.create] and [streams.update].  The
    helpers they call that are not among the sources (the system-streams
    serializer, the id prefixing of the backward compatibility, the string
    helpers, the access object, the streams storage) are taken as given. *)

(** [SystemStreamsSerializer.isSystemStreamId], [replaceWithNewPrefix] and
    the [backwardCompatibility:systemStreams:prefix:isActive] setting. *)
Record SystemStreams : Type := mkSystemStreams {
  isSystemStreamId : string -> bool;
  replaceWithNewPrefix : string -> string;
  isStreamIdPrefixBackwardCompatibilityActive : bool
}.

(** What the chains read of the request context besides [Context]:
    [context.disableBackwardCompatibility] and two checks of
    [context.access]. *)
Record Access : Type := mkAccess {
  disableBackwardCompatibility : bool;
  canCreateChildOnStream : option string -> bool;
  canUpdateStream : string -> bool
}.

(** [string.isReservedId] and the [slug] package. *)
Record Strings : Type := mkStrings {
  isReservedId : string -> bool;
  slugify : string -> string
}.

(** A property of a JSON object: absent, null, or a value. *)
Inductive Field (A : Type) : Type :=
| Absent
| Null
| Value (a : A).
Arguments Absent {A}.
Arguments Null {A}.
Arguments Value {A} a.

(** A string in a condition: the empty string is falsy. *)
Definition truthy (s : string) : bool := negb (String.eqb s "").

(** The errors these chains hand to [next]: those of the deletion, and
    three more of the [errors] factory. *)
Inductive MethodError : Type :=
| factoryError (e : ApiError)
| itemAlreadyExists (resource : string)
| unknownReferencedResource (resource : string) (param : string) (value : string)
| invalidItemId.

(** The error a storage call answers with: [err.isDuplicate] and
    [err.isDuplicateIndex(name)]. *)
Record StorageError : Type := mkStorageError {
  isDuplicate : bool;
  isDuplicateIndex : string -> bool
}.

Record CreateParams : Type := mkCreateParams {
  c_id : option string;
  c_name : string;
  c_parentId : option string;
  c_children : option (list string);
  c_created : option nat;
  c_createdBy : option string;
  c_modified : option nat;
  c_modifiedBy : option string
}.

Record StreamUpdate : Type := mkStreamUpdate {
  up_name : Field string;
  up_parentId : Field string;
  up_trashed : Field bool;
  up_modified : option nat;
  up_modifiedBy : option string
}.

Record UpdateParams : Type := mkUpdateParams {
  u_id : string;
  u_update : StreamUpdate
}.

(** [userStreamsStorage.insertOne] and [updateOne] with a full update
    document: each answers with an error, or with the stored stream and the
    tree it leaves. *)
Record StreamsStorage : Type := mkStreamsStorage {
  streams_insertOne :
    CreateParams -> list StreamTree -> StorageError + (Stream.t * list StreamTree);
  streams_updateOne :
    string -> StreamUpdate -> list StreamTree -> StorageError + (Stream.t * list StreamTree)
}.

(** The id as the guard rewrites it. *)
Definition withNewPrefix (sys : SystemStreams) (access : Access) (i : string) : string :=
  if isStreamIdPrefixBackwardCompatibilityActive sys
     && negb (disableBackwardCompatibility access)
  then replaceWithNewPrefix sys i
  else i.

(** One of the two blocks of [forbidSystemStreamsActions]: a non-null id
    is rewritten, then refused if it names a system stream. *)
Definition forbidSystemStream (sys : SystemStreams) (access : Access) (x : option string)
  : MethodError + option string :=
  match x with
  | None => inr None
  | Some i =>
      if isSystemStreamId sys (withNewPrefix sys access i)
      then inl (factoryError invalidOperation)
      else inr (Some (withNewPrefix sys access i))
  end.

(** [forbidSystemStreamsActions] on [params.id] and [params.parentId]:
    the error, or the two properties as the next step finds them. *)
Definition forbidSystemStreamsActions (sys : SystemStreams) (access : Access)
  (paramsId paramsParentId : option string) : MethodError + (option string * option string) :=
  match forbidSystemStream sys access paramsId with
  | inl e => inl e
  | inr newId =>
      match forbidSystemStream sys access paramsParentId with
      | inl e => inl e
      | inr newParentId => inr (newId, newParentId)
      end
  end.

(** [context.initTrackingProperties] (method context, not among the
    sources), taken as stamping the four tracking properties. *)
Definition initTrackingProperties (context : Context) (p : CreateParams) : CreateParams :=
  mkCreateParams (c_id p) (c_name p) (c_parentId p) (c_children p)
    (Some (trackingModified context)) (Some (trackingModifiedBy context))
    (Some (trackingModified context)) (Some (trackingModifiedBy context)).

Definition with_c_id (i : option string) (p : CreateParams) : CreateParams :=
  mkCreateParams i (c_name p) (c_parentId p) (c_children p)
    (c_created p) (c_createdBy p) (c_modified p) (c_modifiedBy p).

Definition without_children (p : CreateParams) : CreateParams :=
  mkCreateParams (c_id p) (c_name p) (c_parentId p) None
    (c_created p) (c_createdBy p) (c_modified p) (c_modifiedBy p).

Definition applyPrerequisitesForCreation (strings : Strings) (access : Access)
  (context : Context) (params : CreateParams) : MethodError + CreateParams :=
  if negb (canCreateChildOnStream access (c_parentId params))
  then inl (factoryError forbidden)
  else
    let params := without_children params in
    match c_id params with
    | Some i =>
        if truthy i then
          if isReservedId strings i then inl invalidItemId
          else if isReservedId strings (slugify strings i) then inl invalidItemId
          else inr (initTrackingProperties context (with_c_id (Some (slugify strings i)) params))
        else inr (initTrackingProperties context params)
    | None => inr (initTrackingProperties context params)
    end.

Definition createStream (storage : StreamsStorage) (params : CreateParams) (result : Result)
  (w : World) : (MethodError + Result) * World :=
  match streams_insertOne storage params (streams w) with
  | inl err =>
      if isDuplicate err then
        if isDuplicateIndex err "streamId" then (inl (itemAlreadyExists "stream"), w)
        else if isDuplicateIndex err "name"
             then (inl (itemAlreadyExists "sibling stream"), w)
             else (inl (factoryError unexpectedError), w)
      else
        match c_parentId params with
        | Some parent =>
            (inl (unknownReferencedResource "parent stream" "parentId" parent), w)
        | None => (inl (factoryError unexpectedError), w)
        end
  | inr (newStream, tree) =>
      (inr (mkResult (Some newStream) (streamDeletion result)),
       add_notification USERNAME_BASED_STREAMS_CHANGED (set_streams tree w))
  end.

(** The chain registered for [streams.create], for parameters of the
    method's schema: the guard, the defaults (an absent [parentId] is
    null), the prerequisites, the insertion. *)
Definition streams_create (sys : SystemStreams) (strings : Strings) (access : Access)
  (storage : StreamsStorage) (context : Context) (params : CreateParams) (w : World)
  : (MethodError + Result) * World :=
  match forbidSystemStreamsActions sys access (c_id params) (c_parentId params) with
  | inl e => (inl e, w)
  | inr (newId, newParentId) =>
      let params :=
        mkCreateParams newId (c_name params) newParentId (c_children params)
          (c_created params) (c_createdBy params) (c_modified params) (c_modifiedBy params) in
      match applyPrerequisitesForCreation strings access context params with
      | inl e => (inl e, w)
      | inr params => createStream storage params emptyResult w
      end
  end.

Definition stampUpdate (context : Context) (u : StreamUpdate) : StreamUpdate :=
  mkStreamUpdate (up_name u) (up_parentId u) (up_trashed u)
    (Some (trackingModified context)) (Some (trackingModifiedBy context)).

Definition applyPrerequisitesForUpdate (access : Access) (context : Context)
  (params : UpdateParams) (w : World) : MethodError + UpdateParams :=
  if match up_parentId (u_update params) with
     | Value p => String.eqb p (u_id params)
     | _ => false
     end
  then inl (factoryError invalidOperation)
  else
    match findById (streams w) (u_id params) with
    | None => inl (factoryError (unknownResource (u_id params)))
    | Some node =>
        if negb (canUpdateStream access (Stream.id (item node)))
        then inl (factoryError forbidden)
        else if match up_parentId (u_update params) with
                | Value p => truthy p && negb (canCreateChildOnStream access (Some p))
                | _ => false
                end
             then inl (factoryError forbidden)
             else inr (mkUpdateParams (u_id params) (stampUpdate context (u_update params)))
    end.

Definition updateStream (storage : StreamsStorage) (params : UpdateParams) (result : Result)
  (w : World) : (MethodError + Result) * World :=
  match streams_updateOne storage (u_id params) (u_update params) (streams w) with
  | inl err =>
      if isDuplicate err then
        if isDuplicateIndex err "name"
        then (inl (itemAlreadyExists "sibling stream"), w)
        else (inl (factoryError unexpectedError), w)
      else
        match up_parentId (u_update params) with
        | Value parent =>
            (inl (unknownReferencedResource "parent stream" "parentId" parent), w)
        | _ => (inl (factoryError unexpectedError), w)
        end
  | inr (updatedStream, tree) =>
      (inr (mkResult (Some updatedStream) (streamDeletion result)),
       add_notification USERNAME_BASED_STREAMS_CHANGED (set_streams tree w))
  end.

(** The two steps of [streams.update] that follow the guard and the
    checks of the parameters. *)
Definition streams_update (access : Access) (storage : StreamsStorage) (context : Context)
  (params : UpdateParams) (w : World) : (MethodError + Result) * World :=
  match applyPrerequisitesForUpdate access context params w with
  | inl e => (inl e, w)
  | inr params => updateStream storage params emptyResult w
  end.

(** The chain registered for [streams.delete], for parameters of the
    method's schema (no [parentId]): the guard, then the steps of the
    deletion on the id the guard leaves. *)
Definition streams_delete_registered (sys : SystemStreams) (access : Access) (env : Env)
  (context : Context) (params : Params) (w : World) : (MethodError + Result) * World :=
  match forbidSystemStreamsActions sys access (Some (id params)) None with
  | inl e => (inl e, w)
  | inr (newId, _) =>
      let params :=
        mkParams (match newId with Some i => i | None => id params end)
                 (mergeEventsWithParent params) in
      match streams_delete env context params w with
      | (Done result, w') => (inr result, w')
      | (Failed e, w') => (inl (factoryError e), w')
      end
  end.
(** * Auxiliary definitions *)

(** Induction on the streams tree, children first. *)
Section StreamTreeInduction.
Variable P : StreamTree -> Prop.
Hypothesis step : forall s cs, Forall P cs -> P (Node s cs).

Fixpoint StreamTree_ind (t : StreamTree) : P t :=
  match t with
  | Node s cs =>
      step s cs
        ((fix all (l : list StreamTree) : Forall P l :=
            match l with
            | [] => Forall_nil P
            | c :: r => Forall_cons c (StreamTree_ind c) (all r)
            end) cs)
  end.
End StreamTreeInduction.

(** ** Reasoning about steps *)

(** Every storage call answers, save perhaps the removal of attachment
    files. *)
Definition reliable (env : Env) : Prop :=
  forall c,
    match c with
    | attachments_removeAllForEvent _ => True
    | _ => storageFails env c = false
    end.

(** The step hands a value on from every world. *)
Definition total {A} (m : M A) : Prop := forall w, exists a, fst (m w) = Done a.

(** The step leaves a component of the world as it found it. *)
Definition keeps {A X} (part : World -> X) (m : M A) : Prop :=
  forall w, part (snd (m w)) = part w.

(** The step maintains an invariant of the world, whether it ends with a
    value or with an error. *)
Definition preserves {A} (I : World -> Prop) (m : M A) : Prop :=
  forall w, I w -> I (snd (m w)).

(** ** Events and the closure set *)

(** A live event has no [headId]; a history row has one. *)
Definition isLive (e : Event.t) : bool := negb (isSome (Event.headId e)).

(** The event names, among its streamIds, a stream of the list. *)
Definition references (ids : list string) (e : Event.t) : Prop :=
  exists sids s, Event.streamIds e = Some sids /\ In s sids /\ In s ids.

(** The answer of the limit-1 probe of [checkIfRootStreamAndLinkedEventsExist]. *)
Definition hasLinkedEvents (ids : list string) (w : World) : bool :=
  negb (List.length (firstn 1 (filter (matches [StreamIds_in ids]) (events w))) =? 0)%nat.

(** The request passes the two checks of [checkIfRootStreamAndLinkedEventsExist]:
    a merge has a parent to merge into, and an undecided request has no
    event to decide about. *)
Definition dispositionAccepted (params : Params) (node : StreamTree) (w : World) : Prop :=
  (mergeEventsWithParent params = Some true -> Stream.parentId (item node) <> None) /\
  (mergeEventsWithParent params = None ->
   hasLinkedEvents (collectPluckFromRootItem node) w = false).

(** ** What the detach and merge paths make of the events collection *)

(** The bulk [$pull] of the closure-set ids from the live events that
    reference them. *)
Definition strip (ids : list string) : Event.t -> Event.t :=
  updated [StreamIds_in ids; HeadId_exists false] (Pull_streamIds_in ids).

(** The row is a history row of one of the heads. *)
Definition historyOfAny (heads : list Event.t) (e : Event.t) : bool :=
  existsb (fun head => matches [HeadId_is (Event.id head)] e) heads.

Definition minimizedIfAny (heads : list Event.t) (e : Event.t) : Event.t :=
  if historyOfAny heads e then minimized e else e.

(** The row is a history row of a head that is not still attached
    elsewhere. *)
Definition historyDropped (heads : list Event.t) (ids : list string) (e : Event.t) : bool :=
  existsb (fun head => negb (stillAttached (Event.streamIds head) ids)
                       && matches [HeadId_is (Event.id head)] e) heads.

Definition historyHandled (env : Env) (ids : list string) (l : list Event.t) : list Event.t :=
  let found := filter (matches [StreamIds_in ids]) l in
  if String.eqb (deletionMode (auditSettings env)) "keep-everything" then l
  else if String.eqb (deletionMode (auditSettings env)) "keep-authors"
       then map (minimizedIfAny found) l
       else filter (fun e => negb (historyDropped found ids e)) l.

Definition membershipsRemoved (env : Env) (ids : list string) (l : list Event.t)
  : list Event.t :=
  if String.eqb (deletionMode (auditSettings env)) "keep-everything" then l
  else map (strip ids) l.

Definition eventsDeleted (env : Env) (ids : list string) (l : list Event.t) : list Event.t :=
  filter (fun e => negb (matches (deleteEventsFilter env ids) e)) l.

Definition detached (env : Env) (ids : list string) (l : list Event.t) : list Event.t :=
  eventsDeleted env ids (membershipsRemoved env ids (historyHandled env ids l)).

(** The log copies [generateLogIfNecessary] inserts, one after the other. *)
Fixpoint versions (env : Env) (found stored : list Event.t) : list Event.t :=
  match found with
  | [] => []
  | event :: rest =>
      let copy := eventToVersion env event stored in
      copy :: versions env rest (stored ++ [copy])
  end.

Definition logged_versions (env : Env) (ids : list string) (l : list Event.t)
  : list Event.t :=
  if negb (forceKeepHistory (auditSettings env)) then []
  else versions env (filter (matches [StreamIds_in ids]) l) l.

(** The positional write of the parent id on the live events that
    reference the closure set and do not name the parent yet. *)
Definition parentAdded (ids : list string) (parent : string) : Event.t -> Event.t :=
  updated [StreamIds_ne parent; StreamIds_in ids; HeadId_exists false]
          (Set_streamIds_positional parent).

Definition mergedEvent (ids : list string) (parent : string) (e : Event.t) : Event.t :=
  strip ids (parentAdded ids parent e).

(** What the merge path makes of the streamIds of a live event: when the
    event references the closure set and does not name the parent yet, the
    parent is written over its first closure-set member; then the
    closure-set ids are pulled.  An event outside the closure set keeps its
    streamIds. *)
Definition mergedStreamIds (ids : list string) (parent : string) (sids : list string)
  : list string :=
  if existsb (includes ids) sids
  then pull ids (if includes sids parent then sids else setFirstIn ids parent sids)
  else sids.

(** ** Attachments *)

(** The removal of the files of an event has been invoked: the files are
    gone, or, when the removal failed, the failure is in the log. *)
Definition reaped (env : Env) (e : Event.t) (w : World) : Prop :=
  if storageFails env (attachments_removeAllForEvent (Event.id e))
  then In (Event.id e) (logged w)
  else forall kv, In kv (eventFiles w) -> fst kv <> Event.id e.

(** The record is one the attachments step selects: it references the
    closure set, carries attachments, and is not still attached elsewhere. *)
Definition selectedForReaping (ids : list string) (e : Event.t) : bool :=
  matches [StreamIds_in ids; Attachments_exists true] e
  && negb (stillAttached (Event.streamIds e) ids).

(** ** Statements used by the proofs *)

(** [updateOne] and [findById] agree on a tree: the item found is the item
    updated, and nothing is updated when nothing is found. *)
Definition updateAgreesOnTree (i : string) (d : StreamData) (t : StreamTree) : Prop :=
  (forall s cs, findByIdIn i t = Some (Node s cs) ->
     exists t', updateOneIn i d t = Some (patch d s, t') /\
                findByIdIn i t' = Some (Node (patch d s) cs)) /\
  (findByIdIn i t = None -> updateOneIn i d t = None).

Definition updateAgreesOnForest (i : string) (d : StreamData) (f : list StreamTree) : Prop :=
  (forall s cs, findById f i = Some (Node s cs) ->
     exists f', updateOneStream i d f = Some (patch d s, f') /\
                findById f' i = Some (Node (patch d s) cs)) /\
  (findById f i = None -> updateOneStream i d f = None).

(** The record [h] sits at index [n] of the events collection. *)
Definition inPlace (n : nat) (h : Event.t) (w : World) : Prop :=
  nth_error (events w) n = Some h.

(** ** Claims as worded, for the inputs that refute them *)

(** "Under keep-nothing the history rows of every live event that
    references the closure set are deleted." *)
Definition dropsHistoryOfEveryLinkedEvent (ids : list string)
  (before after : list Event.t) : Prop :=
  forall e h,
    In e before -> isLive e = true -> references ids e ->
    In h before -> Event.headId h = Some (Event.id e) ->
    ~ In h after.

(** "For every live event whose streamIds does not include the parent, the
    parent id is added as the first element, then every closure-set id is
    removed." *)
Definition addsParentFirst (ids : list string) (parent : string)
  (before after : list Event.t) : Prop :=
  forall e sids,
    In e before -> isLive e = true -> Event.streamIds e = Some sids ->
    includes sids parent = false ->
    exists e', In e' after /\ Event.id e' = Event.id e /\
               Event.streamIds e' = Some (parent :: pull ids sids).

(** "If the stream is already trashed, delete removes it together with
    every descendant from the stream tree." *)
Definition removesStreamAndDescendants (node : StreamTree) (after : list StreamTree) : Prop :=
  forall d s',
    In d (collectFromRootItem node) -> In s' (collectFromForest after) ->
    Stream.id s' <> Stream.id d.

(** ** Scenarios *)

Definition aStream (i : string) (parent : option string) (trashed : option bool) : Stream.t :=
  Stream.make i parent i trashed None None.

Definition anEvent (i : string) (sids : list string) (head : option string)
  (files : option (list string)) : Event.t :=
  Event.make i (Some sids) head files (Some "note") (Some 1) (Some "author").

Definition someContext : Context := mkContext (fun _ => true) 7 "access".

Definition someEnv (mode : string) (keep : bool) : Env :=
  mkEnv (mkAudit keep mode) (fun _ => false) (fun _ => "generated").

(** An environment in which every removal of attachment files fails. *)
Definition flakyEnv (mode : string) : Env :=
  mkEnv (mkAudit false mode)
    (fun c => match c with attachments_removeAllForEvent _ => true | _ => false end)
    (fun _ => "generated").

(** Root stream "work" with child "work/sub", already trashed, and one
    event in "work". *)
Definition workWorld : World :=
  mkWorld
    [Node (aStream "work" None (Some true)) [Node (aStream "work/sub" (Some "work") None) []]]
    [anEvent "e1" ["work"] None None]
    [] [] [].

(** The "A" -> "A/B" tree with "A/B" not yet trashed, and an event in it. *)
Definition untrashedWorld : World :=
  mkWorld
    [Node (aStream "A" None None) [Node (aStream "A/B" (Some "A") None) []]]
    [anEvent "e2" ["A/B"] None None]
    [] [] [].

(** Tree "A" -> "A/B" beside a root "X"; "A/B" is already trashed. *)
Definition abTree : list StreamTree :=
  [Node (aStream "A" None None) [Node (aStream "A/B" (Some "A") (Some true)) []];
   Node (aStream "X" None None) []].

Definition abNode : StreamTree := Node (aStream "A/B" (Some "A") (Some true)) [].

(** Events around the trashed "A/B": "e1" is also in "X" and carries a
    file, "e2" and "e3" are in "A/B" only, "e4" is in "X" first and "A/B"
    second; "h1" and "h3" are history rows of "e1" and "e3". *)
Definition e1 : Event.t := anEvent "e1" ["A/B"; "X"] None (Some ["f"]).
Definition h1 : Event.t := anEvent "h1" ["A/B"; "X"] (Some "e1") None.
Definition e2 : Event.t := anEvent "e2" ["A/B"] None None.
Definition e3 : Event.t := anEvent "e3" ["A/B"] None (Some ["g"]).
Definition h3 : Event.t := anEvent "h3" ["A/B"] (Some "e3") None.
Definition e4 : Event.t := anEvent "e4" ["X"; "A/B"] None None.

Definition linkedWorld : World :=
  mkWorld abTree [e1; h1; e2; e3; h3; e4] [("e1", ["f"]); ("e3", ["g"])] [] [].

(** "A/B" with its [trashed] attribute present and false, and an event in
    it. *)
Definition falseTrashedNode : StreamTree :=
  Node (aStream "A/B" (Some "A") (Some false)) [].

Definition falseTrashedWorld : World :=
  mkWorld [Node (aStream "A" None None) [falseTrashedNode]] [e2] [] [] [].

(** ** Further statements about steps *)

(** Every error the step can end with satisfies [P]. *)
Definition failsOnlyWith {A} (P : ApiError -> Prop) (m : M A) : Prop :=
  forall w e, fst (m w) = Failed e -> P e.

(** The errors raised by the checks that come before any write. *)
Definition isValidationError (e : ApiError) : bool :=
  match e with
  | unknownResource _ | forbidden | invalidOperation | invalidParametersFormat => true
  | unexpectedError | UncaughtTypeError => false
  end.

(** Two steps do the same from every world. *)
Definition same {A} (m1 m2 : M A) : Prop := forall w, m1 w = m2 w.

(** Two environments differ at most in the answer of the storage calls
    that satisfy [P]. *)
Definition agreeExcept (P : StorageCall -> Prop) (env1 env2 : Env) : Prop :=
  auditSettings env1 = auditSettings env2 /\
  (forall stored, newId env1 stored = newId env2 stored) /\
  (forall c, ~ P c -> storageFails env1 c = storageFails env2 c).

(** The environment in which the final [userStreamsStorage.delete] answers
    and every other call answers as in [env]. *)
Definition withPruningAnswering (env : Env) : Env :=
  mkEnv (auditSettings env)
    (fun c => match c with deleteStreams_delete => false | _ => storageFails env c end)
    (newId env).

(** Every storage call up to the pruning of the streams answers, save
    perhaps the removal of attachment files; the pruning itself fails. *)
Definition failsAtPruning (env : Env) : Prop :=
  storageFails env deleteStreams_delete = true /\
  forall c,
    match c with
    | attachments_removeAllForEvent _ | deleteStreams_delete => True
    | _ => storageFails env c = false
    end.

(** An environment whose pruning call fails. *)
Definition pruningFailsEnv (mode : string) : Env :=
  mkEnv (mkAudit false mode)
    (fun c => match c with deleteStreams_delete => true | _ => false end)
    (fun _ => "generated").

(** What one run of [addParentStreamIdIfNeeded] then [removeStreamdIds]
    makes of a document, according to which of the two bulk updates
    answer. *)
Definition mergeUpdatesOn (env : Env) (ids : list string) (parent : string)
  : Event.t -> Event.t :=
  if storageFails env addParentStreamId_updateMany then (fun e => e)
  else if storageFails env removeStreamdIds_updateMany then parentAdded ids parent
       else mergedEvent ids parent.

(** The two membership updates of the merge path, in sequence. *)
Definition mergeUpdates (env : Env) (ids : list string) (parent : string) : M unit :=
  addParentStreamIdIfNeeded env ids parent ;;; removeStreamdIds env ids.


(** [updateOne] patches one document of a tree and leaves the others:
    the document lists before and after differ at one place. *)
Definition patchesOneOfTree (i : string) (d : StreamData) (t : StreamTree) : Prop :=
  forall s' t', updateOneIn i d t = Some (s', t') ->
    exists pre s post,
      collectFromRootItem t = pre ++ s :: post /\
      collectFromRootItem t' = pre ++ patch d s :: post /\
      s' = patch d s /\ Stream.id s = i /\
      Forall (fun x => Stream.id x <> i) pre.

Definition patchesOneOfForest (i : string) (d : StreamData) (f : list StreamTree) : Prop :=
  forall s' f', updateOneStream i d f = Some (s', f') ->
    exists pre s post,
      collectFromForest f = pre ++ s :: post /\
      collectFromForest f' = pre ++ patch d s :: post /\
      s' = patch d s /\ Stream.id s = i /\
      Forall (fun x => Stream.id x <> i) pre.

(** No document of the tree has the id. *)
Definition idAbsentFromTree (i : string) (t : StreamTree) : Prop :=
  Forall (fun x => Stream.id x <> i) (collectFromRootItem t).

(** ** Outcomes of the other methods *)

(** The errors [streams.create] can hand over. *)
Definition isCreationError (parent : option string) (e : MethodError) : Prop :=
  e = factoryError invalidOperation \/ e = factoryError forbidden \/ e = invalidItemId \/
  e = itemAlreadyExists "stream" \/ e = itemAlreadyExists "sibling stream" \/
  (exists p, parent = Some p /\ e = unknownReferencedResource "parent stream" "parentId" p) \/
  e = factoryError unexpectedError.

(** The id [streams.create] stores for a requested one. *)
Definition storedId (strings : Strings) (requested : option string) : option string :=
  match requested with
  | Some i => if truthy i then Some (slugify strings i) else Some i
  | None => None
  end.

(** ** Scenarios for the other methods *)

(** System streams carry the prefix ":_system:"; the old prefix was a dot. *)
Definition someSystemStreams : SystemStreams :=
  mkSystemStreams
    (fun i => String.prefix ":_system:" i)
    (fun i => if String.prefix "." i
              then (":_system:" ++ String.substring 1 (String.length i - 1) i)%string
              else i)
    true.

Definition someAccess : Access := mkAccess false (fun _ => true) (fun _ => true).

Definition someStrings : Strings :=
  mkStrings (fun i => String.eqb i "null") (fun i => i).

(** A storage that appends a created stream as a root and patches an
    updated one in place. *)
Definition createdStream (p : CreateParams) : Stream.t :=
  Stream.make (match c_id p with Some i => i | None => "generated" end)
    (c_parentId p) (c_name p) None (c_modified p) (c_modifiedBy p).

Definition someStorage : StreamsStorage :=
  mkStreamsStorage
    (fun p tree => inr (createdStream p, tree ++ [Node (createdStream p) []]))
    (fun i u tree =>
       match updateOneStream i (mkData (match up_trashed u with Value b => Some b | _ => None end)
                                  (up_modified u) (up_modifiedBy u)) tree with
       | Some (s, tree') => inr (s, tree')
       | None => inl (mkStorageError false (fun _ => false))
       end).
(** * Properties *)

(** ** The streams tree *)


Lemma findByIdIn_Node i s cs :
  findByIdIn i (Node s cs) =
  if String.eqb (Stream.id s) i then Some (Node s cs) else findById cs i.
Proof.
  simpl. destruct (String.eqb (Stream.id s) i); [reflexivity|].
  induction cs as [|c r IH]; simpl; [reflexivity|].
  destruct (findByIdIn i c); [reflexivity | exact IH].
Qed.

Lemma updateOneIn_Node i d s cs :
  updateOneIn i d (Node s cs) =
  if String.eqb (Stream.id s) i then Some (patch d s, Node (patch d s) cs)
  else match updateOneStream i d cs with
       | Some (s', cs') => Some (s', Node s cs')
       | None => None
       end.
Proof.
  simpl. destruct (String.eqb (Stream.id s) i); [reflexivity|].
  match goal with |- match ?a with _ => _ end = match ?b with _ => _ end =>
    assert (E : a = b) end.
  { induction cs as [|c r IH]; simpl; [reflexivity|].
    destruct (updateOneIn i d c) as [[s' c']|]; [reflexivity|].
    rewrite IH. reflexivity. }
  rewrite E. reflexivity.
Qed.

Lemma findByIdIn_id i t n :
  findByIdIn i t = Some n -> Stream.id (item n) = i.
Proof.
  revert n. induction t as [s cs IH] using StreamTree_ind. intros n.
  rewrite findByIdIn_Node.
  destruct (String.eqb (Stream.id s) i) eqn:E.
  - intros H. inversion H; subst. simpl. now apply String.eqb_eq.
  - induction IH as [|c r Hc _ IHr]; simpl; [discriminate|].
    destruct (findByIdIn i c) eqn:F.
    + intros H. inversion H; subst. now apply Hc.
    + exact IHr.
Qed.

Lemma findById_id f i n :
  findById f i = Some n -> Stream.id (item n) = i.
Proof.
  induction f as [|t r IH]; simpl; [discriminate|].
  destruct (findByIdIn i t) eqn:F.
  - intros H. inversion H; subst. eapply findByIdIn_id; eauto.
  - exact IH.
Qed.

(** The bulk delete on the tree is the bulk delete on the documents. *)
Lemma removeIdsIn_documents ids t :
  flat_map collectFromRootItem (removeIdsIn ids t) =
  filter (fun s => negb (includes ids (Stream.id s))) (collectFromRootItem t).
Proof.
  induction t as [s cs IH] using StreamTree_ind.
  assert (E : flat_map collectFromRootItem (flat_map (removeIdsIn ids) cs) =
              filter (fun s => negb (includes ids (Stream.id s)))
                     (flat_map collectFromRootItem cs)).
  { induction IH as [|c r Hc _ IHr]; simpl; [reflexivity|].
    rewrite flat_map_app, filter_app, Hc, IHr. reflexivity. }
  simpl. destruct (includes ids (Stream.id s)); simpl.
  - exact E.
  - rewrite app_nil_r. f_equal. exact E.
Qed.

Lemma removeIds_documents ids f :
  collectFromForest (removeIds ids f) =
  filter (fun s => negb (includes ids (Stream.id s))) (collectFromForest f).
Proof.
  unfold collectFromForest, removeIds.
  induction f as [|t r IH]; simpl; [reflexivity|].
  rewrite flat_map_app, filter_app, removeIdsIn_documents, IH. reflexivity.
Qed.

Lemma includes_In l x : includes l x = true <-> In x l.
Proof.
  unfold includes. rewrite existsb_exists. split.
  - intros [y [Hy E]]. apply String.eqb_eq in E. now subst.
  - intros H. exists x. split; [assumption | apply String.eqb_refl].
Qed.

Lemma includes_false l x : includes l x = false <-> ~ In x l.
Proof.
  rewrite <- includes_In. destruct (includes l x); split; congruence.
Qed.

(** After the bulk delete no listed id names a stream any more. *)
Lemma removeIds_gone ids f s :
  In s (collectFromForest (removeIds ids f)) -> ~ In (Stream.id s) ids.
Proof.
  rewrite removeIds_documents, filter_In. intros [_ H].
  apply includes_false. now apply negb_true_iff.
Qed.

Lemma patch_id d s : Stream.id (patch d s) = Stream.id s.
Proof. reflexivity. Qed.

Lemma updateOne_forest i d f :
  Forall (updateAgreesOnTree i d) f -> updateAgreesOnForest i d f.
Proof.
  induction 1 as [|t r [Ht Hn] _ [IHs IHn]]; split; simpl; try discriminate; try reflexivity.
  - intros s cs. destruct (findByIdIn i t) as [found|] eqn:F.
    + intros E. inversion E; subst.
      destruct (Ht s cs eq_refl) as [t' [U F']].
      exists (t' :: r). rewrite U. split; [reflexivity|]. simpl. now rewrite F'.
    + intros E. rewrite (Hn eq_refl).
      destruct (IHs s cs E) as [r' [U F']].
      exists (t :: r'). rewrite U. split; [reflexivity|]. simpl. now rewrite F.
  - destruct (findByIdIn i t) eqn:F; [discriminate|].
    intros E. rewrite (Hn eq_refl), (IHn E). reflexivity.
Qed.

Lemma updateOne_tree i d t : updateAgreesOnTree i d t.
Proof.
  induction t as [s0 cs0 IH] using StreamTree_ind.
  apply updateOne_forest in IH. destruct IH as [IHs IHn].
  split.
  - intros s cs. rewrite findByIdIn_Node, updateOneIn_Node.
    destruct (String.eqb (Stream.id s0) i) eqn:E.
    + intros H. inversion H; subst. eexists. split; [reflexivity|].
      rewrite findByIdIn_Node, patch_id, E. reflexivity.
    + intros H. destruct (IHs s cs H) as [cs' [U F]].
      exists (Node s0 cs'). rewrite U. split; [reflexivity|].
      rewrite findByIdIn_Node, E. exact F.
  - rewrite findByIdIn_Node, updateOneIn_Node.
    destruct (String.eqb (Stream.id s0) i); [discriminate|].
    intros H. now rewrite (IHn H).
Qed.

(** [updateOne] reaches the very item [findById] finds. *)
Lemma updateOneStream_found i d f s cs :
  findById f i = Some (Node s cs) ->
  exists f', updateOneStream i d f = Some (patch d s, f') /\
             findById f' i = Some (Node (patch d s) cs).
Proof.
  apply updateOne_forest.
  apply Forall_forall. intros t _. apply updateOne_tree.
Qed.

(** ** Steps of the method *)

Lemma storageCall_ok env c w :
  storageFails env c = false -> storageCall env c w = (Done tt, w).
Proof. unfold storageCall. now intros ->. Qed.

Lemma storageCall_world env c w : snd (storageCall env c w) = w.
Proof. unfold storageCall. now destruct (storageFails env c). Qed.

Lemma forEachRecord_fold {A} (rs : list A) (h : A -> M unit) (step : World -> A -> World) :
  (forall r w, h r w = (Done tt, step w r)) ->
  forall w, forEachRecord rs h w = (Done tt, fold_left step rs w).
Proof.
  intros H. induction rs as [|r rest IH]; intros w; simpl; [reflexivity|].
  rewrite H. apply IH.
Qed.

(** A property of the world that every handler keeps is kept by the whole
    streamed step, errors or not. *)
Lemma forEachRecord_keeps {A} (rs : list A) (h : A -> M unit) (I : World -> Prop) :
  (forall r w, I w -> I (snd (h r w))) ->
  forall w, I w -> I (snd (forEachRecord rs h w)).
Proof.
  intros H. induction rs as [|r rest IH]; intros w Hw; simpl; [assumption|].
  specialize (H r w Hw). destruct (h r w) as [[a|e] w']; simpl in *; now apply IH.
Qed.

Lemma references_matches ids e :
  references ids e <-> matches [StreamIds_in ids] e = true.
Proof.
  unfold references, matches. simpl. rewrite andb_true_r.
  destruct (Event.streamIds e) as [sids|]; split.
  - intros [l [s [E [Hs Hi]]]]. inversion E; subst.
    apply existsb_exists. exists s. split; [assumption | now apply includes_In].
  - intros H. apply existsb_exists in H. destruct H as [s [Hs Hi]].
    exists sids, s. repeat split; [assumption | now apply includes_In].
  - intros [l [s [E _]]]. discriminate.
  - discriminate.
Qed.

Lemma streams_delete_found env context params w node :
  findById (streams w) (id params) = Some node ->
  canDeleteStream context (Stream.id (item node)) = true ->
  streams_delete env context params w =
  deleteStream env context params (item node) emptyResult w.
Proof.
  intros F C. unfold streams_delete, verifyStreamExistenceAndPermissions, bind, gets.
  rewrite F, C. reflexivity.
Qed.

Lemma deleteWithData_retrieved env params result w node :
  storageFails env retrieveStreamIdsToDelete_find = false ->
  findById (streams w) (id params) = Some node ->
  deleteWithData env params result w =
  (hasLinkedEvents <-
     checkIfRootStreamAndLinkedEventsExist env params
       (collectPluckFromRootItem node) (Stream.parentId (item node)) ;;
   handleLinkedEvents env params (collectPluckFromRootItem node)
     (Stream.parentId (item node)) hasLinkedEvents ;;;
   deleteStreams env params result (collectPluckFromRootItem node)) w.
Proof.
  intros R F. unfold deleteWithData, retrieveStreamIdsToDelete.
  unfold bind at 1 2 3. rewrite (storageCall_ok _ _ _ R).
  unfold gets. rewrite F. reflexivity.
Qed.

Lemma find_ok env c q w :
  storageFails env c = false ->
  find env c q w = (Done (filter (matches q) (events w)), w).
Proof. intros R. unfold find, bind. now rewrite (storageCall_ok _ _ _ R). Qed.

Lemma linked_found ids l e :
  In e l -> references ids e ->
  negb (List.length (firstn 1 (filter (matches [StreamIds_in ids]) l)) =? 0)%nat = true.
Proof.
  intros Hin Href. apply references_matches in Href.
  assert (Hf : In e (filter (matches [StreamIds_in ids]) l)) by (apply filter_In; auto).
  destruct (filter (matches [StreamIds_in ids]) l); [contradiction | reflexivity].
Qed.

(** *** Steps that always hand on, steps that keep a part of the world *)

Lemma bind_done {A B} (m : M A) (k : A -> M B) w a :
  fst (m w) = Done a -> bind m k w = k a (snd (m w)).
Proof. unfold bind. destruct (m w) as [[x|e] w']; simpl; congruence. Qed.

Lemma total_unit (m : M unit) w : total m -> fst (m w) = Done tt.
Proof. intros T. destruct (T w) as [[] E]. exact E. Qed.

Lemma total_ret {A} (a : A) : total (ret a).
Proof. intros w. now exists a. Qed.

Lemma total_gets {A} (f : World -> A) : total (gets f).
Proof. intros w. now exists (f w). Qed.

Lemma total_modify f : total (modify f).
Proof. intros w. now exists tt. Qed.

Lemma total_bind {A B} (m : M A) (k : A -> M B) :
  total m -> (forall a, total (k a)) -> total (bind m k).
Proof.
  intros Tm Tk w. destruct (Tm w) as [a E]. rewrite (bind_done _ _ _ _ E). apply Tk.
Qed.

Lemma total_storageCall env c : storageFails env c = false -> total (storageCall env c).
Proof. intros R w. exists tt. now rewrite storageCall_ok. Qed.

Lemma total_forEachRecord {A} (rs : list A) (h : A -> M unit) :
  (forall r, total (h r)) -> total (forEachRecord rs h).
Proof.
  intros T. induction rs as [|r rest IH]; intros w; simpl; [now exists tt|].
  pose proof (total_unit (h r) w (T r)) as E.
  destruct (h r w) as [[[]|e] w']; simpl in E; [apply IH | discriminate].
Qed.

Lemma keeps_ret {A X} (part : World -> X) (a : A) : keeps part (ret a).
Proof. now intros w. Qed.

Lemma keeps_fail {A X} (part : World -> X) e : keeps part (@fail A e).
Proof. now intros w. Qed.

Lemma keeps_gets {A X} (part : World -> X) (f : World -> A) : keeps part (gets f).
Proof. now intros w. Qed.

Lemma keeps_modify {X} (part : World -> X) f :
  (forall w, part (f w) = part w) -> keeps part (modify f).
Proof. intros H w. apply H. Qed.

Lemma keeps_bind {A B X} (part : World -> X) (m : M A) (k : A -> M B) :
  keeps part m -> (forall a, keeps part (k a)) -> keeps part (bind m k).
Proof.
  intros Km Kk w. unfold bind. specialize (Km w).
  destruct (m w) as [[a|e] w'] eqn:E; simpl in *; [|assumption].
  rewrite Kk. exact Km.
Qed.

Lemma keeps_storageCall {X} (part : World -> X) env c : keeps part (storageCall env c).
Proof. intros w. now rewrite storageCall_world. Qed.

Lemma keeps_forEachRecord {A X} (part : World -> X) (rs : list A) (h : A -> M unit) :
  (forall r, keeps part (h r)) -> keeps part (forEachRecord rs h).
Proof.
  intros K w. apply (forEachRecord_keeps rs h (fun w' => part w' = part w)); [|reflexivity].
  intros r w0 H. now rewrite K.
Qed.

Ltac step_solver :=
  repeat first
    [ progress intros
    | match goal with
      | H : storageFails ?env ?c = false |- total (storageCall ?env ?c) =>
          apply total_storageCall; exact H
      | R : reliable ?env |- total (storageCall ?env ?c) =>
          apply total_storageCall; exact (R c)
      | |- keeps _ (storageCall _ _) => apply keeps_storageCall
      | |- total (bind _ _) => apply total_bind
      | |- total (forEachRecord _ _) => apply total_forEachRecord
      | |- total (ret _) => apply total_ret
      | |- total (gets _) => apply total_gets
      | |- total (modify _) => apply total_modify
      | |- keeps _ (bind _ _) => apply keeps_bind
      | |- keeps _ (forEachRecord _ _) => apply keeps_forEachRecord
      | |- keeps _ (ret _) => apply keeps_ret
      | |- keeps _ (fail _) => apply keeps_fail
      | |- keeps _ (gets _) => apply keeps_gets
      | |- keeps _ (modify _) => apply keeps_modify; intros; reflexivity
      | |- total (match ?x with _ => _ end) => destruct x
      | |- keeps _ (match ?x with _ => _ end) => destruct x
      end ].

Section Steps.
Variable env : Env.
Hypothesis R : reliable env.

Lemma total_removeAllForEvent i : total (removeAllForEvent env i).
Proof. unfold removeAllForEvent. step_solver. Qed.

Lemma total_generateLogIfNecessary ids : total (generateLogIfNecessary env ids).
Proof. unfold generateLogIfNecessary, find, insertOne. step_solver. Qed.

Lemma total_addParentStreamIdIfNeeded ids p : total (addParentStreamIdIfNeeded env ids p).
Proof. unfold addParentStreamIdIfNeeded, updateMany, emit. step_solver. Qed.

Lemma total_removeStreamdIds ids : total (removeStreamdIds env ids).
Proof. unfold removeStreamdIds, updateMany. step_solver. Qed.

Lemma total_handleHistory ids : total (handleHistory env ids).
Proof.
  unfold handleHistory, find, minimizeEventsHistory, removeMany. step_solver.
Qed.

Lemma total_deleteEventsWithAttachments ids : total (deleteEventsWithAttachments env ids).
Proof.
  unfold deleteEventsWithAttachments, find. step_solver. apply total_removeAllForEvent.
Qed.

Lemma total_removeStreamdIdsFromAllEvents ids :
  total (removeStreamdIdsFromAllEvents env ids).
Proof. unfold removeStreamdIdsFromAllEvents, updateMany. step_solver. Qed.

Lemma total_deleteEvents ids : total (deleteEvents env ids).
Proof. unfold deleteEvents, delete, emit. step_solver. Qed.

Lemma total_handleLinkedEvents params ids parent has :
  total (handleLinkedEvents env params ids parent has).
Proof.
  unfold handleLinkedEvents. step_solver;
    first [ apply total_generateLogIfNecessary | apply total_addParentStreamIdIfNeeded
          | apply total_removeStreamdIds | apply total_handleHistory
          | apply total_deleteEventsWithAttachments
          | apply total_removeStreamdIdsFromAllEvents | apply total_deleteEvents ].
Qed.
End Steps.

Lemma keeps_streams_handleLinkedEvents env params ids parent has :
  keeps streams (handleLinkedEvents env params ids parent has).
Proof.
  unfold handleLinkedEvents, generateLogIfNecessary, addParentStreamIdIfNeeded,
    removeStreamdIds, handleHistory, deleteEventsWithAttachments,
    removeStreamdIdsFromAllEvents, deleteEvents, find, updateMany, insertOne,
    removeMany, delete, minimizeEventsHistory, removeAllForEvent, emit.
  step_solver.
Qed.

Lemma check_accepted env params node w :
  storageFails env checkLinkedEvents_find = false ->
  dispositionAccepted params node w ->
  checkIfRootStreamAndLinkedEventsExist env params
    (collectPluckFromRootItem node) (Stream.parentId (item node)) w
  = (Done (hasLinkedEvents (collectPluckFromRootItem node) w), w).
Proof.
  intros Rf [Hm Hn]. unfold checkIfRootStreamAndLinkedEventsExist.
  destruct (mergeEventsWithParent params) as [[|]|] eqn:Mg.
  - destruct (Stream.parentId (item node)) eqn:P.
    + unfold bind. rewrite find_ok by assumption. reflexivity.
    + now destruct Hm.
  - unfold bind. rewrite find_ok by assumption. reflexivity.
  - unfold bind. rewrite find_ok by assumption.
    specialize (Hn eq_refl). unfold hasLinkedEvents in *. now rewrite Hn.
Qed.

(** A hard deletion whose disposition is accepted runs to its end: after
    the linked events are handled the closure set is pruned from the
    streams and the deletion is reported. *)
Lemma deleteWithData_accepted env params result w node :
  reliable env ->
  findById (streams w) (id params) = Some node ->
  dispositionAccepted params node w ->
  deleteWithData env params result w
  = (Done (mkResult (stream result) (Some (id params))),
     add_notification USERNAME_BASED_STREAMS_CHANGED
       (set_streams (removeIds (collectPluckFromRootItem node) (streams w))
          (snd (handleLinkedEvents env params (collectPluckFromRootItem node)
                  (Stream.parentId (item node))
                  (hasLinkedEvents (collectPluckFromRootItem node) w) w)))).
Proof.
  intros R F A.
  rewrite (deleteWithData_retrieved _ _ _ _ _ (R retrieveStreamIdsToDelete_find) F).
  unfold bind at 1. rewrite (check_accepted _ _ _ _ (R checkLinkedEvents_find) A).
  set (ids := collectPluckFromRootItem node).
  set (has := hasLinkedEvents ids w).
  set (parent := Stream.parentId (item node)).
  rewrite (bind_done _ _ _ tt)
    by (apply total_unit, total_handleLinkedEvents; assumption).
  pose proof (keeps_streams_handleLinkedEvents env params ids parent has w) as K.
  unfold deleteStreams, bind, modify, emit, ret.
  rewrite (storageCall_ok _ _ _ (R deleteStreams_delete)). simpl.
  now rewrite K.
Qed.

(** The soft deletion: the item found is stamped, flagged and returned;
    nothing but the streams tree and the notifications changes. *)
Lemma flagAsTrashed_found env context params result w s cs :
  storageFails env flagAsTrashed_updateOne = false ->
  findById (streams w) (id params) = Some (Node s cs) ->
  exists f',
    flagAsTrashed env context params result w
    = (Done (mkResult
               (Some (patch (updateTrackingProperties context (mkData (Some true) None None)) s))
               (streamDeletion result)),
       add_notification USERNAME_BASED_STREAMS_CHANGED (set_streams f' w)) /\
    findById f' (id params)
    = Some (Node (patch (updateTrackingProperties context (mkData (Some true) None None)) s) cs).
Proof.
  intros Rf F.
  destruct (updateOneStream_found (id params)
              (updateTrackingProperties context (mkData (Some true) None None))
              _ _ _ F) as [f' [U F']].
  exists f'. split; [|exact F'].
  unfold flagAsTrashed, bind. rewrite (storageCall_ok _ _ _ Rf). rewrite U.
  reflexivity.
Qed.

(** *** Invariants *)

Lemma preserves_ret {A} I (a : A) : preserves I (ret a).
Proof. now intros w. Qed.

Lemma preserves_fail {A} I e : preserves I (@fail A e).
Proof. now intros w. Qed.

Lemma preserves_gets {A} I (f : World -> A) : preserves I (gets f).
Proof. now intros w. Qed.

Lemma preserves_modify (I : World -> Prop) f :
  (forall w, I w -> I (f w)) -> preserves I (modify f).
Proof. intros H w. apply H. Qed.

Lemma preserves_storageCall I env c : preserves I (storageCall env c).
Proof. intros w. now rewrite storageCall_world. Qed.

Lemma preserves_bind {A B} I (m : M A) (k : A -> M B) :
  preserves I m -> (forall a, preserves I (k a)) -> preserves I (bind m k).
Proof.
  intros Pm Pk w Hw. unfold bind. specialize (Pm w Hw).
  destruct (m w) as [[a|e] w']; simpl in *; [now apply Pk | assumption].
Qed.

Lemma preserves_forEachRecord {A} I (rs : list A) (h : A -> M unit) :
  (forall r, preserves I (h r)) -> preserves I (forEachRecord rs h).
Proof. intros P w. apply forEachRecord_keeps. intros r w0. apply P. Qed.

Ltac invariant_solver :=
  repeat first
    [ progress intros
    | match goal with
      | |- preserves _ (storageCall _ _) => apply preserves_storageCall
      | |- preserves _ (bind _ _) => apply preserves_bind
      | |- preserves _ (forEachRecord _ _) => apply preserves_forEachRecord
      | |- preserves _ (ret _) => apply preserves_ret
      | |- preserves _ (fail _) => apply preserves_fail
      | |- preserves _ (gets _) => apply preserves_gets
      | |- preserves _ (match ?x with _ => _ end) => destruct x
      end ].

(** *** History rows and the live-event bulk updates *)

Lemma history_not_matched q h :
  In (HeadId_exists false) q -> Event.headId h <> None -> matches q h = false.
Proof.
  intros Hq Hh. unfold matches.
  destruct (forallb (fun c => holds c h) q) eqn:E; [|reflexivity].
  rewrite forallb_forall in E. specialize (E _ Hq). simpl in E.
  destruct (Event.headId h); [discriminate | congruence].
Qed.

Lemma updated_history q u h :
  In (HeadId_exists false) q -> Event.headId h <> None -> updated q u h = h.
Proof. intros Hq Hh. unfold updated. now rewrite history_not_matched. Qed.

Lemma nth_error_app_left {A} (l extra : list A) n x :
  nth_error l n = Some x -> nth_error (l ++ extra) n = Some x.
Proof.
  intros H. rewrite nth_error_app1; [assumption|].
  apply nth_error_Some. congruence.
Qed.

Section HistoryKept.
Variables (env : Env) (n : nat) (h : Event.t).
Hypothesis history : Event.headId h <> None.

Lemma updateMany_keeps_history c q u :
  In (HeadId_exists false) q -> preserves (inPlace n h) (updateMany env c q u).
Proof.
  intros Hq. unfold updateMany. invariant_solver.
  apply preserves_modify. unfold inPlace. intros w H. simpl.
  rewrite nth_error_map, H. simpl. f_equal. now apply updated_history.
Qed.

Lemma emit_keeps_history x : preserves (inPlace n h) (emit x).
Proof. unfold emit. apply preserves_modify. now intros w. Qed.

Lemma insertOne_keeps_history c doc : preserves (inPlace n h) (insertOne env c doc).
Proof.
  unfold insertOne. invariant_solver. apply preserves_modify.
  unfold inPlace. intros w H. simpl. now apply nth_error_app_left.
Qed.

Lemma generateLog_keeps_history ids : preserves (inPlace n h) (generateLogIfNecessary env ids).
Proof.
  unfold generateLogIfNecessary, find. invariant_solver. apply insertOne_keeps_history.
Qed.

Lemma addParent_keeps_history ids parent :
  preserves (inPlace n h) (addParentStreamIdIfNeeded env ids parent).
Proof.
  unfold addParentStreamIdIfNeeded. invariant_solver.
  - apply updateMany_keeps_history. simpl. auto.
  - apply emit_keeps_history.
Qed.

Lemma removeStreamdIds_keeps_history ids : preserves (inPlace n h) (removeStreamdIds env ids).
Proof. unfold removeStreamdIds. apply updateMany_keeps_history. simpl. auto. Qed.

Lemma removeFromAll_keeps_history ids :
  preserves (inPlace n h) (removeStreamdIdsFromAllEvents env ids).
Proof.
  unfold removeStreamdIdsFromAllEvents. invariant_solver.
  apply updateMany_keeps_history. simpl. auto.
Qed.

Lemma mergePath_keeps_history params ids parent has :
  mergeEventsWithParent params = Some true ->
  preserves (inPlace n h) (handleLinkedEvents env params ids (Some parent) has).
Proof.
  intros Mg. unfold handleLinkedEvents. rewrite Mg. invariant_solver.
  - apply generateLog_keeps_history.
  - apply addParent_keeps_history.
  - apply removeStreamdIds_keeps_history.
Qed.
End HistoryKept.

Lemma deleteEvents_keeps_history env ids h :
  Event.headId h <> None ->
  preserves (fun w => In h (events w)) (deleteEvents env ids).
Proof.
  intros Hh. unfold deleteEvents, delete, emit. invariant_solver;
    apply preserves_modify; intros w H; simpl; [|assumption].
  apply filter_In. split; [assumption|]. apply negb_true_iff.
  apply history_not_matched; [|assumption].
  unfold deleteEventsFilter. destruct (String.eqb _ _); simpl; auto.
Qed.

(** *** Closed forms of the streamed steps *)

Lemma filter_twice {A} (p q : A -> bool) l :
  filter q (filter p l) = filter (fun x => p x && q x) l.
Proof.
  induction l as [|x r IH]; simpl; [reflexivity|].
  destruct (p x); simpl; [destruct (q x)|]; now rewrite IH.
Qed.

Lemma minimized_headId e : Event.headId (minimized e) = Event.headId e.
Proof. reflexivity. Qed.

Lemma minimized_twice e : minimized (minimized e) = minimized e.
Proof. reflexivity. Qed.

Lemma historyOfAny_minimized heads e :
  historyOfAny heads (minimized e) = historyOfAny heads e.
Proof. reflexivity. Qed.

Lemma historyOfAny_cons head rest e :
  historyOfAny (head :: rest) e
  = matches [HeadId_is (Event.id head)] e || historyOfAny rest e.
Proof. reflexivity. Qed.

Lemma minimizedIfAny_cons head rest e :
  minimizedIfAny rest (minimizedIfOf (Event.id head) e) = minimizedIfAny (head :: rest) e.
Proof.
  unfold minimizedIfAny at 2. rewrite historyOfAny_cons. unfold minimizedIfOf.
  destruct (matches [HeadId_is (Event.id head)] e); simpl; [|reflexivity].
  unfold minimizedIfAny. rewrite historyOfAny_minimized, minimized_twice.
  now destruct (historyOfAny rest e).
Qed.

Lemma minimize_fold heads : forall w,
  events (fold_left (fun w head =>
                       set_events (map (minimizedIfOf (Event.id head)) (events w)) w)
                    heads w)
  = map (minimizedIfAny heads) (events w).
Proof.
  induction heads as [|head rest IH]; intros w; simpl.
  - symmetry. erewrite map_ext; [apply map_id|]. reflexivity.
  - rewrite IH. simpl. rewrite map_map. apply map_ext. intros e.
    apply minimizedIfAny_cons.
Qed.

Lemma removeHistory_fold ids heads : forall w,
  events (fold_left (fun w head =>
                       if stillAttached (Event.streamIds head) ids then w
                       else set_events
                              (filter (fun e => negb (matches [HeadId_is (Event.id head)] e))
                                      (events w)) w)
                    heads w)
  = filter (fun e => negb (historyDropped heads ids e)) (events w).
Proof.
  induction heads as [|head rest IH]; intros w; simpl.
  - symmetry. apply forallb_filter_id. now apply forallb_forall.
  - rewrite IH. destruct (stillAttached (Event.streamIds head) ids); simpl.
    + reflexivity.
    + rewrite filter_twice. apply filter_ext. intros e.
      now rewrite negb_orb.
Qed.

Lemma handleHistory_events env ids w :
  reliable env ->
  events (snd (handleHistory env ids w)) = historyHandled env ids (events w).
Proof.
  intros R. unfold handleHistory, historyHandled.
  destruct (String.eqb (deletionMode (auditSettings env)) "keep-everything");
    [reflexivity|].
  destruct (String.eqb (deletionMode (auditSettings env)) "keep-authors").
  - unfold bind. rewrite find_ok by exact (R handleHistory_findStreamed).
    rewrite (forEachRecord_fold _ _
               (fun w head => set_events (map (minimizedIfOf (Event.id head)) (events w)) w)).
    + simpl. apply minimize_fold.
    + intros head w0. unfold minimizeEventsHistory, bind.
      now rewrite (storageCall_ok _ _ _ (R (handleHistory_minimize (Event.id head)))).
  - unfold bind. rewrite find_ok by exact (R handleHistory_findStreamed).
    rewrite (forEachRecord_fold _ _
               (fun w head =>
                  if stillAttached (Event.streamIds head) ids then w
                  else set_events
                         (filter (fun e => negb (matches [HeadId_is (Event.id head)] e))
                                 (events w)) w)).
    + simpl. apply removeHistory_fold.
    + intros head w0. destruct (stillAttached (Event.streamIds head) ids); [reflexivity|].
      unfold removeMany, bind.
      now rewrite (storageCall_ok _ _ _ (R (handleHistory_removeMany (Event.id head)))).
Qed.

Lemma keeps_events_deleteEventsWithAttachments env ids :
  keeps events (deleteEventsWithAttachments env ids).
Proof.
  unfold deleteEventsWithAttachments, find, removeAllForEvent. step_solver.
Qed.

Lemma keeps_streams_deleteEventsWithAttachments env ids :
  keeps streams (deleteEventsWithAttachments env ids).
Proof.
  unfold deleteEventsWithAttachments, find, removeAllForEvent. step_solver.
Qed.

Lemma removeFromAll_events env ids w :
  reliable env ->
  events (snd (removeStreamdIdsFromAllEvents env ids w))
  = membershipsRemoved env ids (events w).
Proof.
  intros R. unfold removeStreamdIdsFromAllEvents, membershipsRemoved.
  destruct (String.eqb (deletionMode (auditSettings env)) "keep-everything");
    [reflexivity|].
  unfold updateMany, bind.
  now rewrite (storageCall_ok _ _ _ (R removeStreamdIdsFromAllEvents_updateMany)).
Qed.

Lemma deleteEvents_events env ids w :
  reliable env ->
  events (snd (deleteEvents env ids w)) = eventsDeleted env ids (events w).
Proof.
  intros R. unfold deleteEvents, delete, bind.
  now rewrite (storageCall_ok _ _ _ (R deleteEvents_delete)).
Qed.

(** The events collection after the detach path. *)
Lemma detachPath_events env params ids parent w :
  reliable env ->
  mergeEventsWithParent params <> Some true ->
  events (snd (handleLinkedEvents env params ids parent true w))
  = detached env ids (events w).
Proof.
  intros R Mg. unfold handleLinkedEvents. simpl.
  assert (E : forall w0,
            events (snd ((handleHistory env ids ;;;
                          deleteEventsWithAttachments env ids ;;;
                          removeStreamdIdsFromAllEvents env ids ;;;
                          deleteEvents env ids) w0))
            = detached env ids (events w0)).
  { intros w0.
    rewrite (bind_done _ _ _ tt) by (apply total_unit, total_handleHistory; assumption).
    rewrite (bind_done _ _ _ tt)
      by (apply total_unit, total_deleteEventsWithAttachments; assumption).
    rewrite (bind_done _ _ _ tt)
      by (apply total_unit, total_removeStreamdIdsFromAllEvents; assumption).
    rewrite deleteEvents_events, removeFromAll_events by assumption.
    rewrite keeps_events_deleteEventsWithAttachments.
    rewrite handleHistory_events by assumption. reflexivity. }
  destruct (mergeEventsWithParent params) as [[|]|]; [congruence | apply E | apply E].
Qed.

(** *** The events collection after a hard deletion *)

Lemma hasLinkedEvents_true ids w e :
  In e (events w) -> references ids e -> hasLinkedEvents ids w = true.
Proof. intros Hin Href. unfold hasLinkedEvents. eapply linked_found; eauto. Qed.

Lemma accepted_when_decided params node w b :
  mergeEventsWithParent params = Some b ->
  (b = true -> Stream.parentId (item node) <> None) ->
  dispositionAccepted params node w.
Proof.
  intros Mg Hp. split; intros E; rewrite Mg in E; [|discriminate].
  inversion E. now apply Hp.
Qed.

Lemma hard_delete_detaches env context params w node b e :
  reliable env ->
  findById (streams w) (id params) = Some node ->
  canDeleteStream context (Stream.id (item node)) = true ->
  Stream.trashed (item node) = Some b ->
  mergeEventsWithParent params = Some false ->
  In e (events w) ->
  references (collectPluckFromRootItem node) e ->
  events (snd (streams_delete env context params w))
  = detached env (collectPluckFromRootItem node) (events w).
Proof.
  intros R F C T Mg Hin Href.
  rewrite (streams_delete_found env _ _ _ _ F C). unfold deleteStream. rewrite T.
  rewrite (deleteWithData_accepted _ _ _ _ _ R F)
    by (apply (accepted_when_decided _ _ _ false); [assumption | discriminate]).
  simpl. rewrite (hasLinkedEvents_true _ _ _ Hin Href).
  apply detachPath_events; [assumption | congruence].
Qed.

Lemma updated_headId q u e : Event.headId (updated q u e) = Event.headId e.
Proof.
  unfold updated, applyUpdate. destruct (matches q e); [|reflexivity].
  destruct u; destruct (Event.streamIds e); try reflexivity.
  destruct (positionalList q); reflexivity.
Qed.

Lemma minimizedIfAny_headId heads e :
  Event.headId (minimizedIfAny heads e) = Event.headId e.
Proof. unfold minimizedIfAny. now destruct (historyOfAny heads e). Qed.

Lemma strip_history ids h : Event.headId h <> None -> strip ids h = h.
Proof. intros H. apply updated_history; [simpl; auto | assumption]. Qed.

Lemma isLive_headId e : isLive e = true <-> Event.headId e = None.
Proof. unfold isLive. destruct (Event.headId e); simpl; split; congruence. Qed.

Lemma pull_no_member ids sids : existsb (includes ids) (pull ids sids) = false.
Proof.
  induction sids as [|x r IH]; simpl; [reflexivity|].
  destruct (includes ids x) eqn:E; simpl; [assumption|]. now rewrite E.
Qed.

(** A live event, once stripped, names no stream of the closure set. *)
Lemma strip_unlinks ids e :
  isLive e = true -> matches [StreamIds_in ids] (strip ids e) = false.
Proof.
  intros L. apply isLive_headId in L.
  destruct e as [i sids hd att c m mb]. simpl in L. subst hd.
  unfold strip, updated, matches, applyUpdate. simpl.
  destruct sids as [sids|]; simpl; [|reflexivity].
  destruct (existsb (includes ids) sids) eqn:E; simpl.
  - now rewrite pull_no_member.
  - now rewrite E.
Qed.

Lemma found_history heads e h :
  In e heads -> Event.headId h = Some (Event.id e) -> historyOfAny heads h = true.
Proof.
  intros Hin Hh. unfold historyOfAny. apply existsb_exists. exists e.
  split; [assumption|]. unfold matches. simpl. rewrite Hh.
  now rewrite String.eqb_refl.
Qed.

Lemma references_found ids l e :
  In e l -> references ids e -> In e (filter (matches [StreamIds_in ids]) l).
Proof. intros Hin Href. apply filter_In. split; [assumption | now apply references_matches]. Qed.

Lemma mode_keep_authors env :
  deletionMode (auditSettings env) = "keep-authors" ->
  forall ids l,
    detached env ids l
    = filter (fun e => negb (matches [HeadId_exists false; StreamIds_is []] e))
        (map (strip ids)
           (map (minimizedIfAny (filter (matches [StreamIds_in ids]) l)) l)).
Proof.
  intros E ids l.
  unfold detached, eventsDeleted, membershipsRemoved, historyHandled, deleteEventsFilter.
  rewrite E. reflexivity.
Qed.

Lemma mode_keep_nothing env :
  deletionMode (auditSettings env) = "keep-nothing" ->
  forall ids l,
    detached env ids l
    = filter (fun e => negb (matches [HeadId_exists false; StreamIds_is []] e))
        (map (strip ids)
           (filter (fun e => negb (historyDropped
                                     (filter (matches [StreamIds_in ids]) l) ids e)) l)).
Proof.
  intros E ids l.
  unfold detached, eventsDeleted, membershipsRemoved, historyHandled, deleteEventsFilter.
  rewrite E. reflexivity.
Qed.

Lemma mode_keep_everything env :
  deletionMode (auditSettings env) = "keep-everything" ->
  forall ids l,
    detached env ids l
    = filter (fun e => negb (matches [HeadId_exists false; StreamIds_in ids] e)) l.
Proof.
  intros E ids l.
  unfold detached, eventsDeleted, membershipsRemoved, historyHandled, deleteEventsFilter.
  rewrite E. reflexivity.
Qed.

Lemma pull_all ids sids : arrayAIsIncludedInB sids ids = true -> pull ids sids = [].
Proof.
  unfold arrayAIsIncludedInB, pull. induction sids as [|x r IH]; simpl; [reflexivity|].
  intros H. apply andb_true_iff in H. destruct H as [Hx Hr]. rewrite Hx. simpl. now apply IH.
Qed.

(** A record that references the closure set and is not still attached
    elsewhere has all its memberships inside the closure set. *)
Lemma not_attached_inside ids e :
  references ids e -> stillAttached (Event.streamIds e) ids = false ->
  exists sids, Event.streamIds e = Some sids /\ pull ids sids = [].
Proof.
  intros [sids [s [E [Hs Hi]]]] A. exists sids. split; [assumption|].
  rewrite E in A. simpl in A. apply andb_false_iff in A. destruct A as [A|A].
  - destruct sids as [|x [|y r]]; simpl in *; try contradiction; [|discriminate].
    destruct Hs as [->|[]]. apply includes_In in Hi. unfold pull. simpl. now rewrite Hi.
  - apply negb_false_iff in A. now apply pull_all.
Qed.

Lemma strip_inside ids e sids :
  isLive e = true -> references ids e ->
  Event.streamIds e = Some sids -> pull ids sids = [] ->
  Event.streamIds (strip ids e) = Some [].
Proof.
  intros L Href E P. apply references_matches in Href. apply isLive_headId in L.
  unfold strip, updated. unfold matches in *. simpl in *.
  rewrite andb_true_r in Href. rewrite Href, L. simpl.
  unfold applyUpdate. rewrite E. simpl. now rewrite P.
Qed.

Lemma strip_isLive ids e : isLive (strip ids e) = isLive e.
Proof. unfold isLive, strip. now rewrite updated_headId. Qed.

Lemma historyDropped_by heads ids e h :
  In e heads -> stillAttached (Event.streamIds e) ids = false ->
  Event.headId h = Some (Event.id e) -> historyDropped heads ids h = true.
Proof.
  intros Hin A Hh. unfold historyDropped. apply existsb_exists. exists e.
  split; [assumption|]. rewrite A. unfold matches. simpl. rewrite Hh.
  now rewrite String.eqb_refl.
Qed.

Lemma historyDropped_not heads ids h i :
  Event.headId h = Some i ->
  (forall x, In x heads -> Event.id x = i -> stillAttached (Event.streamIds x) ids = true) ->
  historyDropped heads ids h = false.
Proof.
  intros Hh A. unfold historyDropped.
  destruct (existsb _ heads) eqn:E; [|reflexivity].
  apply existsb_exists in E. destruct E as [x [Hx Hm]].
  apply andb_true_iff in Hm. destruct Hm as [Hn Hm].
  unfold matches in Hm. simpl in Hm. rewrite Hh, andb_true_r in Hm.
  apply String.eqb_eq in Hm. rewrite (A x Hx (eq_sym Hm)) in Hn. discriminate.
Qed.

(** What a live event left by the keep-authors or keep-nothing deletion
    looks like. *)
Lemma survivor_of_strip ids l r :
  In r (filter (fun e => negb (matches [HeadId_exists false; StreamIds_is []] e))
          (map (strip ids) l)) ->
  isLive r = true ->
  matches [StreamIds_in ids] r = false /\ Event.streamIds r <> Some [] /\
  exists x, In x l /\ isLive x = true /\ r = strip ids x.
Proof.
  intros Hr L. apply filter_In in Hr. destruct Hr as [Hr Hk].
  apply in_map_iff in Hr. destruct Hr as [x [Ex Hx]]. subst r.
  rewrite strip_isLive in L. split; [now apply strip_unlinks|]. split.
  - intros E. apply negb_true_iff in Hk. unfold matches in Hk. simpl in Hk.
    rewrite E in Hk. simpl in Hk. unfold strip in Hk. rewrite updated_headId in Hk.
    apply isLive_headId in L. rewrite L in Hk. discriminate.
  - exists x. auto.
Qed.

(** *** The events collection after the merge path *)

Lemma versions_fold env found : forall w,
  events (fold_left (fun w event =>
                       set_events (events w ++ [eventToVersion env event (events w)]) w)
                    found w)
  = events w ++ versions env found (events w).
Proof.
  induction found as [|event rest IH]; intros w; simpl.
  - now rewrite app_nil_r.
  - rewrite IH. simpl. now rewrite <- app_assoc.
Qed.

Lemma versions_history env found : forall stored,
  Forall (fun x => Event.headId x <> None) (versions env found stored).
Proof.
  induction found as [|event rest IH]; intros stored; simpl; constructor.
  - discriminate.
  - apply IH.
Qed.

Lemma generateLog_events env ids w :
  reliable env ->
  events (snd (generateLogIfNecessary env ids w))
  = events w ++ logged_versions env ids (events w).
Proof.
  intros R. unfold generateLogIfNecessary, logged_versions.
  destruct (negb (forceKeepHistory (auditSettings env))); simpl.
  - now rewrite app_nil_r.
  - unfold bind. rewrite find_ok by exact (R generateLog_findStreamed).
    rewrite (forEachRecord_fold _ _
               (fun w event =>
                  set_events (events w ++ [eventToVersion env event (events w)]) w)).
    + simpl. apply versions_fold.
    + intros event w0. unfold insertOne, bind.
      now rewrite (storageCall_ok _ _ _ (R (generateLog_insertOne (Event.id event)))).
Qed.

Lemma addParent_events env ids parent w :
  reliable env ->
  events (snd (addParentStreamIdIfNeeded env ids parent w))
  = map (parentAdded ids parent) (events w).
Proof.
  intros R. unfold addParentStreamIdIfNeeded, updateMany, bind.
  now rewrite (storageCall_ok _ _ _ (R addParentStreamId_updateMany)).
Qed.

Lemma removeStreamdIds_events env ids w :
  reliable env ->
  events (snd (removeStreamdIds env ids w)) = map (strip ids) (events w).
Proof.
  intros R. unfold removeStreamdIds, updateMany, bind.
  now rewrite (storageCall_ok _ _ _ (R removeStreamdIds_updateMany)).
Qed.

Lemma mergedEvent_history ids parent h :
  Event.headId h <> None -> mergedEvent ids parent h = h.
Proof.
  intros H. unfold mergedEvent, parentAdded.
  rewrite (updated_history _ _ h) by (simpl; auto). now apply strip_history.
Qed.

Lemma mergePath_events env params ids parent w :
  reliable env ->
  mergeEventsWithParent params = Some true ->
  events (snd (handleLinkedEvents env params ids (Some parent) true w))
  = map (mergedEvent ids parent) (events w) ++ logged_versions env ids (events w).
Proof.
  intros R Mg. unfold handleLinkedEvents. rewrite Mg. simpl.
  rewrite (bind_done _ _ _ tt) by (apply total_unit, total_generateLogIfNecessary; assumption).
  rewrite (bind_done _ _ _ tt) by (apply total_unit, total_addParentStreamIdIfNeeded; assumption).
  rewrite removeStreamdIds_events, addParent_events, generateLog_events by assumption.
  rewrite map_map, map_app. f_equal.
  unfold logged_versions. destruct (negb (forceKeepHistory (auditSettings env))); [reflexivity|].
  set (found := filter _ _).
  pose proof (versions_history env found (events w)) as H.
  induction H as [|x l Hx _ IH]; simpl; [reflexivity|].
  rewrite IH. f_equal. now apply mergedEvent_history.
Qed.

Lemma pull_nothing ids sids : existsb (includes ids) sids = false -> pull ids sids = sids.
Proof.
  unfold pull. induction sids as [|x r IH]; simpl; [reflexivity|].
  intros H. apply orb_false_iff in H. destruct H as [Hx Hr]. rewrite Hx. simpl.
  now rewrite IH.
Qed.

Lemma mergedEvent_live ids parent e sids :
  isLive e = true -> Event.streamIds e = Some sids ->
  mergedEvent ids parent e
  = Event.with_streamIds (Some (mergedStreamIds ids parent sids)) e.
Proof.
  intros L S. apply isLive_headId in L.
  destruct e as [i s hd att c m mb]. simpl in *. subst.
  unfold mergedEvent, parentAdded, strip, updated, matches, applyUpdate, mergedStreamIds,
    Event.with_streamIds.
  simpl. rewrite !andb_true_r.
  destruct (existsb (includes ids) sids) eqn:E; simpl.
  - destruct (includes sids parent) eqn:P; simpl.
    + rewrite E. reflexivity.
    + destruct (existsb (includes ids) (setFirstIn ids parent sids)) eqn:E'; simpl.
      * reflexivity.
      * now rewrite pull_nothing.
  - rewrite andb_false_r. simpl. rewrite E. reflexivity.
Qed.

(** *** Attachments *)

Lemma forEachRecord_establishes {A} (rs : list A) (h : A -> M unit) (I : World -> Prop) r :
  In r rs ->
  (forall w, I (snd (h r w))) ->
  (forall r', preserves I (h r')) ->
  forall w, I (snd (forEachRecord rs h w)).
Proof.
  intros Hin Hr Hp. induction rs as [|x rest IH]; [contradiction|].
  intros w. simpl. destruct Hin as [->|Hin].
  - specialize (Hr w). destruct (h r w) as [[a|e] w']; simpl in *;
      now apply (preserves_forEachRecord I rest h Hp).
  - destruct (h x w) as [[a|e] w']; simpl; now apply IH.
Qed.

Lemma removeAllForEvent_reaps env e w :
  reaped env e (snd (removeAllForEvent env (Event.id e) w)).
Proof.
  unfold reaped, removeAllForEvent.
  destruct (storageFails env (attachments_removeAllForEvent (Event.id e))); simpl.
  - apply in_or_app. right. simpl. auto.
  - intros kv Hkv. apply filter_In in Hkv. destruct Hkv as [_ Hkv].
    apply negb_true_iff in Hkv. intros E. rewrite E, String.eqb_refl in Hkv. discriminate.
Qed.

Lemma removeAllForEvent_keeps_reaped env e i :
  preserves (reaped env e) (removeAllForEvent env i).
Proof.
  intros w. unfold reaped, removeAllForEvent.
  destruct (storageFails env (attachments_removeAllForEvent (Event.id e)));
    destruct (storageFails env (attachments_removeAllForEvent i)); simpl; intros H.
  - apply in_or_app. now left.
  - assumption.
  - assumption.
  - intros kv Hkv. apply filter_In in Hkv. now apply H.
Qed.

Lemma reaped_same env e w w' :
  eventFiles w' = eventFiles w -> logged w' = logged w -> reaped env e w -> reaped env e w'.
Proof. unfold reaped. now intros -> ->. Qed.

Lemma step_keeps_reaped {A} env e (m : M A) :
  keeps eventFiles m -> keeps logged m -> preserves (reaped env e) m.
Proof. intros K1 K2 w. apply reaped_same; [apply K1 | apply K2]. Qed.

Lemma deleteEventsWithAttachments_reaps env ids e w :
  storageFails env attachments_findStreamed = false ->
  In e (events w) ->
  selectedForReaping ids e = true ->
  reaped env e (snd (deleteEventsWithAttachments env ids w)).
Proof.
  intros Rf Hin Sel. apply andb_true_iff in Sel. destruct Sel as [Hm Ha].
  apply negb_true_iff in Ha.
  unfold deleteEventsWithAttachments, bind. rewrite find_ok by assumption.
  apply (forEachRecord_establishes _ _ (reaped env e) e).
  - apply filter_In. auto.
  - intros w0. rewrite Ha. apply removeAllForEvent_reaps.
  - intros r. destruct (stillAttached (Event.streamIds r) ids).
    + apply preserves_ret.
    + apply removeAllForEvent_keeps_reaped.
Qed.

(** Whatever the removals answer, the attachments step hands on. *)
Lemma deleteEventsWithAttachments_done env ids w :
  storageFails env attachments_findStreamed = false ->
  fst (deleteEventsWithAttachments env ids w) = Done tt.
Proof.
  intros Rf. apply total_unit.
  unfold deleteEventsWithAttachments, find. step_solver. apply total_removeAllForEvent.
Qed.

Lemma live_not_history heads e : isLive e = true -> historyOfAny heads e = false.
Proof.
  intros L. apply isLive_headId in L. unfold historyOfAny.
  destruct (existsb _ heads) eqn:E; [|reflexivity].
  apply existsb_exists in E. destruct E as [x [_ Hx]].
  unfold matches in Hx. simpl in Hx. rewrite L in Hx. discriminate.
Qed.

Lemma live_not_dropped heads ids e : isLive e = true -> historyDropped heads ids e = false.
Proof.
  intros L. apply isLive_headId in L. unfold historyDropped.
  destruct (existsb _ heads) eqn:E; [|reflexivity].
  apply existsb_exists in E. destruct E as [x [_ Hx]].
  apply andb_true_iff in Hx. destruct Hx as [_ Hx].
  unfold matches in Hx. simpl in Hx. rewrite L in Hx. discriminate.
Qed.

(** The history step leaves the live events as they are. *)
Lemma historyHandled_live env ids l e :
  In e l -> isLive e = true -> In e (historyHandled env ids l).
Proof.
  intros Hin L. unfold historyHandled.
  destruct (String.eqb _ "keep-everything"); [assumption|].
  destruct (String.eqb _ "keep-authors").
  - apply in_map_iff. exists e. split; [|assumption].
    unfold minimizedIfAny. now rewrite live_not_history.
  - apply filter_In. split; [assumption|]. now rewrite live_not_dropped.
Qed.

Lemma detachPath_reaps env params ids parent w e :
  reliable env ->
  mergeEventsWithParent params <> Some true ->
  In e (events w) -> isLive e = true ->
  selectedForReaping ids e = true ->
  reaped env e (snd (handleLinkedEvents env params ids parent true w)).
Proof.
  intros R Mg Hin L Sel. unfold handleLinkedEvents. simpl.
  assert (E : reaped env e
                (snd ((handleHistory env ids ;;;
                       deleteEventsWithAttachments env ids ;;;
                       removeStreamdIdsFromAllEvents env ids ;;;
                       deleteEvents env ids) w))).
  { rewrite (bind_done _ _ _ tt) by (apply total_unit, total_handleHistory; assumption).
    rewrite (bind_done _ _ _ tt)
      by (apply total_unit, total_deleteEventsWithAttachments; assumption).
    assert (P : preserves (reaped env e)
                  (removeStreamdIdsFromAllEvents env ids ;;; deleteEvents env ids)).
    { apply step_keeps_reaped;
        unfold removeStreamdIdsFromAllEvents, deleteEvents, updateMany, delete, emit;
        step_solver. }
    apply P. apply deleteEventsWithAttachments_reaps;
      [exact (R attachments_findStreamed) | | assumption].
    rewrite handleHistory_events by assumption. now apply historyHandled_live. }
  destruct (mergeEventsWithParent params) as [[|]|]; [congruence | exact E | exact E].
Qed.

(** A hard deletion through the registered chain: the deletion is
    reported and the closure set is gone from the stream documents. *)
Lemma hard_delete_prunes env context params w node :
  reliable env ->
  findById (streams w) (id params) = Some node ->
  canDeleteStream context (Stream.id (item node)) = true ->
  Stream.trashed (item node) <> None ->
  dispositionAccepted params node w ->
  exists w',
    streams_delete env context params w = (Done (mkResult None (Some (id params))), w') /\
    (forall d s', In d (collectFromRootItem node) ->
                  In s' (collectFromForest (streams w')) ->
                  Stream.id s' <> Stream.id d) /\
    collectFromForest (streams w')
    = filter (fun s => negb (includes (collectPluckFromRootItem node) (Stream.id s)))
        (collectFromForest (streams w)).
Proof.
  intros R F C T A. rewrite (streams_delete_found env _ _ _ _ F C). unfold deleteStream.
  destruct (Stream.trashed (item node)) as [b|]; [|congruence].
  rewrite (deleteWithData_accepted _ _ _ _ _ R F A).
  eexists. split; [reflexivity|]. simpl. split.
  - intros d s' Hd Hs' E. apply removeIds_gone in Hs'. apply Hs'.
    rewrite E. unfold collectPluckFromRootItem. now apply in_map.
  - apply removeIds_documents.
Qed.

Lemma hasLinkedEvents_false ids w e :
  hasLinkedEvents ids w = false -> In e (events w) -> matches [StreamIds_in ids] e = false.
Proof.
  unfold hasLinkedEvents. intros H Hin.
  destruct (matches [StreamIds_in ids] e) eqn:E; [|reflexivity].
  assert (Hf : In e (filter (matches [StreamIds_in ids]) (events w)))
    by (apply filter_In; auto).
  destruct (filter (matches [StreamIds_in ids]) (events w)); [contradiction | discriminate].
Qed.

Lemma with_streamIds_same e sids :
  Event.streamIds e = Some sids -> Event.with_streamIds (Some sids) e = e.
Proof. destruct e. simpl. now intros ->. Qed.

(** The events collection after a merging hard deletion, whether or not
    an event was linked. *)
Lemma hard_delete_merge_events env context params w node b parent :
  reliable env ->
  findById (streams w) (id params) = Some node ->
  canDeleteStream context (Stream.id (item node)) = true ->
  Stream.trashed (item node) = Some b ->
  mergeEventsWithParent params = Some true ->
  Stream.parentId (item node) = Some parent ->
  events (snd (streams_delete env context params w))
  = if hasLinkedEvents (collectPluckFromRootItem node) w
    then map (mergedEvent (collectPluckFromRootItem node) parent) (events w)
         ++ logged_versions env (collectPluckFromRootItem node) (events w)
    else events w.
Proof.
  intros R F C T Mg P.
  rewrite (streams_delete_found env _ _ _ _ F C). unfold deleteStream. rewrite T.
  rewrite (deleteWithData_accepted _ _ _ _ _ R F)
    by (apply (accepted_when_decided _ _ _ true); [assumption | intros _; congruence]).
  simpl. rewrite P.
  destruct (hasLinkedEvents (collectPluckFromRootItem node) w).
  - now apply mergePath_events.
  - reflexivity.
Qed.

(** Under keep-everything the detach path deletes every live event that
    references the closure set, whatever else it is attached to, and
    nothing else. *)
Lemma keep_everything_deletes_linked env context params w node b e :
  reliable env ->
  deletionMode (auditSettings env) = "keep-everything" ->
  mergeEventsWithParent params = Some false ->
  findById (streams w) (id params) = Some node ->
  canDeleteStream context (Stream.id (item node)) = true ->
  Stream.trashed (item node) = Some b ->
  In e (events w) ->
  isLive e = true ->
  references (collectPluckFromRootItem node) e ->
  events (snd (streams_delete env context params w))
  = filter (fun x => negb (matches [HeadId_exists false;
                                    StreamIds_in (collectPluckFromRootItem node)] x))
      (events w) /\
  ~ In e (events (snd (streams_delete env context params w))).
Proof.
  intros R Mode Mg F C T He L Href.
  rewrite (hard_delete_detaches env context params w node b e R F C T Mg He Href).
  rewrite (mode_keep_everything env Mode). split; [reflexivity|].
  intros Hin. apply filter_In in Hin. destruct Hin as [_ Hk].
  apply negb_true_iff in Hk. apply references_matches in Href.
  apply isLive_headId in L. unfold matches in *. simpl in *.
  rewrite L in Hk. simpl in Hk. congruence.
Qed.

(** * The claims *)

(** C10. The hard-delete branch is taken whenever the stream's [trashed]
    attribute is non-null, whatever its value.  With [trashed] present and
    false the method skips [flagAsTrashed] and runs [deleteWithData] at
    once: no trashed stream record is returned, and (the disposition being
    accepted) the deletion is reported, no stream document is left with the
    id of the stream or of a descendant, and with [mergeEventsWithParent =
    false] the linked events go through the detach path. *)
Theorem trashed_false_is_hard_deleted env context params w node :
  findById (streams w) (id params) = Some node ->
  canDeleteStream context (Stream.id (item node)) = true ->
  Stream.trashed (item node) = Some false ->
  (forall s result,
     Stream.trashed s <> None ->
     deleteStream env context params s result = deleteWithData env params result) /\
  streams_delete env context params w = deleteWithData env params emptyResult w /\
  (reliable env -> dispositionAccepted params node w ->
   fst (streams_delete env context params w) = Done (mkResult None (Some (id params))) /\
   (forall d s', In d (collectFromRootItem node) ->
                 In s' (collectFromForest (streams (snd (streams_delete env context params w)))) ->
                 Stream.id s' <> Stream.id d) /\
   (forall linked,
      mergeEventsWithParent params = Some false ->
      In linked (events w) -> references (collectPluckFromRootItem node) linked ->
      events (snd (streams_delete env context params w))
      = detached env (collectPluckFromRootItem node) (events w))).
Proof.
  intros F C T. split; [|split].
  - intros s result Hs. unfold deleteStream.
    destruct (Stream.trashed s); [reflexivity | congruence].
  - rewrite (streams_delete_found env _ _ _ _ F C). unfold deleteStream. now rewrite T.
  - intros R A. split; [|split].
    + rewrite (streams_delete_found env _ _ _ _ F C). unfold deleteStream. rewrite T.
      now rewrite (deleteWithData_accepted _ _ _ _ _ R F A).
    + intros d s' Hd Hs' E.
      rewrite (streams_delete_found env _ _ _ _ F C) in Hs'. unfold deleteStream in Hs'.
      rewrite T, (deleteWithData_accepted _ _ _ _ _ R F A) in Hs'. simpl in Hs'.
      apply removeIds_gone in Hs'. apply Hs'.
      rewrite E. unfold collectPluckFromRootItem. now apply in_map.
    + intros linked Mg Hl Href.
      now apply (hard_delete_detaches env context params w node false linked).
Qed.

Lemma trashed_false_is_hard_deleted_witness :
  fst (streams_delete (someEnv "keep-nothing" false) someContext
         (mkParams "A/B" (Some false)) falseTrashedWorld)
  = Done (mkResult None (Some "A/B")) /\
  events (snd (streams_delete (someEnv "keep-nothing" false) someContext
                 (mkParams "A/B" (Some false)) falseTrashedWorld))
  = [].
Proof.
  destruct (trashed_false_is_hard_deleted (someEnv "keep-nothing" false) someContext
              (mkParams "A/B" (Some false)) falseTrashedWorld falseTrashedNode)
    as [_ [_ H]].
  - reflexivity.
  - reflexivity.
  - reflexivity.
  - destruct H as [D [_ E]].
    + intros c; destruct c; exact I || reflexivity.
    + split; discriminate.
    + split; [exact D|].
      rewrite (E e2); [reflexivity | reflexivity | simpl; auto |].
      exists ["A/B"], "A/B". simpl. auto.
Defined.

(** C4. A hard delete with [mergeEventsWithParent = true] of a stream
    whose [parentId] is null fails with [invalidOperation], and the
    streams, events, files, log and notifications are as before. *)
Theorem root_merge_is_rejected env context params w node b :
  findById (streams w) (id params) = Some node ->
  canDeleteStream context (Stream.id (item node)) = true ->
  Stream.trashed (item node) = Some b ->
  storageFails env retrieveStreamIdsToDelete_find = false ->
  Stream.parentId (item node) = None ->
  mergeEventsWithParent params = Some true ->
  streams_delete env context params w = (Failed invalidOperation, w).
Proof.
  intros F C T R P Mg.
  rewrite (streams_delete_found env _ _ _ _ F C). unfold deleteStream. rewrite T.
  rewrite (deleteWithData_retrieved _ _ _ _ _ R F).
  unfold bind, checkIfRootStreamAndLinkedEventsExist. rewrite Mg, P. reflexivity.
Qed.

Lemma root_merge_is_rejected_witness :
  streams_delete (someEnv "keep-nothing" false) someContext
    (mkParams "work" (Some true)) workWorld
  = (Failed invalidOperation, workWorld).
Proof.
  apply (root_merge_is_rejected _ _ _ _
           (Node (aStream "work" None (Some true))
                 [Node (aStream "work/sub" (Some "work") None) []]) true);
    reflexivity.
Defined.

(** C3. A hard delete for which a live event references a stream of the
    closure set while [mergeEventsWithParent] is null fails with the
    missing-disposition error ([invalidParametersFormat]: "the
    `mergeEventsWithParent` parameter is missing"), and nothing is
    changed. *)
Theorem missing_disposition_is_rejected env context params w node b e :
  findById (streams w) (id params) = Some node ->
  canDeleteStream context (Stream.id (item node)) = true ->
  Stream.trashed (item node) = Some b ->
  storageFails env retrieveStreamIdsToDelete_find = false ->
  storageFails env checkLinkedEvents_find = false ->
  In e (events w) ->
  isLive e = true ->
  references (collectPluckFromRootItem node) e ->
  mergeEventsWithParent params = None ->
  streams_delete env context params w = (Failed invalidParametersFormat, w).
Proof.
  intros F C T R R' Hin _ Href Mg.
  rewrite (streams_delete_found env _ _ _ _ F C). unfold deleteStream. rewrite T.
  rewrite (deleteWithData_retrieved _ _ _ _ _ R F).
  unfold bind at 1. unfold checkIfRootStreamAndLinkedEventsExist. rewrite Mg.
  unfold bind. rewrite find_ok by assumption.
  rewrite (linked_found _ _ _ Hin Href). reflexivity.
Qed.

Lemma missing_disposition_is_rejected_witness :
  streams_delete (someEnv "keep-nothing" false) someContext
    (mkParams "work" None) workWorld
  = (Failed invalidParametersFormat, workWorld).
Proof.
  apply (missing_disposition_is_rejected _ _ _ _
           (Node (aStream "work" None (Some true))
                 [Node (aStream "work/sub" (Some "work") None) []]) true
           (anEvent "e1" ["work"] None None)); try reflexivity.
  - simpl. now left.
  - exists ["work"], "work". simpl. auto.
Defined.

(** C5, as worded, fails: the trashed root "work" holds the event "e1",
    and a delete that names no [mergeEventsWithParent] is refused: "work"
    and "work/sub" are still in the tree.  The same goes for two calls in
    a row on the untrashed "A/B", which holds "e2": the first call moves
    it to the trash, the second is refused and "A/B" is still there. *)
Lemma trashed_stream_is_kept_when_delete_is_refused :
  findById (streams workWorld) "work"
  = Some (Node (aStream "work" None (Some true))
               [Node (aStream "work/sub" (Some "work") None) []]) /\
  ~ removesStreamAndDescendants
      (Node (aStream "work" None (Some true))
            [Node (aStream "work/sub" (Some "work") None) []])
      (streams (snd (streams_delete (someEnv "keep-nothing" false) someContext
                       (mkParams "work" None) workWorld))) /\
  ~ removesStreamAndDescendants
      (Node (aStream "A/B" (Some "A") None) [])
      (streams (snd (streams_delete (someEnv "keep-nothing" false) someContext
                       (mkParams "A/B" None)
                       (snd (streams_delete (someEnv "keep-nothing" false) someContext
                               (mkParams "A/B" None) untrashedWorld))))).
Proof.
  split; [reflexivity|]. split.
  - intros H.
    apply (H (aStream "work/sub" (Some "work") None) (aStream "work/sub" (Some "work") None)).
    + simpl. auto.
    + vm_compute. auto.
    + reflexivity.
  - intros H.
    apply (H (aStream "A/B" (Some "A") None)
             (Stream.make "A/B" (Some "A") "A/B" (Some true) (Some 7) (Some "access"))).
    + simpl. auto.
    + vm_compute. auto.
    + reflexivity.
Qed.

(** C5, amended.  Two-phase delete, the storage answering.  For an
    existing stream the caller may delete: with [trashed] unset the method
    sets [trashed = true] on the stored stream, returns that updated record
    and touches no event; with [trashed] set it runs the hard deletion.
    When the disposition is accepted (a merge has a parent to merge into,
    and [mergeEventsWithParent] is given whenever an event references the
    stream or a descendant), the hard deletion reports the deletion and
    leaves no stream document bearing the id of the stream or of one of
    its descendants; so a first call on an untrashed stream followed by a
    second call removes the stream and every descendant.  When the
    disposition is not accepted, the hard deletion fails, with
    [invalidOperation] for a merge at the root and with
    [invalidParametersFormat] for a missing [mergeEventsWithParent], and
    the tree, the stream included, is as before. *)
Theorem delete_is_two_phase env context params w node :
  reliable env ->
  findById (streams w) (id params) = Some node ->
  canDeleteStream context (Stream.id (item node)) = true ->
  (Stream.trashed (item node) = None ->
   exists updated w',
     streams_delete env context params w = (Done (mkResult (Some updated) None), w') /\
     Stream.trashed updated = Some true /\
     Stream.id updated = id params /\
     findById (streams w') (id params) = Some (Node updated (children node)) /\
     events w' = events w /\ eventFiles w' = eventFiles w) /\
  (Stream.trashed (item node) <> None ->
   dispositionAccepted params node w ->
   exists w',
     streams_delete env context params w = (Done (mkResult None (Some (id params))), w') /\
     removesStreamAndDescendants node (streams w') /\
     collectFromForest (streams w')
     = filter (fun s => negb (includes (collectPluckFromRootItem node) (Stream.id s)))
         (collectFromForest (streams w))) /\
  (Stream.trashed (item node) = None ->
   dispositionAccepted params node w ->
   exists first w1 w2,
     streams_delete env context params w = (Done first, w1) /\
     streams_delete env context params w1 = (Done (mkResult None (Some (id params))), w2) /\
     removesStreamAndDescendants node (streams w2)) /\
  (Stream.trashed (item node) <> None ->
   (mergeEventsWithParent params = Some true -> Stream.parentId (item node) = None ->
    streams_delete env context params w = (Failed invalidOperation, w)) /\
   (mergeEventsWithParent params = None ->
    hasLinkedEvents (collectPluckFromRootItem node) w = true ->
    streams_delete env context params w = (Failed invalidParametersFormat, w)) /\
   (~ dispositionAccepted params node w ->
    exists e, streams_delete env context params w = (Failed e, w) /\
              findById (streams w) (id params) = Some node)).
Proof.
  intros R F C.
  assert (Soft : Stream.trashed (item node) = None ->
            exists updated w',
              streams_delete env context params w
              = (Done (mkResult (Some updated) None), w') /\
              Stream.trashed updated = Some true /\
              Stream.id updated = id params /\
              findById (streams w') (id params) = Some (Node updated (children node)) /\
              events w' = events w /\ eventFiles w' = eventFiles w /\
              Stream.parentId updated = Stream.parentId (item node)).
  { intros T. rewrite (streams_delete_found env _ _ _ _ F C). unfold deleteStream.
    rewrite T. destruct node as [s cs]. simpl in *.
    destruct (flagAsTrashed_found env context params emptyResult w s cs
                (R flagAsTrashed_updateOne) F) as [f' [E F']].
    eexists. eexists. split; [exact E|].
    repeat split; try reflexivity.
    - simpl. apply (findById_id _ _ _ F).
    - exact F'. }
  assert (Root : Stream.trashed (item node) <> None ->
            mergeEventsWithParent params = Some true -> Stream.parentId (item node) = None ->
            streams_delete env context params w = (Failed invalidOperation, w)).
  { intros T Mg P. rewrite (streams_delete_found env _ _ _ _ F C). unfold deleteStream.
    destruct (Stream.trashed (item node)) as [b|]; [|now destruct T].
    rewrite (deleteWithData_retrieved _ _ _ _ _ (R retrieveStreamIdsToDelete_find) F).
    unfold bind, checkIfRootStreamAndLinkedEventsExist. rewrite Mg, P. reflexivity. }
  assert (Missing : Stream.trashed (item node) <> None ->
            mergeEventsWithParent params = None ->
            hasLinkedEvents (collectPluckFromRootItem node) w = true ->
            streams_delete env context params w = (Failed invalidParametersFormat, w)).
  { intros T Mg L. rewrite (streams_delete_found env _ _ _ _ F C). unfold deleteStream.
    destruct (Stream.trashed (item node)) as [b|]; [|now destruct T].
    rewrite (deleteWithData_retrieved _ _ _ _ _ (R retrieveStreamIdsToDelete_find) F).
    unfold bind at 1. unfold checkIfRootStreamAndLinkedEventsExist. rewrite Mg.
    unfold bind. rewrite find_ok by (exact (R checkLinkedEvents_find)).
    unfold hasLinkedEvents in L. rewrite L. reflexivity. }
  split; [|split; [|split]].
  - intros T. destruct (Soft T) as [u [w' [E [Tu [Iu [Fu [Ev [Ef _]]]]]]]].
    exists u, w'. auto 10.
  - intros T A. now apply hard_delete_prunes.
  - intros T A. destruct (Soft T) as [u [w1 [E [Tu [Iu [Fu [Ev [_ Pu]]]]]]]].
    pose proof (findById_id _ _ _ F) as Hid.
    destruct (hard_delete_prunes env context params w1 (Node u (children node)))
      as [w2 [E2 [Gone _]]]; try assumption.
    + simpl. rewrite Iu, <- Hid. exact C.
    + simpl. congruence.
    + destruct A as [Am An]. split; simpl.
      * rewrite Pu. exact Am.
      * intros Mg. rewrite <- (An Mg). unfold hasLinkedEvents. rewrite Ev.
        destruct node as [s cs]. unfold collectPluckFromRootItem. simpl in *.
        now rewrite Iu, Hid.
    + exists (mkResult (Some u) None), w1, w2. split; [exact E|]. split; [exact E2|].
      intros d s' Hd Hs'. destruct node as [s cs]. simpl in *.
      destruct Hd as [<-|Hd].
      * rewrite Hid, <- Iu. apply (Gone u s'); [now left | assumption].
      * apply (Gone d s'); [now right | assumption].
  - intros T. split; [exact (Root T)|]. split; [exact (Missing T)|].
    intros NA.
    destruct (mergeEventsWithParent params) as [[|]|] eqn:Mg.
    + destruct (Stream.parentId (item node)) as [p|] eqn:P.
      * destruct NA. split; congruence.
      * exists invalidOperation. split; [now apply Root | exact F].
    + destruct NA. split; congruence.
    + destruct (hasLinkedEvents (collectPluckFromRootItem node) w) eqn:L.
      * exists invalidParametersFormat. split; [now apply Missing | exact F].
      * destruct NA. split; congruence.
Qed.

Lemma delete_is_two_phase_witness :
  (exists updated w',
     streams_delete (someEnv "keep-nothing" false) someContext
       (mkParams "A/B" None) untrashedWorld
     = (Done (mkResult (Some updated) None), w') /\
     Stream.trashed updated = Some true /\
     events w' = events untrashedWorld) /\
  (exists w',
     streams_delete (someEnv "keep-nothing" false) someContext
       (mkParams "work" (Some false)) workWorld
     = (Done (mkResult None (Some "work")), w') /\
     collectFromForest (streams w') = []) /\
  streams_delete (someEnv "keep-nothing" false) someContext
    (mkParams "work" None) workWorld
  = (Failed invalidParametersFormat, workWorld).
Proof.
  split; [|split].
  - destruct (delete_is_two_phase (someEnv "keep-nothing" false) someContext
                (mkParams "A/B" None) untrashedWorld
                (Node (aStream "A/B" (Some "A") None) [])) as [soft _].
    + intros c; destruct c; exact I || reflexivity.
    + reflexivity.
    + reflexivity.
    + destruct (soft eq_refl) as [updated [w' [E [T [_ [_ [Ev _]]]]]]].
      exists updated, w'. auto.
  - destruct (delete_is_two_phase (someEnv "keep-nothing" false) someContext
                (mkParams "work" (Some false)) workWorld
                (Node (aStream "work" None (Some true))
                      [Node (aStream "work/sub" (Some "work") None) []])) as [_ [hard _]].
    + intros c; destruct c; exact I || reflexivity.
    + reflexivity.
    + reflexivity.
    + destruct hard as [w' [E [_ D]]].
      * discriminate.
      * split; discriminate.
      * exists w'. split; [exact E | exact D].
  - destruct (delete_is_two_phase (someEnv "keep-nothing" false) someContext
                (mkParams "work" None) workWorld
                (Node (aStream "work" None (Some true))
                      [Node (aStream "work/sub" (Some "work") None) []]))
      as [_ [_ [_ refused]]].
    + intros c; destruct c; exact I || reflexivity.
    + reflexivity.
    + reflexivity.
    + destruct refused as [_ [missing _]]; [discriminate|].
      apply missing; reflexivity.
Defined.

(** C8. History rows are never touched by the membership updates: a
    record with [headId] set stays in its place, unchanged, through
    [addParentStreamIdIfNeeded] and [removeStreamdIds] (and the whole merge
    path, which only adds the log copies after it), through
    [removeStreamdIdsFromAllEvents], and through any bulk update whose
    query carries [headId: {$exists: false}]; the final [deleteEvents]
    leaves it in the collection too. *)
Theorem history_rows_are_not_updated env ids parent w n h :
  nth_error (events w) n = Some h ->
  Event.headId h <> None ->
  nth_error (events (snd (addParentStreamIdIfNeeded env ids parent w))) n = Some h /\
  nth_error (events (snd (removeStreamdIds env ids w))) n = Some h /\
  nth_error (events (snd (removeStreamdIdsFromAllEvents env ids w))) n = Some h /\
  (forall params has,
     mergeEventsWithParent params = Some true ->
     nth_error (events (snd (handleLinkedEvents env params ids (Some parent) has w))) n
     = Some h) /\
  (forall c q u,
     In (HeadId_exists false) q ->
     nth_error (events (snd (updateMany env c q u w))) n = Some h) /\
  In h (events (snd (deleteEvents env ids w))).
Proof.
  intros Hn Hh. repeat split.
  - now apply addParent_keeps_history.
  - now apply removeStreamdIds_keeps_history.
  - now apply removeFromAll_keeps_history.
  - intros params has Mg. now apply mergePath_keeps_history.
  - intros c q u Hq. now apply updateMany_keeps_history.
  - apply deleteEvents_keeps_history; [assumption|]. eapply nth_error_In; eauto.
Qed.

Lemma history_rows_are_not_updated_witness :
  nth_error (events (snd (removeStreamdIds (someEnv "keep-nothing" false) ["A/B"] linkedWorld))) 1
  = Some h1.
Proof.
  destruct (history_rows_are_not_updated (someEnv "keep-nothing" false) ["A/B"] "A"
              linkedWorld 1 h1) as [_ [H _]].
  - reflexivity.
  - discriminate.
  - exact H.
Defined.

(** C7. keep-authors retention ([mergeEventsWithParent = false]): for
    every live event with a membership in the closure set, fully or
    partially linked, each of its history rows survives the hard deletion
    in minimized form, keeping its identity, [modified] and [modifiedBy],
    and every row left with that [headId] has no [streamIds], no
    [attachments] and no [content]. *)
Theorem keep_authors_minimizes_history env context params w node b e h :
  reliable env ->
  deletionMode (auditSettings env) = "keep-authors" ->
  mergeEventsWithParent params = Some false ->
  findById (streams w) (id params) = Some node ->
  canDeleteStream context (Stream.id (item node)) = true ->
  Stream.trashed (item node) = Some b ->
  In e (events w) ->
  isLive e = true ->
  references (collectPluckFromRootItem node) e ->
  In h (events w) ->
  Event.headId h = Some (Event.id e) ->
  In (minimized h) (events (snd (streams_delete env context params w))) /\
  (Event.id (minimized h) = Event.id h /\
   Event.headId (minimized h) = Event.headId h /\
   Event.modified (minimized h) = Event.modified h /\
   Event.modifiedBy (minimized h) = Event.modifiedBy h) /\
  (forall r, In r (events (snd (streams_delete env context params w))) ->
             Event.headId r = Some (Event.id e) ->
             Event.streamIds r = None /\ Event.attachments r = None /\
             Event.content r = None).
Proof.
  intros R Mode Mg F C T He _ Href Hh Hhead.
  rewrite (hard_delete_detaches env context params w node b e R F C T Mg He Href).
  rewrite (mode_keep_authors env Mode).
  set (ids := collectPluckFromRootItem node) in *.
  set (found := filter (matches [StreamIds_in ids]) (events w)).
  assert (Hfound : In e found) by now apply references_found.
  assert (Hist : forall z, Event.headId z = Some (Event.id e) ->
                           strip ids (minimizedIfAny found z) = minimized z).
  { intros z Hz. unfold minimizedIfAny. rewrite (found_history found e z Hfound Hz).
    apply strip_history. rewrite minimized_headId, Hz. discriminate. }
  split; [|split].
  - apply filter_In. split.
    + rewrite <- (Hist h Hhead). now apply in_map, in_map.
    + apply negb_true_iff. apply history_not_matched; [simpl; auto|].
      rewrite minimized_headId, Hhead. discriminate.
  - repeat split.
  - intros r Hr Hrh. apply filter_In in Hr. destruct Hr as [Hr _].
    apply in_map_iff in Hr. destruct Hr as [y [Ey Hy]].
    apply in_map_iff in Hy. destruct Hy as [z [Ez Hz]]. subst y r.
    unfold strip in Hrh. rewrite updated_headId, minimizedIfAny_headId in Hrh.
    rewrite (Hist z Hrh). repeat split.
Qed.

Lemma keep_authors_minimizes_history_witness :
  In (minimized h1)
     (events (snd (streams_delete (someEnv "keep-authors" false) someContext
                     (mkParams "A/B" (Some false)) linkedWorld))).
Proof.
  apply (keep_authors_minimizes_history (someEnv "keep-authors" false) someContext
           (mkParams "A/B" (Some false)) linkedWorld abNode true e1 h1);
    try reflexivity.
  - intros c; destruct c; exact I || reflexivity.
  - simpl. auto.
  - exists ["A/B"; "X"], "A/B". simpl. auto.
  - simpl. auto.
Defined.

(** C6, as worded, fails: under keep-nothing the history row "h1" of the
    linked event "e1", which is also in "X", is still there after the hard
    deletion of "A/B". *)
Lemma keep_nothing_keeps_history_of_attached_event :
  ~ dropsHistoryOfEveryLinkedEvent ["A/B"] (events linkedWorld)
      (events (snd (streams_delete (someEnv "keep-nothing" false) someContext
                      (mkParams "A/B" (Some false)) linkedWorld))).
Proof.
  intros H. apply (H e1 h1).
  - simpl. auto.
  - reflexivity.
  - exists ["A/B"; "X"], "A/B". simpl. auto.
  - simpl. auto.
  - reflexivity.
  - vm_compute. auto.
Qed.

(** C6, amended.  keep-nothing retention ([mergeEventsWithParent =
    false]), for a live event [e] with a membership in the closure set:
    when [e] is not still attached elsewhere (a single streamId, or all of
    them inside the closure set) no row with [e] as head is left, neither
    minimized nor otherwise, and [e] itself is gone, stripped or not; the
    history rows of an event that is still attached elsewhere are left as
    they were; and every live event left names no stream of the closure
    set, has streamIds left, and is the stripped form of a live event. *)
Theorem keep_nothing_drops_history_of_deleted_events env context params w node b e :
  reliable env ->
  deletionMode (auditSettings env) = "keep-nothing" ->
  mergeEventsWithParent params = Some false ->
  findById (streams w) (id params) = Some node ->
  canDeleteStream context (Stream.id (item node)) = true ->
  Stream.trashed (item node) = Some b ->
  In e (events w) ->
  isLive e = true ->
  references (collectPluckFromRootItem node) e ->
  (stillAttached (Event.streamIds e) (collectPluckFromRootItem node) = false ->
   (forall r, In r (events (snd (streams_delete env context params w))) ->
              Event.headId r <> Some (Event.id e)) /\
   ~ In e (events (snd (streams_delete env context params w))) /\
   ~ In (strip (collectPluckFromRootItem node) e)
        (events (snd (streams_delete env context params w)))) /\
  (forall h,
     In h (events w) -> Event.headId h = Some (Event.id e) ->
     (forall x, In x (events w) -> references (collectPluckFromRootItem node) x ->
                Event.id x = Event.id e ->
                stillAttached (Event.streamIds x) (collectPluckFromRootItem node) = true) ->
     In h (events (snd (streams_delete env context params w)))) /\
  (forall r, In r (events (snd (streams_delete env context params w))) ->
             isLive r = true ->
             matches [StreamIds_in (collectPluckFromRootItem node)] r = false /\
             Event.streamIds r <> Some [] /\
             exists x, In x (events w) /\ isLive x = true /\
                       r = strip (collectPluckFromRootItem node) x).
Proof.
  intros R Mode Mg F C T He L Href.
  rewrite (hard_delete_detaches env context params w node b e R F C T Mg He Href).
  rewrite (mode_keep_nothing env Mode).
  set (ids := collectPluckFromRootItem node) in *.
  set (found := filter (matches [StreamIds_in ids]) (events w)).
  assert (Hfound : In e found) by now apply references_found.
  assert (Live : forall r,
            In r (filter (fun e0 => negb (matches [HeadId_exists false; StreamIds_is []] e0))
                    (map (strip ids)
                       (filter (fun e0 => negb (historyDropped found ids e0)) (events w)))) ->
            isLive r = true ->
            matches [StreamIds_in ids] r = false /\ Event.streamIds r <> Some [] /\
            exists x, In x (events w) /\ isLive x = true /\ r = strip ids x).
  { intros r Hr Lr. destruct (survivor_of_strip _ _ _ Hr Lr) as [U [N [x [Hx [Lx Ex]]]]].
    repeat split; try assumption. exists x. apply filter_In in Hx. tauto. }
  split; [|split].
  - intros A. split; [|split].
    + intros r Hr Hrh. apply filter_In in Hr. destruct Hr as [Hr _].
      apply in_map_iff in Hr. destruct Hr as [z [Ez Hz]]. subst r.
      unfold strip in Hrh. rewrite updated_headId in Hrh.
      apply filter_In in Hz. destruct Hz as [_ Hz].
      rewrite (historyDropped_by found ids e z Hfound A Hrh) in Hz. discriminate.
    + intros Hin. destruct (Live e Hin L) as [U _].
      apply references_matches in Href. congruence.
    + intros Hin. destruct (not_attached_inside ids e Href A) as [sids [E P]].
      assert (Ls : isLive (strip ids e) = true) by now rewrite strip_isLive.
      destruct (Live _ Hin Ls) as [_ [N _]].
      apply N. eapply strip_inside; eauto.
  - intros h Hh Hhead A. apply filter_In. split.
    + rewrite <- (strip_history ids h) by (rewrite Hhead; discriminate).
      apply in_map. apply filter_In. split; [assumption|]. apply negb_true_iff.
      apply (historyDropped_not found ids h (Event.id e) Hhead).
      intros x Hx Ex. apply filter_In in Hx. destruct Hx as [Hx Mx].
      apply A; [assumption | now apply references_matches | assumption].
    + apply negb_true_iff. apply history_not_matched; [simpl; auto|].
      rewrite Hhead. discriminate.
  - exact Live.
Qed.

(** The scenario of the specification: "e3" is in "A/B" only; after the
    keep-nothing deletion of "A/B" neither a row with "e3" as head nor
    "e3" itself is left. *)
Lemma keep_nothing_drops_history_of_deleted_events_witness :
  (forall r, In r (events (snd (streams_delete (someEnv "keep-nothing" false) someContext
                                  (mkParams "A/B" (Some false)) linkedWorld))) ->
             Event.headId r <> Some "e3") /\
  ~ In e3 (events (snd (streams_delete (someEnv "keep-nothing" false) someContext
                          (mkParams "A/B" (Some false)) linkedWorld))).
Proof.
  destruct (keep_nothing_drops_history_of_deleted_events
              (someEnv "keep-nothing" false) someContext
              (mkParams "A/B" (Some false)) linkedWorld abNode true e3) as [gone _];
    try reflexivity.
  - intros c; destruct c; exact I || reflexivity.
  - simpl. auto.
  - exists ["A/B"], "A/B". simpl. auto.
  - destruct (gone eq_refl) as [rows [itself _]]. split; assumption.
Defined.

(** C1 on the code: under keep-everything the hard deletion of "A/B"
    with [mergeEventsWithParent = false] deletes "e1" and "e4", which are
    in "X" as well, along with "e2" and "e3"; only the history rows are
    left, and the file of "e1" is still stored. *)
Theorem keep_everything_deletes_events_with_outside_membership :
  events (snd (streams_delete (someEnv "keep-everything" false) someContext
                 (mkParams "A/B" (Some false)) linkedWorld))
  = [h1; h3] /\
  eventFiles (snd (streams_delete (someEnv "keep-everything" false) someContext
                     (mkParams "A/B" (Some false)) linkedWorld))
  = [("e1", ["f"])] /\
  Event.streamIds e1 = Some ["A/B"; "X"] /\
  fst (streams_delete (someEnv "keep-everything" false) someContext
         (mkParams "A/B" (Some false)) linkedWorld)
  = Done (mkResult None (Some "A/B")).
Proof.
  split; [|repeat split].
  destruct (keep_everything_deletes_linked (someEnv "keep-everything" false) someContext
              (mkParams "A/B" (Some false)) linkedWorld abNode true e1) as [E _].
  - intros c; destruct c; exact I || reflexivity.
  - reflexivity.
  - reflexivity.
  - reflexivity.
  - reflexivity.
  - reflexivity.
  - simpl. auto.
  - reflexivity.
  - exists ["A/B"; "X"], "A/B". simpl. auto.
  - rewrite E. reflexivity.
Qed.

(** C2, as worded, fails: "e4" is in "X" and "A/B"; after the merge of
    "A/B" into "A" its streamIds are ["X"; "A"]: the parent took the place
    of "A/B" rather than the first place. *)
Lemma merge_does_not_put_parent_first :
  ~ addsParentFirst ["A/B"] "A" (events linkedWorld)
      (events (snd (streams_delete (someEnv "keep-nothing" false) someContext
                      (mkParams "A/B" (Some true)) linkedWorld))).
Proof.
  intros H. destruct (H e4 ["X"; "A/B"]) as [e' [Hin [Hid Hs]]];
    try reflexivity.
  - simpl. tauto.
  - vm_compute in Hin.
    repeat (destruct Hin as [<-|Hin]; [discriminate|]). exact Hin.
Qed.

(** C2, amended.  Merge ([mergeEventsWithParent = true]) of a stream with
    a parent: every live event stays in its place in the collection, and
    its streamIds become [mergedStreamIds]: if the event references the
    closure set and does not name the parent, the parent id is written over
    the first closure-set member of its streamIds (not inserted in front);
    then every closure-set id is pulled from the streamIds; an event that
    does not reference the closure set is left as it was.  No closure-set
    id is left in the result.  With tree "A" -> "A/B", streamIds ["A/B"]
    become ["A"]. *)
Theorem merge_writes_parent_over_first_closure_member
  env context params w node b parent n e sids :
  reliable env ->
  mergeEventsWithParent params = Some true ->
  findById (streams w) (id params) = Some node ->
  canDeleteStream context (Stream.id (item node)) = true ->
  Stream.trashed (item node) = Some b ->
  Stream.parentId (item node) = Some parent ->
  nth_error (events w) n = Some e ->
  isLive e = true ->
  Event.streamIds e = Some sids ->
  nth_error (events (snd (streams_delete env context params w))) n
  = Some (Event.with_streamIds
            (Some (mergedStreamIds (collectPluckFromRootItem node) parent sids)) e) /\
  (existsb (includes (collectPluckFromRootItem node)) sids = true ->
   includes sids parent = false ->
   mergedStreamIds (collectPluckFromRootItem node) parent sids
   = pull (collectPluckFromRootItem node)
       (setFirstIn (collectPluckFromRootItem node) parent sids)) /\
  (existsb (includes (collectPluckFromRootItem node)) sids = true ->
   includes sids parent = true ->
   mergedStreamIds (collectPluckFromRootItem node) parent sids
   = pull (collectPluckFromRootItem node) sids) /\
  (existsb (includes (collectPluckFromRootItem node)) sids = false ->
   mergedStreamIds (collectPluckFromRootItem node) parent sids = sids) /\
  existsb (includes (collectPluckFromRootItem node))
    (mergedStreamIds (collectPluckFromRootItem node) parent sids) = false /\
  mergedStreamIds ["A/B"] "A" ["A/B"] = ["A"].
Proof.
  intros R Mg F C T P Hn L S.
  rewrite (hard_delete_merge_events env context params w node b parent R F C T Mg P).
  set (ids := collectPluckFromRootItem node).
  split; [|split; [|split; [|split; [|split]]]].
  - destruct (hasLinkedEvents ids w) eqn:Has.
    + apply nth_error_app_left. rewrite nth_error_map, Hn. simpl.
      f_equal. now apply mergedEvent_live.
    + rewrite Hn. f_equal.
      pose proof (hasLinkedEvents_false ids w e Has (nth_error_In _ _ Hn)) as U.
      unfold matches in U. simpl in U. rewrite S, andb_true_r in U.
      unfold mergedStreamIds. rewrite U. symmetry. now apply with_streamIds_same.
  - intros E Pn. unfold mergedStreamIds. now rewrite E, Pn.
  - intros E Pn. unfold mergedStreamIds. now rewrite E, Pn.
  - intros E. unfold mergedStreamIds. now rewrite E.
  - unfold mergedStreamIds.
    destruct (existsb (includes ids) sids) eqn:E; [apply pull_no_member | exact E].
  - reflexivity.
Qed.

(** The scenario of the specification: "e2", with streamIds ["A/B"], ends
    with streamIds ["A"]. *)
Lemma merge_writes_parent_over_first_closure_member_witness :
  nth_error (events (snd (streams_delete (someEnv "keep-nothing" false) someContext
                            (mkParams "A/B" (Some true)) linkedWorld))) 2
  = Some (anEvent "e2" ["A"] None None).
Proof.
  destruct (merge_writes_parent_over_first_closure_member
              (someEnv "keep-nothing" false) someContext
              (mkParams "A/B" (Some true)) linkedWorld abNode true "A" 2 e2 ["A/B"])
    as [H _].
  - intros c; destruct c; exact I || reflexivity.
  - reflexivity.
  - reflexivity.
  - reflexivity.
  - reflexivity.
  - reflexivity.
  - reflexivity.
  - reflexivity.
  - reflexivity.
  - exact H.
Defined.

(** C9 on the code: under keep-everything, the storage answering every
    call, the hard deletion of "A/B" with [mergeEventsWithParent = false]
    reports the deletion and deletes the live event "e1", which carries an
    attachment: no document with its id is left.  The removal of its files
    is never invoked: the attachments step had passed it over as still
    attached to "X", so its file is still stored and nothing is logged,
    while the file of "e3", deleted with it, is gone. *)
Theorem keep_everything_leaves_attachments_of_deleted_event :
  fst (streams_delete (someEnv "keep-everything" false) someContext
         (mkParams "A/B" (Some false)) linkedWorld)
  = Done (mkResult None (Some "A/B")) /\
  In e1 (events linkedWorld) /\ isLive e1 = true /\ Event.attachments e1 = Some ["f"] /\
  stillAttached (Event.streamIds e1) (collectPluckFromRootItem abNode) = true /\
  (forall x,
     In x (events (snd (streams_delete (someEnv "keep-everything" false) someContext
                          (mkParams "A/B" (Some false)) linkedWorld))) ->
     Event.id x <> Event.id e1) /\
  eventFiles (snd (streams_delete (someEnv "keep-everything" false) someContext
                     (mkParams "A/B" (Some false)) linkedWorld))
  = [("e1", ["f"])] /\
  logged (snd (streams_delete (someEnv "keep-everything" false) someContext
                 (mkParams "A/B" (Some false)) linkedWorld))
  = [] /\
  ~ reaped (someEnv "keep-everything" false) e1
      (snd (streams_delete (someEnv "keep-everything" false) someContext
              (mkParams "A/B" (Some false)) linkedWorld)).
Proof.
  assert (Ev : events (snd (streams_delete (someEnv "keep-everything" false) someContext
                              (mkParams "A/B" (Some false)) linkedWorld)) = [h1; h3])
    by (vm_compute; reflexivity).
  assert (Fi : eventFiles (snd (streams_delete (someEnv "keep-everything" false) someContext
                                  (mkParams "A/B" (Some false)) linkedWorld))
               = [("e1", ["f"])])
    by (vm_compute; reflexivity).
  split; [vm_compute; reflexivity|].
  split; [simpl; auto|].
  split; [reflexivity|]. split; [reflexivity|]. split; [reflexivity|].
  split; [|split; [exact Fi | split; [vm_compute; reflexivity|]]].
  - rewrite Ev. intros x [<-|[<-|[]]]; discriminate.
  - intros H.
    assert (H' : forall kv : string * list string,
                   In kv [("e1", ["f"])] -> fst kv <> "e1")
      by (rewrite <- Fi; exact H).
    apply (H' ("e1", ["f"])); [simpl; auto | reflexivity].
Qed.

(** * Further properties of the deletion *)

(** ** Errors *)

Lemma failsOnlyWith_ret {A} P (a : A) : failsOnlyWith P (ret a).
Proof. intros w e. discriminate. Qed.

Lemma failsOnlyWith_gets {A} P (f : World -> A) : failsOnlyWith P (gets f).
Proof. intros w e. discriminate. Qed.

Lemma failsOnlyWith_modify P f : failsOnlyWith P (modify f).
Proof. intros w e. discriminate. Qed.

Lemma failsOnlyWith_storageCall (P : ApiError -> Prop) env c :
  P unexpectedError -> failsOnlyWith P (storageCall env c).
Proof.
  intros H w e. unfold storageCall. destruct (storageFails env c); simpl; [|discriminate].
  intros E. inversion E. now subst.
Qed.

Lemma failsOnlyWith_bind {A B} P (m : M A) (k : A -> M B) :
  failsOnlyWith P m -> (forall a, failsOnlyWith P (k a)) -> failsOnlyWith P (bind m k).
Proof.
  intros Fm Fk w e. unfold bind. specialize (Fm w).
  destruct (m w) as [[a|e'] w']; simpl in *.
  - apply Fk.
  - intros E. inversion E; subst. now apply Fm.
Qed.

Lemma failsOnlyWith_forEachRecord {A} P (rs : list A) (h : A -> M unit) :
  (forall r, failsOnlyWith P (h r)) -> failsOnlyWith P (forEachRecord rs h).
Proof.
  intros F. induction rs as [|r rest IH]; intros w e; simpl; [discriminate|].
  specialize (F r w). destruct (h r w) as [[a|e'] w']; simpl in *.
  - apply IH.
  - intros E. inversion E; subst. now apply F.
Qed.

Ltac failure_solver :=
  repeat first
    [ progress intros
    | match goal with
      | |- failsOnlyWith _ (storageCall _ _) => apply failsOnlyWith_storageCall; reflexivity
      | |- failsOnlyWith _ (bind _ _) => apply failsOnlyWith_bind
      | |- failsOnlyWith _ (forEachRecord _ _) => apply failsOnlyWith_forEachRecord
      | |- failsOnlyWith _ (ret _) => apply failsOnlyWith_ret
      | |- failsOnlyWith _ (gets _) => apply failsOnlyWith_gets
      | |- failsOnlyWith _ (modify _) => apply failsOnlyWith_modify
      | |- failsOnlyWith _ (match ?x with _ => _ end) => destruct x
      end ].

Lemma handleLinkedEvents_fails_unexpected env params ids parent has :
  failsOnlyWith (eq unexpectedError) (handleLinkedEvents env params ids parent has).
Proof.
  unfold handleLinkedEvents, generateLogIfNecessary, addParentStreamIdIfNeeded,
    removeStreamdIds, handleHistory, deleteEventsWithAttachments,
    removeStreamdIdsFromAllEvents, deleteEvents, find, updateMany, insertOne,
    removeMany, delete, minimizeEventsHistory, removeAllForEvent, emit.
  failure_solver.
Qed.

Lemma deleteStreams_fails_unexpected env params result ids :
  failsOnlyWith (eq unexpectedError) (deleteStreams env params result ids).
Proof. unfold deleteStreams, emit. failure_solver. Qed.

Lemma flagAsTrashed_fails_untouched env context params result w e :
  fst (flagAsTrashed env context params result w) = Failed e ->
  e = unexpectedError /\ snd (flagAsTrashed env context params result w) = w.
Proof.
  unfold flagAsTrashed, bind, storageCall.
  destruct (storageFails env flagAsTrashed_updateOne); simpl.
  - intros E. inversion E. auto.
  - destruct (updateOneStream _ _ _) as [[s' f']|]; simpl; discriminate.
Qed.

(** The probe for linked events never writes. *)
Lemma check_untouched env params ids parent w :
  snd (checkIfRootStreamAndLinkedEventsExist env params ids parent w) = w.
Proof.
  assert (K : keeps (fun w0 => w0)
                (checkIfRootStreamAndLinkedEventsExist env params ids parent)).
  { unfold checkIfRootStreamAndLinkedEventsExist, find. cbv zeta. step_solver. }
  apply K.
Qed.

Ltac one_of := solve [repeat first [reflexivity | left; reflexivity | right]].

Lemma delete_errors env context params w e w' :
  streams_delete env context params w = (Failed e, w') ->
  (e = unknownResource (id params) \/ e = forbidden \/ e = invalidOperation \/
   e = invalidParametersFormat \/ e = unexpectedError) /\
  (isValidationError e = true -> w' = w).
Proof.
  unfold streams_delete, verifyStreamExistenceAndPermissions.
  unfold bind at 1 2. unfold gets.
  destruct (findById (streams w) (id params)) as [node|] eqn:F; simpl.
  2:{ intros E. inversion E. split; [one_of | reflexivity]. }
  destruct (canDeleteStream context (Stream.id (item node))); simpl.
  2:{ intros E. inversion E. split; [one_of | reflexivity]. }
  unfold deleteStream. destruct (Stream.trashed (item node)).
  2:{ intros E.
      destruct (flagAsTrashed_fails_untouched env context params emptyResult w e) as [-> U].
      - now rewrite E.
      - split; [one_of | discriminate]. }
  unfold deleteWithData, retrieveStreamIdsToDelete. unfold bind at 1 2 3.
  unfold storageCall. destruct (storageFails env retrieveStreamIdsToDelete_find); simpl.
  { intros E. inversion E. split; [one_of | discriminate]. }
  unfold gets. rewrite F. simpl. unfold bind at 1.
  pose proof (check_untouched env params (collectPluckFromRootItem node)
                (Stream.parentId (item node)) w) as U.
  destruct (checkIfRootStreamAndLinkedEventsExist env params
              (collectPluckFromRootItem node) (Stream.parentId (item node)) w)
    as [[has|e'] w0] eqn:Ck; simpl in U; subst w0.
  - intros E.
    assert (e = unexpectedError).
    { symmetry.
      apply (failsOnlyWith_bind (eq unexpectedError)
               (handleLinkedEvents env params (collectPluckFromRootItem node)
                  (Stream.parentId (item node)) has)
               (fun _ => deleteStreams env params emptyResult
                           (collectPluckFromRootItem node))
               (handleLinkedEvents_fails_unexpected _ _ _ _ _)
               (fun _ => deleteStreams_fails_unexpected _ _ _ _) w e).
      now rewrite E. }
    subst e. split; [one_of | discriminate].
  - intros E. inversion E; subst e' w'. split; [|reflexivity].
    revert Ck. unfold checkIfRootStreamAndLinkedEventsExist, find, bind, storageCall, gets.
    destruct (mergeEventsWithParent params) as [[|]|];
      destruct (Stream.parentId (item node));
      destruct (storageFails env checkLinkedEvents_find); simpl;
      try (intros Q; inversion Q; one_of).
    all: destruct (negb _); intros Q; inversion Q; one_of.
Qed.

(** X1. The errors of [streams.delete]: it ends with one of
    [unknownResource] (for the id asked), [forbidden], [invalidOperation],
    [invalidParametersFormat] or [unexpectedError], never with a read on a
    missing stream; and whenever it ends with one of the first four,
    streams, events, files, log and notifications are exactly as before. *)
Theorem delete_validation_errors_change_nothing env context params w e :
  fst (streams_delete env context params w) = Failed e ->
  (e = unknownResource (id params) \/ e = forbidden \/ e = invalidOperation \/
   e = invalidParametersFormat \/ e = unexpectedError) /\
  (isValidationError e = true -> snd (streams_delete env context params w) = w).
Proof.
  destruct (streams_delete env context params w) as [o w'] eqn:R. simpl.
  intros ->. now apply (delete_errors env context params w e w').
Qed.

Lemma delete_validation_errors_change_nothing_witness :
  snd (streams_delete (someEnv "keep-nothing" false) someContext
         (mkParams "nowhere" (Some false)) linkedWorld) = linkedWorld.
Proof.
  apply (delete_validation_errors_change_nothing (someEnv "keep-nothing" false) someContext
           (mkParams "nowhere" (Some false)) linkedWorld (unknownResource "nowhere"));
    reflexivity.
Defined.

(** ** Steps that do not depend on a storage call *)

Lemma same_bind {A B} (m1 m2 : M A) (k1 k2 : A -> M B) :
  same m1 m2 -> (forall a, same (k1 a) (k2 a)) -> same (bind m1 k1) (bind m2 k2).
Proof.
  intros Sm Sk w. unfold bind. rewrite Sm. destruct (m2 w) as [[a|e] w']; [apply Sk | reflexivity].
Qed.

Lemma same_refl {A} (m : M A) : same m m.
Proof. now intros w. Qed.

Lemma same_forEachRecord {A} (rs : list A) (h1 h2 : A -> M unit) :
  (forall r, same (h1 r) (h2 r)) -> same (forEachRecord rs h1) (forEachRecord rs h2).
Proof.
  intros S. induction rs as [|r rest IH]; intros w; simpl; [reflexivity|].
  rewrite S. destruct (h2 r w) as [[a|e] w']; now rewrite IH.
Qed.

Lemma same_storageCall env1 env2 c :
  storageFails env1 c = storageFails env2 c -> same (storageCall env1 c) (storageCall env2 c).
Proof. intros E w. unfold storageCall. now rewrite E. Qed.

Lemma same_insertOne env1 env2 c doc1 doc2 :
  storageFails env1 c = storageFails env2 c ->
  (forall stored, doc1 stored = doc2 stored) ->
  same (insertOne env1 c doc1) (insertOne env2 c doc2).
Proof.
  intros E D. unfold insertOne. apply same_bind; [now apply same_storageCall|].
  intros _ w. unfold modify. now rewrite D.
Qed.

Lemma same_removeAllForEvent env1 env2 i :
  storageFails env1 (attachments_removeAllForEvent i)
  = storageFails env2 (attachments_removeAllForEvent i) ->
  same (removeAllForEvent env1 i) (removeAllForEvent env2 i).
Proof. intros E w. unfold removeAllForEvent. now rewrite E. Qed.

(** The handling of the linked events depends on the environment only
    through the audit settings, the keys of inserted copies and the answers
    of the storage calls it makes: not on the answer of the final
    pruning. *)
Lemma handleLinkedEvents_agree env1 env2 params ids parent has :
  agreeExcept (fun c => c = deleteStreams_delete) env1 env2 ->
  same (handleLinkedEvents env1 params ids parent has)
       (handleLinkedEvents env2 params ids parent has).
Proof.
  intros [A [N S]].
  assert (S' : forall c, c <> deleteStreams_delete ->
                         same (storageCall env1 c) (storageCall env2 c)).
  { intros c Hc. apply same_storageCall. now apply S. }
  unfold handleLinkedEvents, generateLogIfNecessary, addParentStreamIdIfNeeded,
    removeStreamdIds, handleHistory, deleteEventsWithAttachments,
    removeStreamdIdsFromAllEvents, deleteEvents, deleteEventsFilter, find, updateMany,
    removeMany, delete, minimizeEventsHistory.
  rewrite <- A.
  repeat first
    [ progress intros
    | apply same_refl
    | apply S'; discriminate
    | apply same_insertOne;
        [apply S; discriminate | intros stored; unfold eventToVersion; now rewrite N]
    | apply same_removeAllForEvent; apply S; discriminate
    | match goal with
      | |- same (bind _ _) (bind _ _) => apply same_bind
      | |- same (forEachRecord _ _) (forEachRecord _ _) => apply same_forEachRecord
      | |- same (match ?x with _ => _ end) (match ?x with _ => _ end) => destruct x
      end ].
Qed.

Lemma withPruningAnswering_agrees env :
  agreeExcept (fun c => c = deleteStreams_delete) env (withPruningAnswering env).
Proof.
  repeat split. intros c Hc. destruct c; try reflexivity. now destruct Hc.
Qed.

Lemma withPruningAnswering_reliable env :
  failsAtPruning env -> reliable (withPruningAnswering env).
Proof. intros [_ H] c. specialize (H c). destruct c; simpl; auto. Qed.

Lemma pruning_failure_run env context params w node b linked :
  failsAtPruning env ->
  mergeEventsWithParent params = Some false ->
  findById (streams w) (id params) = Some node ->
  canDeleteStream context (Stream.id (item node)) = true ->
  Stream.trashed (item node) = Some b ->
  In linked (events w) ->
  references (collectPluckFromRootItem node) linked ->
  streams_delete env context params w
  = (Failed unexpectedError,
     snd (handleLinkedEvents (withPruningAnswering env) params
            (collectPluckFromRootItem node) (Stream.parentId (item node)) true w)).
Proof.
  intros FP Mg F C T Hl Href.
  pose proof (withPruningAnswering_reliable env FP) as R'.
  destruct FP as [Fails Ok].
  rewrite (streams_delete_found env _ _ _ _ F C). unfold deleteStream. rewrite T.
  rewrite (deleteWithData_retrieved _ _ _ _ _ (Ok retrieveStreamIdsToDelete_find) F).
  unfold bind at 1.
  rewrite (check_accepted _ _ _ _ (Ok checkLinkedEvents_find))
    by (apply (accepted_when_decided _ _ _ false); [assumption | discriminate]).
  rewrite (hasLinkedEvents_true _ _ _ Hl Href).
  unfold bind.
  rewrite (handleLinkedEvents_agree env (withPruningAnswering env) params _ _ true
             (withPruningAnswering_agrees env) w).
  pose proof (total_unit _ w
                (total_handleLinkedEvents _ R' params (collectPluckFromRootItem node)
                   (Stream.parentId (item node)) true)) as D.
  destruct (handleLinkedEvents (withPruningAnswering env) params
              (collectPluckFromRootItem node) (Stream.parentId (item node)) true w)
    as [[[]|e] w1]; simpl in *; [|discriminate].
  unfold deleteStreams, bind, storageCall. now rewrite Fails.
Qed.

Lemma detachPath_notifications env params ids parent w :
  reliable env ->
  mergeEventsWithParent params <> Some true ->
  notifications (snd (handleLinkedEvents env params ids parent true w))
  = notifications w ++ [USERNAME_BASED_EVENTS_CHANGED].
Proof.
  intros R Mg. unfold handleLinkedEvents. simpl.
  assert (E : forall w0,
            notifications (snd ((handleHistory env ids ;;;
                                 deleteEventsWithAttachments env ids ;;;
                                 removeStreamdIdsFromAllEvents env ids ;;;
                                 deleteEvents env ids) w0))
            = notifications w0 ++ [USERNAME_BASED_EVENTS_CHANGED]).
  { intros w0.
    rewrite (bind_done _ _ _ tt) by (apply total_unit, total_handleHistory; assumption).
    rewrite (bind_done _ _ _ tt)
      by (apply total_unit, total_deleteEventsWithAttachments; assumption).
    rewrite (bind_done _ _ _ tt)
      by (apply total_unit, total_removeStreamdIdsFromAllEvents; assumption).
    unfold deleteEvents, delete, bind.
    rewrite (storageCall_ok _ _ _ (R deleteEvents_delete)). simpl.
    assert (K1 : keeps notifications (removeStreamdIdsFromAllEvents env ids))
      by (unfold removeStreamdIdsFromAllEvents, updateMany; step_solver).
    assert (K2 : keeps notifications (deleteEventsWithAttachments env ids))
      by (unfold deleteEventsWithAttachments, find, removeAllForEvent; step_solver).
    assert (K3 : keeps notifications (handleHistory env ids))
      by (unfold handleHistory, find, minimizeEventsHistory, removeMany; step_solver).
    now rewrite K1, K2, K3. }
  destruct (mergeEventsWithParent params) as [[|]|]; [congruence | apply E | apply E].
Qed.

(** X2. No rollback.  When the events phase of a hard deletion with
    [mergeEventsWithParent = false] has run and the final pruning of the
    streams fails, the delete ends with [unexpectedError]; the events stay
    as the detach path left them, no stream is removed, and the only
    notification is the events-changed one. *)
Theorem pruning_failure_keeps_event_changes env context params w node b linked :
  failsAtPruning env ->
  mergeEventsWithParent params = Some false ->
  findById (streams w) (id params) = Some node ->
  canDeleteStream context (Stream.id (item node)) = true ->
  Stream.trashed (item node) = Some b ->
  In linked (events w) ->
  references (collectPluckFromRootItem node) linked ->
  fst (streams_delete env context params w) = Failed unexpectedError /\
  events (snd (streams_delete env context params w))
  = detached env (collectPluckFromRootItem node) (events w) /\
  streams (snd (streams_delete env context params w)) = streams w /\
  notifications (snd (streams_delete env context params w))
  = notifications w ++ [USERNAME_BASED_EVENTS_CHANGED].
Proof.
  intros FP Mg F C T Hl Href.
  rewrite (pruning_failure_run env context params w node b linked FP Mg F C T Hl Href).
  pose proof (withPruningAnswering_reliable env FP) as R'.
  simpl. split; [reflexivity|]. split; [|split].
  - rewrite detachPath_events; [reflexivity | assumption | congruence].
  - apply keeps_streams_handleLinkedEvents.
  - apply detachPath_notifications; [assumption | congruence].
Qed.

Lemma pruning_failure_keeps_event_changes_witness :
  fst (streams_delete (pruningFailsEnv "keep-nothing") someContext
         (mkParams "A/B" (Some false)) linkedWorld) = Failed unexpectedError /\
  streams (snd (streams_delete (pruningFailsEnv "keep-nothing") someContext
                  (mkParams "A/B" (Some false)) linkedWorld)) = abTree.
Proof.
  destruct (pruning_failure_keeps_event_changes (pruningFailsEnv "keep-nothing") someContext
              (mkParams "A/B" (Some false)) linkedWorld abNode true e2)
    as [D [_ [S _]]].
  - split; [reflexivity|]. intros c; destruct c; exact I || reflexivity.
  - reflexivity.
  - reflexivity.
  - reflexivity.
  - reflexivity.
  - simpl. auto.
  - exists ["A/B"], "A/B". simpl. auto.
  - split; [exact D | exact S].
Defined.

(** ** Notifications and the deletion without linked events *)

Lemma mergePath_notifications env params ids parent w :
  reliable env ->
  mergeEventsWithParent params = Some true ->
  notifications (snd (handleLinkedEvents env params ids (Some parent) true w))
  = notifications w ++ [USERNAME_BASED_EVENTS_CHANGED].
Proof.
  intros R Mg. unfold handleLinkedEvents. rewrite Mg. simpl.
  rewrite (bind_done _ _ _ tt) by (apply total_unit, total_generateLogIfNecessary; assumption).
  rewrite (bind_done _ _ _ tt) by (apply total_unit, total_addParentStreamIdIfNeeded; assumption).
  assert (K1 : keeps notifications (removeStreamdIds env ids))
    by (unfold removeStreamdIds, updateMany; step_solver).
  assert (K2 : keeps notifications (generateLogIfNecessary env ids))
    by (unfold generateLogIfNecessary, find, insertOne; step_solver).
  rewrite K1. unfold addParentStreamIdIfNeeded, updateMany, bind.
  rewrite (storageCall_ok _ _ _ (R addParentStreamId_updateMany)). simpl.
  now rewrite K2.
Qed.

Lemma hasLinkedEvents_none ids w :
  (forall e, In e (events w) -> ~ references ids e) -> hasLinkedEvents ids w = false.
Proof.
  intros H. unfold hasLinkedEvents.
  destruct (filter (matches [StreamIds_in ids]) (events w)) as [|e l] eqn:E; [reflexivity|].
  assert (Hin : In e (filter (matches [StreamIds_in ids]) (events w)))
    by (rewrite E; now left).
  apply filter_In in Hin. destruct Hin as [Hin Hm].
  apply references_matches in Hm. now destruct (H e Hin).
Qed.

(** X3. Which notifications a delete emits.  A soft delete emits one
    streams-changed notification.  A hard deletion that runs to its end
    emits an events-changed notification first when, and only when, some
    event references the closure set, and then one streams-changed
    notification; it emits nothing else. *)
Theorem delete_notifications env context params w node :
  reliable env ->
  findById (streams w) (id params) = Some node ->
  canDeleteStream context (Stream.id (item node)) = true ->
  (Stream.trashed (item node) = None ->
   notifications (snd (streams_delete env context params w))
   = notifications w ++ [USERNAME_BASED_STREAMS_CHANGED]) /\
  (Stream.trashed (item node) <> None ->
   dispositionAccepted params node w ->
   notifications (snd (streams_delete env context params w))
   = notifications w ++
     (if hasLinkedEvents (collectPluckFromRootItem node) w
      then [USERNAME_BASED_EVENTS_CHANGED; USERNAME_BASED_STREAMS_CHANGED]
      else [USERNAME_BASED_STREAMS_CHANGED])).
Proof.
  intros R F C. rewrite (streams_delete_found env _ _ _ _ F C). unfold deleteStream.
  split.
  - intros T. rewrite T. destruct node as [s cs].
    destruct (flagAsTrashed_found env context params emptyResult w s cs
                (R flagAsTrashed_updateOne) F) as [f' [E _]].
    rewrite E. reflexivity.
  - intros T A. destruct (Stream.trashed (item node)) as [b|]; [|congruence].
    rewrite (deleteWithData_accepted _ _ _ _ _ R F A). simpl.
    destruct (hasLinkedEvents (collectPluckFromRootItem node) w) eqn:Has.
    + destruct A as [Am An].
      destruct (mergeEventsWithParent params) as [[|]|] eqn:Mg.
      * destruct (Stream.parentId (item node)) as [parent|] eqn:P;
          [|now destruct (Am eq_refl)].
        rewrite (mergePath_notifications env params _ parent w R Mg).
        now rewrite <- app_assoc.
      * rewrite detachPath_notifications by (assumption || congruence).
        now rewrite <- app_assoc.
      * specialize (An eq_refl). congruence.
    + reflexivity.
Qed.

Lemma delete_notifications_witness :
  notifications (snd (streams_delete (someEnv "keep-nothing" false) someContext
                        (mkParams "A/B" (Some true)) linkedWorld))
  = [USERNAME_BASED_EVENTS_CHANGED; USERNAME_BASED_STREAMS_CHANGED].
Proof.
  destruct (delete_notifications (someEnv "keep-nothing" false) someContext
              (mkParams "A/B" (Some true)) linkedWorld abNode) as [_ H].
  - intros c; destruct c; exact I || reflexivity.
  - reflexivity.
  - reflexivity.
  - apply H; [discriminate|]. split; discriminate.
Defined.

(** X4. A hard deletion of a stream that no event references needs no
    disposition: with [mergeEventsWithParent] null or false (or true, the
    stream having a parent) it reports the deletion and leaves the events
    collection, the attachment files and the log exactly as they were. *)
Theorem delete_without_linked_events env context params w node :
  reliable env ->
  findById (streams w) (id params) = Some node ->
  canDeleteStream context (Stream.id (item node)) = true ->
  Stream.trashed (item node) <> None ->
  (forall e, In e (events w) -> ~ references (collectPluckFromRootItem node) e) ->
  (mergeEventsWithParent params = Some true -> Stream.parentId (item node) <> None) ->
  fst (streams_delete env context params w) = Done (mkResult None (Some (id params))) /\
  events (snd (streams_delete env context params w)) = events w /\
  eventFiles (snd (streams_delete env context params w)) = eventFiles w /\
  logged (snd (streams_delete env context params w)) = logged w.
Proof.
  intros R F C T None Hp.
  pose proof (hasLinkedEvents_none _ w None) as Has.
  assert (A : dispositionAccepted params node w) by (split; [assumption | now intros _]).
  rewrite (streams_delete_found env _ _ _ _ F C). unfold deleteStream.
  destruct (Stream.trashed (item node)) as [b|]; [|congruence].
  rewrite (deleteWithData_accepted _ _ _ _ _ R F A). rewrite Has. repeat split.
Qed.

Lemma delete_without_linked_events_witness :
  fst (streams_delete (someEnv "keep-nothing" false) someContext
         (mkParams "A/B" None) (set_events [anEvent "e9" ["X"] None None] linkedWorld))
  = Done (mkResult None (Some "A/B")).
Proof.
  apply (delete_without_linked_events (someEnv "keep-nothing" false) someContext
           (mkParams "A/B" None) (set_events [anEvent "e9" ["X"] None None] linkedWorld)
           abNode).
  - intros c; destruct c; exact I || reflexivity.
  - reflexivity.
  - reflexivity.
  - discriminate.
  - intros e [<-|[]] [sids [s [E [Hs Hi]]]]. inversion E; subst.
    destruct Hs as [<-|[]]. destruct Hi as [Hi|[]]. discriminate.
  - discriminate.
Defined.

(** ** The merge path *)

Lemma setFirstIn_includes ids parent sids :
  existsb (includes ids) sids = true -> includes (setFirstIn ids parent sids) parent = true.
Proof.
  induction sids as [|x r IH]; simpl; [discriminate|].
  destruct (includes ids x) eqn:E; simpl.
  - intros _. unfold includes. simpl. now rewrite String.eqb_refl.
  - intros H. unfold includes in *. simpl. rewrite (IH H). apply orb_true_r.
Qed.

Lemma parentAdded_twice ids parent e :
  parentAdded ids parent (parentAdded ids parent e) = parentAdded ids parent e.
Proof.
  destruct e as [i sids hd att c m mb].
  unfold parentAdded, updated, matches, applyUpdate. simpl.
  destruct sids as [sids|]; simpl.
  - destruct (negb (includes sids parent)) eqn:N; simpl.
    + destruct (existsb (includes ids) sids) eqn:L; simpl.
      * destruct hd; simpl; [now rewrite N, L|].
        now rewrite (setFirstIn_includes ids parent sids L).
      * now rewrite N, L.
    + now rewrite N.
  - destruct hd; reflexivity.
Qed.

Lemma strip_twice ids e : strip ids (strip ids e) = strip ids e.
Proof.
  destruct e as [i sids hd att c m mb].
  unfold strip, updated, matches, applyUpdate. simpl.
  destruct sids as [sids|]; simpl; [|reflexivity].
  destruct (existsb (includes ids) sids) eqn:L; simpl.
  - destruct hd; simpl; [now rewrite L|]. now rewrite pull_no_member.
  - now rewrite L.
Qed.

Lemma parentAdded_unlinked ids parent e :
  matches [StreamIds_in ids] e = false -> parentAdded ids parent e = e.
Proof.
  intros H. unfold parentAdded, updated.
  replace (matches [StreamIds_ne parent; StreamIds_in ids; HeadId_exists false] e)
    with false; [reflexivity|].
  unfold matches in *. simpl in *. rewrite andb_true_r in H. rewrite H.
  now rewrite andb_false_r.
Qed.

Lemma parentAdded_history ids parent e :
  Event.headId e <> None -> parentAdded ids parent e = e.
Proof. intros H. unfold parentAdded. apply updated_history; [simpl; auto | assumption]. Qed.

Lemma mergedEvent_twice ids parent e :
  mergedEvent ids parent (mergedEvent ids parent e) = mergedEvent ids parent e.
Proof.
  unfold mergedEvent at 1.
  assert (P : parentAdded ids parent (mergedEvent ids parent e) = mergedEvent ids parent e).
  { destruct (Event.headId e) as [h|] eqn:Hd.
    - apply parentAdded_history. unfold mergedEvent, strip, parentAdded.
      rewrite !updated_headId, Hd. discriminate.
    - apply parentAdded_unlinked. unfold mergedEvent. apply strip_unlinks.
      unfold isLive, parentAdded. now rewrite updated_headId, Hd. }
  rewrite P. unfold mergedEvent. apply strip_twice.
Qed.

Lemma mergeUpdates_events env ids parent w :
  events (snd (mergeUpdates env ids parent w))
  = map (mergeUpdatesOn env ids parent) (events w).
Proof.
  unfold mergeUpdates, mergeUpdatesOn, addParentStreamIdIfNeeded, removeStreamdIds,
    updateMany, bind, storageCall, emit.
  destruct (storageFails env addParentStreamId_updateMany); simpl.
  - symmetry. apply map_id.
  - destruct (storageFails env removeStreamdIds_updateMany); simpl.
    + reflexivity.
    + unfold mergedEvent, parentAdded, strip. now rewrite map_map.
Qed.

(** X5. The membership updates of the merge path can be re-run: running
    [addParentStreamIdIfNeeded] then [removeStreamdIds] a second time
    leaves every event as the first run left it (no parent id is written
    twice, no absent id makes the pull fail), whichever of the two bulk
    updates answer; the same holds for [removeStreamdIdsFromAllEvents]. *)
Theorem membership_updates_are_idempotent env ids parent w :
  events (snd (mergeUpdates env ids parent (snd (mergeUpdates env ids parent w))))
  = events (snd (mergeUpdates env ids parent w)) /\
  events (snd (removeStreamdIdsFromAllEvents env ids
                 (snd (removeStreamdIdsFromAllEvents env ids w))))
  = events (snd (removeStreamdIdsFromAllEvents env ids w)).
Proof.
  split.
  - rewrite !mergeUpdates_events, map_map. apply map_ext. intros e.
    unfold mergeUpdatesOn.
    destruct (storageFails env addParentStreamId_updateMany); [reflexivity|].
    destruct (storageFails env removeStreamdIds_updateMany).
    + apply parentAdded_twice.
    + apply mergedEvent_twice.
  - unfold removeStreamdIdsFromAllEvents, updateMany, bind, storageCall.
    destruct (String.eqb _ _); [reflexivity|].
    destruct (storageFails env removeStreamdIdsFromAllEvents_updateMany); simpl;
      [reflexivity|].
    rewrite map_map. apply map_ext. intros e. apply strip_twice.
Qed.

Lemma updated_only_streamIds q u e :
  updated q u e = Event.with_streamIds (Event.streamIds (updated q u e)) e.
Proof.
  destruct e as [i sids hd att c m mb].
  unfold updated, applyUpdate. destruct (matches q _); [|reflexivity].
  destruct u; simpl; destruct sids; try reflexivity.
  destruct (positionalList q); reflexivity.
Qed.

Lemma mergedEvent_only_streamIds ids parent e :
  mergedEvent ids parent e
  = Event.with_streamIds (Event.streamIds (mergedEvent ids parent e)) e.
Proof.
  unfold mergedEvent, strip. rewrite (updated_only_streamIds _ _ (parentAdded ids parent e)) at 1.
  unfold parentAdded at 2. rewrite (updated_only_streamIds _ _ e) at 1.
  destruct e; reflexivity.
Qed.

(** X6. Merging never deletes or reorders an event and writes nothing
    but streamIds: after a hard deletion with [mergeEventsWithParent =
    true] every document of the collection, live or history, is still at
    its index with the same id, headId, attachments, content, modified and
    modifiedBy. *)
Theorem merge_keeps_every_event env context params w node b parent n e :
  reliable env ->
  mergeEventsWithParent params = Some true ->
  findById (streams w) (id params) = Some node ->
  canDeleteStream context (Stream.id (item node)) = true ->
  Stream.trashed (item node) = Some b ->
  Stream.parentId (item node) = Some parent ->
  nth_error (events w) n = Some e ->
  exists sids',
    nth_error (events (snd (streams_delete env context params w))) n
    = Some (Event.with_streamIds sids' e).
Proof.
  intros R Mg F C T P Hn.
  rewrite (hard_delete_merge_events env context params w node b parent R F C T Mg P).
  destruct (hasLinkedEvents (collectPluckFromRootItem node) w).
  - exists (Event.streamIds (mergedEvent (collectPluckFromRootItem node) parent e)).
    apply nth_error_app_left. rewrite nth_error_map, Hn. simpl.
    f_equal. apply mergedEvent_only_streamIds.
  - exists (Event.streamIds e). rewrite Hn. f_equal. now destruct e.
Qed.

Lemma merge_keeps_every_event_witness :
  exists sids',
    nth_error (events (snd (streams_delete (someEnv "keep-nothing" false) someContext
                              (mkParams "A/B" (Some true)) linkedWorld))) 0
    = Some (Event.with_streamIds sids' e1).
Proof.
  apply (merge_keeps_every_event (someEnv "keep-nothing" false) someContext
           (mkParams "A/B" (Some true)) linkedWorld abNode true "A" 0 e1);
    try reflexivity.
  intros c; destruct c; exact I || reflexivity.
Defined.

Lemma pull_In ids sids x : In x (pull ids sids) <-> In x sids /\ ~ In x ids.
Proof.
  unfold pull. rewrite filter_In, negb_true_iff. now rewrite includes_false.
Qed.

Lemma setFirstIn_In ids parent sids x :
  In x (setFirstIn ids parent sids) -> x = parent \/ In x sids.
Proof.
  induction sids as [|y r IH]; simpl; [tauto|].
  destruct (includes ids y); simpl.
  - intros [<-|H]; auto.
  - intros [<-|H]; auto. destruct (IH H); auto.
Qed.

Lemma setFirstIn_outside ids parent sids x :
  In x sids -> ~ In x ids -> In x (setFirstIn ids parent sids).
Proof.
  intros Hin Hout. induction sids as [|y r IH]; simpl; [contradiction|].
  destruct (includes ids y) eqn:E; simpl.
  - destruct Hin as [->|Hin]; [|now right].
    apply includes_In in E. contradiction.
  - destruct Hin as [->|Hin]; [now left | right; now apply IH].
Qed.

(** The memberships a linked live event has after the merge. *)
Lemma mergedStreamIds_In ids parent sids x :
  existsb (includes ids) sids = true ->
  ~ In parent ids ->
  (In x (mergedStreamIds ids parent sids) <-> x = parent \/ (In x sids /\ ~ In x ids)).
Proof.
  intros L Np. unfold mergedStreamIds. rewrite L.
  destruct (includes sids parent) eqn:P; rewrite pull_In.
  - apply includes_In in P. split.
    + tauto.
    + intros [->|H]; tauto.
  - split.
    + intros [H Hx]. destruct (setFirstIn_In _ _ _ _ H); tauto.
    + intros [->|[H Hx]].
      * split; [|assumption]. apply includes_In. now apply setFirstIn_includes.
      * split; [now apply setFirstIn_outside | assumption].
Qed.

(** X7. What a merged event belongs to.  After a hard deletion with
    [mergeEventsWithParent = true], the parent not being in the closure
    set, a live event that referenced the closure set belongs exactly to
    the parent and to the streams outside the closure set it belonged to
    before: it has left every stream of the closure set, has lost no other
    membership, and its streamIds is not empty. *)
Theorem merged_event_memberships env context params w node b parent n e sids :
  reliable env ->
  mergeEventsWithParent params = Some true ->
  findById (streams w) (id params) = Some node ->
  canDeleteStream context (Stream.id (item node)) = true ->
  Stream.trashed (item node) = Some b ->
  Stream.parentId (item node) = Some parent ->
  ~ In parent (collectPluckFromRootItem node) ->
  nth_error (events w) n = Some e ->
  isLive e = true ->
  Event.streamIds e = Some sids ->
  references (collectPluckFromRootItem node) e ->
  exists sids',
    nth_error (events (snd (streams_delete env context params w))) n
    = Some (Event.with_streamIds (Some sids') e) /\
    (forall x, In x sids' <->
               x = parent \/ (In x sids /\ ~ In x (collectPluckFromRootItem node))) /\
    sids' <> [].
Proof.
  intros R Mg F C T P Np Hn L S Href.
  rewrite (hard_delete_merge_events env context params w node b parent R F C T Mg P).
  rewrite (hasLinkedEvents_true _ _ _ (nth_error_In _ _ Hn) Href).
  set (ids := collectPluckFromRootItem node) in *.
  assert (Lk : existsb (includes ids) sids = true).
  { apply references_matches in Href. unfold matches in Href. simpl in Href.
    now rewrite S, andb_true_r in Href. }
  exists (mergedStreamIds ids parent sids). split; [|split].
  - apply nth_error_app_left. rewrite nth_error_map, Hn. simpl.
    f_equal. now apply mergedEvent_live.
  - intros x. now apply mergedStreamIds_In.
  - intros E.
    assert (H : In parent (mergedStreamIds ids parent sids))
      by (apply mergedStreamIds_In; auto).
    rewrite E in H. contradiction.
Qed.

Lemma merged_event_memberships_witness :
  exists sids',
    nth_error (events (snd (streams_delete (someEnv "keep-nothing" false) someContext
                              (mkParams "A/B" (Some true)) linkedWorld))) 5
    = Some (Event.with_streamIds (Some sids') e4) /\
    sids' <> [].
Proof.
  destruct (merged_event_memberships (someEnv "keep-nothing" false) someContext
              (mkParams "A/B" (Some true)) linkedWorld abNode true "A" 5 e4 ["X"; "A/B"])
    as [sids' [H [_ N]]].
  - intros c; destruct c; exact I || reflexivity.
  - reflexivity.
  - reflexivity.
  - reflexivity.
  - reflexivity.
  - reflexivity.
  - simpl. intros [H|[]]. discriminate.
  - reflexivity.
  - reflexivity.
  - reflexivity.
  - exists ["X"; "A/B"], "A/B". simpl. auto.
  - exists sids'. split; assumption.
Defined.





(** ** The detach path *)

Lemma strip_live ids e sids :
  isLive e = true -> Event.streamIds e = Some sids ->
  strip ids e = Event.with_streamIds (Some (pull ids sids)) e.
Proof.
  intros L S. apply isLive_headId in L.
  destruct e as [i s hd att c m mb]. simpl in *. subst.
  unfold strip, updated, matches, applyUpdate, Event.with_streamIds. simpl.
  rewrite andb_true_r.
  destruct (existsb (includes ids) sids) eqn:E; simpl; [reflexivity|].
  now rewrite pull_nothing.
Qed.

Lemma detached_stripping env ids l :
  String.eqb (deletionMode (auditSettings env)) "keep-everything" = false ->
  detached env ids l
  = filter (fun e => negb (matches [HeadId_exists false; StreamIds_is []] e))
      (map (strip ids) (historyHandled env ids l)).
Proof.
  intros E. unfold detached, eventsDeleted, membershipsRemoved, deleteEventsFilter.
  now rewrite E.
Qed.

(** X9. Events that stay attached elsewhere survive a detaching
    deletion.  When the deletion mode is not keep-everything, a hard
    deletion with [mergeEventsWithParent = false] keeps every live event
    that has a membership outside the closure set: it is left in the
    collection with its outside memberships, in their order, and all its
    other attributes unchanged. *)
Theorem detached_event_keeps_outside_memberships
  env context params w node b linked e sids :
  reliable env ->
  deletionMode (auditSettings env) <> "keep-everything" ->
  mergeEventsWithParent params = Some false ->
  findById (streams w) (id params) = Some node ->
  canDeleteStream context (Stream.id (item node)) = true ->
  Stream.trashed (item node) = Some b ->
  In linked (events w) ->
  references (collectPluckFromRootItem node) linked ->
  In e (events w) ->
  isLive e = true ->
  Event.streamIds e = Some sids ->
  pull (collectPluckFromRootItem node) sids <> [] ->
  In (Event.with_streamIds (Some (pull (collectPluckFromRootItem node) sids)) e)
     (events (snd (streams_delete env context params w))).
Proof.
  intros R Mode Mg F C T Hl Href He L S Out.
  rewrite (hard_delete_detaches env context params w node b linked R F C T Mg Hl Href).
  rewrite detached_stripping by (apply String.eqb_neq; assumption).
  apply filter_In. split.
  - rewrite <- (strip_live _ e sids L S). apply in_map. now apply historyHandled_live.
  - apply negb_true_iff. unfold matches. simpl.
    destruct (pull (collectPluckFromRootItem node) sids); [congruence|].
    simpl. apply andb_false_r.
Qed.

Lemma detached_event_keeps_outside_memberships_witness :
  In (anEvent "e4" ["X"] None None)
     (events (snd (streams_delete (someEnv "keep-authors" false) someContext
                     (mkParams "A/B" (Some false)) linkedWorld))).
Proof.
  apply (detached_event_keeps_outside_memberships (someEnv "keep-authors" false) someContext
           (mkParams "A/B" (Some false)) linkedWorld abNode true e2 e4 ["X"; "A/B"]);
    try reflexivity; try discriminate.
  - intros c; destruct c; exact I || reflexivity.
  - simpl. auto.
  - exists ["A/B"], "A/B". simpl. auto.
  - simpl. auto 10.
Defined.

(** X10. keep-everything writes to no document.  Under keep-everything
    a hard deletion with [mergeEventsWithParent = false] modifies no
    document of the events collection: every document left was there
    before, as it is; and every history row and every event that does not
    reference the closure set is left. *)
Theorem keep_everything_changes_no_document env context params w node b linked x :
  reliable env ->
  deletionMode (auditSettings env) = "keep-everything" ->
  mergeEventsWithParent params = Some false ->
  findById (streams w) (id params) = Some node ->
  canDeleteStream context (Stream.id (item node)) = true ->
  Stream.trashed (item node) = Some b ->
  In linked (events w) ->
  references (collectPluckFromRootItem node) linked ->
  (In x (events (snd (streams_delete env context params w))) -> In x (events w)) /\
  (In x (events w) ->
   isLive x = false \/ ~ references (collectPluckFromRootItem node) x ->
   In x (events (snd (streams_delete env context params w)))).
Proof.
  intros R Mode Mg F C T Hl Href.
  rewrite (hard_delete_detaches env context params w node b linked R F C T Mg Hl Href).
  rewrite (mode_keep_everything env Mode). rewrite filter_In, negb_true_iff.
  rewrite references_matches.
  unfold matches, isLive. simpl. rewrite !andb_true_r.
  split; [tauto|]. intros Hx Hk. split; [assumption|].
  destruct (Event.headId x); simpl in *; [reflexivity|].
  destruct Hk as [Hk|Hk]; [discriminate|].
  destruct (Event.streamIds x) as [sids|]; [|reflexivity].
  destruct (existsb (includes (collectPluckFromRootItem node)) sids);
    [now destruct Hk | reflexivity].
Qed.

Lemma keep_everything_changes_no_document_witness :
  In h1 (events (snd (streams_delete (someEnv "keep-everything" false) someContext
                        (mkParams "A/B" (Some false)) linkedWorld))).
Proof.
  apply (keep_everything_changes_no_document (someEnv "keep-everything" false) someContext
           (mkParams "A/B" (Some false)) linkedWorld abNode true e2 h1);
    try reflexivity.
  - intros c; destruct c; exact I || reflexivity.
  - simpl. auto.
  - exists ["A/B"], "A/B". simpl. auto.
  - simpl. auto.
  - left. reflexivity.
Defined.

(** ** Attachment files *)

Lemma forEachRecord_keeps_for {A} (rs : list A) (h : A -> M unit) (I : World -> Prop) :
  (forall r, In r rs -> forall w, I w -> I (snd (h r w))) ->
  forall w, I w -> I (snd (forEachRecord rs h w)).
Proof.
  induction rs as [|r rest IH]; intros H w Hw; simpl; [assumption|].
  assert (Hr : I (snd (h r w))) by (apply H; [now left | assumption]).
  assert (H' : forall r', In r' rest -> forall w0, I w0 -> I (snd (h r' w0)))
    by (intros r' Hin; apply H; now right).
  destruct (h r w) as [[a|e] w']; simpl in *; now apply IH.
Qed.

Lemma deleteEventsWithAttachments_spares env ids w k fs :
  In (k, fs) (eventFiles w) ->
  (forall e, In e (events w) -> selectedForReaping ids e = true -> Event.id e <> k) ->
  In (k, fs) (eventFiles (snd (deleteEventsWithAttachments env ids w))).
Proof.
  intros Hk Sel. unfold deleteEventsWithAttachments, find, bind, storageCall.
  destruct (storageFails env attachments_findStreamed); simpl; [assumption|].
  apply (forEachRecord_keeps_for _ _ (fun w0 => In (k, fs) (eventFiles w0))); [|assumption].
  intros r Hr w0 H0. apply filter_In in Hr. destruct Hr as [Hr Hm].
  destruct (stillAttached (Event.streamIds r) ids) eqn:A; [assumption|].
  unfold removeAllForEvent.
  destruct (storageFails env (attachments_removeAllForEvent (Event.id r))); simpl;
    [assumption|].
  apply filter_In. split; [assumption|]. simpl. apply negb_true_iff.
  apply String.eqb_neq. intros E. apply (Sel r Hr); [|now symmetry].
  unfold selectedForReaping. now rewrite Hm, A.
Qed.

Lemma historyHandled_selected env ids l e :
  In e (historyHandled env ids l) -> selectedForReaping ids e = true -> In e l.
Proof.
  unfold historyHandled. destruct (String.eqb _ "keep-everything"); [auto|].
  destruct (String.eqb _ "keep-authors").
  - intros Hin Sel. apply in_map_iff in Hin. destruct Hin as [z [<- Hz]].
    unfold minimizedIfAny in *. destruct (historyOfAny _ z); [|assumption].
    unfold selectedForReaping, matches in Sel. simpl in Sel. discriminate.
  - intros Hin _. apply filter_In in Hin. tauto.
Qed.

Lemma detachPath_spares env params ids parent w k fs :
  reliable env ->
  mergeEventsWithParent params <> Some true ->
  In (k, fs) (eventFiles w) ->
  (forall e, In e (events w) -> selectedForReaping ids e = true -> Event.id e <> k) ->
  In (k, fs) (eventFiles (snd (handleLinkedEvents env params ids parent true w))).
Proof.
  intros R Mg Hk Sel. unfold handleLinkedEvents. simpl.
  assert (E : In (k, fs)
                (eventFiles (snd ((handleHistory env ids ;;;
                                   deleteEventsWithAttachments env ids ;;;
                                   removeStreamdIdsFromAllEvents env ids ;;;
                                   deleteEvents env ids) w)))).
  { rewrite (bind_done _ _ _ tt) by (apply total_unit, total_handleHistory; assumption).
    rewrite (bind_done _ _ _ tt)
      by (apply total_unit, total_deleteEventsWithAttachments; assumption).
    assert (K : keeps eventFiles
                  (removeStreamdIdsFromAllEvents env ids ;;; deleteEvents env ids))
      by (unfold removeStreamdIdsFromAllEvents, deleteEvents, updateMany, delete, emit;
          step_solver).
    rewrite K.
    assert (K0 : keeps eventFiles (handleHistory env ids))
      by (unfold handleHistory, find, minimizeEventsHistory, removeMany; step_solver).
    apply deleteEventsWithAttachments_spares.
    - now rewrite K0.
    - intros e He. rewrite handleHistory_events in He by assumption.
      intros S. apply Sel; [|assumption]. eapply historyHandled_selected; eauto. }
  destruct (mergeEventsWithParent params) as [[|]|]; [congruence | exact E | exact E].
Qed.

Lemma mergePath_keeps_files env params ids parent has :
  mergeEventsWithParent params = Some true ->
  keeps eventFiles (handleLinkedEvents env params ids parent has).
Proof.
  intros Mg. unfold handleLinkedEvents. rewrite Mg.
  unfold generateLogIfNecessary, addParentStreamIdIfNeeded, removeStreamdIds, find,
    updateMany, insertOne, emit.
  step_solver.
Qed.

(** X11. Attachment files are removed for selected events only.  A hard
    deletion with [mergeEventsWithParent = true] removes no attachment
    file at all; and whatever the disposition, the files stored under an
    event id stay unless a document with that id references the closure
    set, carries attachments and is not still attached elsewhere. *)
Theorem attachment_files_of_other_events_stay env context params w node b k fs :
  reliable env ->
  findById (streams w) (id params) = Some node ->
  canDeleteStream context (Stream.id (item node)) = true ->
  Stream.trashed (item node) = Some b ->
  dispositionAccepted params node w ->
  In (k, fs) (eventFiles w) ->
  (mergeEventsWithParent params = Some true ->
   eventFiles (snd (streams_delete env context params w)) = eventFiles w) /\
  ((forall e, In e (events w) ->
              selectedForReaping (collectPluckFromRootItem node) e = true ->
              Event.id e <> k) ->
   In (k, fs) (eventFiles (snd (streams_delete env context params w)))).
Proof.
  intros R F C T A Hk.
  rewrite (streams_delete_found env _ _ _ _ F C). unfold deleteStream. rewrite T.
  rewrite (deleteWithData_accepted _ _ _ _ _ R F A). simpl.
  split.
  - intros Mg. now apply mergePath_keeps_files.
  - intros Sel.
    destruct (hasLinkedEvents (collectPluckFromRootItem node) w); [|assumption].
    destruct (mergeEventsWithParent params) as [[|]|] eqn:Mg.
    + rewrite mergePath_keeps_files by assumption. assumption.
    + apply detachPath_spares; try assumption. congruence.
    + apply detachPath_spares; try assumption. congruence.
Qed.

Lemma attachment_files_of_other_events_stay_witness :
  In ("e1", ["f"])
     (eventFiles (snd (streams_delete (someEnv "keep-nothing" false) someContext
                         (mkParams "A/B" (Some false)) linkedWorld))).
Proof.
  apply (attachment_files_of_other_events_stay (someEnv "keep-nothing" false) someContext
           (mkParams "A/B" (Some false)) linkedWorld abNode true "e1" ["f"]).
  - intros c; destruct c; exact I || reflexivity.
  - reflexivity.
  - reflexivity.
  - reflexivity.
  - split; discriminate.
  - simpl. auto.
  - intros e He Sel.
    repeat (destruct He as [<-|He]; [try discriminate|]); try contradiction.
Defined.

(** ** The streams tree after a delete *)

Lemma findById_In_forest i f :
  Forall (fun t => forall n, findByIdIn i t = Some n -> In (item n) (collectFromRootItem t)) f ->
  forall n, findById f i = Some n -> In (item n) (collectFromForest f).
Proof.
  induction 1 as [|t r Ht _ IH]; simpl; [discriminate|].
  intros n. destruct (findByIdIn i t) as [found|] eqn:E.
  - intros Q. inversion Q; subst. apply in_or_app. left. now apply Ht.
  - intros Q. apply in_or_app. right. now apply IH.
Qed.

Lemma findByIdIn_In i t n :
  findByIdIn i t = Some n -> In (item n) (collectFromRootItem t).
Proof.
  revert n. induction t as [s cs IH] using StreamTree_ind. intros n.
  rewrite findByIdIn_Node. destruct (String.eqb (Stream.id s) i).
  - intros Q. inversion Q; subst. simpl. now left.
  - intros Q. simpl. right. now apply (findById_In_forest i cs IH).
Qed.

Lemma findById_In i f n :
  findById f i = Some n -> In (item n) (collectFromForest f).
Proof.
  apply findById_In_forest. apply Forall_forall. intros t _ m. apply findByIdIn_In.
Qed.

Lemma findById_pruned ids f i :
  In i ids -> findById (removeIds ids f) i = None.
Proof.
  intros Hi. destruct (findById (removeIds ids f) i) as [n|] eqn:E; [|reflexivity].
  pose proof (findById_id _ _ _ E) as Hid.
  apply findById_In, removeIds_gone in E. rewrite Hid in E. contradiction.
Qed.

(** X12. A deleted stream is unknown afterwards.  After a hard deletion
    that ran to its end, a further [streams.delete] of the same id, or of
    the id of any of its descendants, by whatever caller and with whatever
    parameters, fails with [unknownResource] and changes nothing. *)
Theorem deleted_stream_is_unknown_afterwards
  env context params w node d env2 context2 params2 :
  reliable env ->
  findById (streams w) (id params) = Some node ->
  canDeleteStream context (Stream.id (item node)) = true ->
  Stream.trashed (item node) <> None ->
  dispositionAccepted params node w ->
  In d (collectPluckFromRootItem node) ->
  id params2 = d ->
  streams_delete env2 context2 params2 (snd (streams_delete env context params w))
  = (Failed (unknownResource d), snd (streams_delete env context params w)).
Proof.
  intros R F C T A Hd E2.
  rewrite (streams_delete_found env _ _ _ _ F C). unfold deleteStream.
  destruct (Stream.trashed (item node)) as [b|]; [|congruence].
  rewrite (deleteWithData_accepted _ _ _ _ _ R F A). simpl.
  unfold streams_delete, verifyStreamExistenceAndPermissions, bind, gets. simpl.
  rewrite E2, (findById_pruned _ _ _ Hd). reflexivity.
Qed.

Lemma deleted_stream_is_unknown_afterwards_witness :
  fst (streams_delete (someEnv "keep-nothing" false) someContext (mkParams "work/sub" None)
         (snd (streams_delete (someEnv "keep-nothing" false) someContext
                 (mkParams "work" (Some false)) workWorld)))
  = Failed (unknownResource "work/sub").
Proof.
  rewrite (deleted_stream_is_unknown_afterwards (someEnv "keep-nothing" false) someContext
             (mkParams "work" (Some false)) workWorld
             (Node (aStream "work" None (Some true))
                   [Node (aStream "work/sub" (Some "work") None) []])
             "work/sub" (someEnv "keep-nothing" false) someContext
             (mkParams "work/sub" None)).
  - reflexivity.
  - intros c; destruct c; exact I || reflexivity.
  - reflexivity.
  - reflexivity.
  - discriminate.
  - split; discriminate.
  - simpl. auto.
  - reflexivity.
Defined.

Lemma patchesOne_forest i d f :
  Forall (patchesOneOfTree i d) f ->
  Forall (fun t => updateOneIn i d t = None -> idAbsentFromTree i t) f ->
  patchesOneOfForest i d f /\
  (updateOneStream i d f = None -> Forall (fun x => Stream.id x <> i) (collectFromForest f)).
Proof.
  intros Hp Hn. induction Hp as [|t r Ht Hr IH]; simpl.
  - split; [intros s' f'; discriminate | constructor].
  - inversion Hn as [|? ? Hnt Hnr]; subst. destruct (IH Hnr) as [IHp IHn]. split.
    + intros s' f'. simpl. destruct (updateOneIn i d t) as [[s1 t1]|] eqn:U.
      * intros Q. inversion Q; subst.
        destruct (Ht s' t1 U) as [pre [s [post [E1 [E2 [E3 [E4 E5]]]]]]].
        exists pre, s, (post ++ collectFromForest r).
        unfold collectFromForest. simpl. rewrite E1, E2, <- !app_assoc. simpl. auto.
      * destruct (updateOneStream i d r) as [[s1 r1]|] eqn:Ur; [|discriminate].
        intros Q. inversion Q; subst.
        destruct (IHp s' r1 Ur) as [pre [s [post [E1 [E2 [E3 [E4 E5]]]]]]].
        exists (collectFromRootItem t ++ pre), s, post.
        unfold collectFromForest in *. simpl. rewrite E1, E2, <- !app_assoc.
        repeat split; try assumption. apply Forall_app. split; [|assumption].
        now apply Hnt.
    + simpl. destruct (updateOneIn i d t) as [[s1 t1]|] eqn:U; [discriminate|].
      destruct (updateOneStream i d r) as [[s1 r1]|]; [discriminate|].
      intros _. unfold collectFromForest. simpl. apply Forall_app. split.
      * now apply Hnt.
      * now apply IHn.
Qed.

Lemma patchesOne_tree i d t :
  patchesOneOfTree i d t /\ (updateOneIn i d t = None -> idAbsentFromTree i t).
Proof.
  induction t as [s0 cs IH] using StreamTree_ind.
  assert (Hp : Forall (patchesOneOfTree i d) cs)
    by (eapply Forall_impl; [|exact IH]; intros a H; apply H).
  assert (Hn : Forall (fun t => updateOneIn i d t = None -> idAbsentFromTree i t) cs)
    by (eapply Forall_impl; [|exact IH]; intros a H; apply H).
  destruct (patchesOne_forest i d cs Hp Hn) as [Fp Fn].
  unfold patchesOneOfTree, idAbsentFromTree. rewrite updateOneIn_Node.
  destruct (String.eqb (Stream.id s0) i) eqn:E.
  - split; [|discriminate]. intros s' t' Q. inversion Q; subst.
    exists [], s0, (flat_map collectFromRootItem cs). simpl.
    repeat split; [now apply String.eqb_eq | constructor].
  - apply String.eqb_neq in E. split.
    + intros s' t'. destruct (updateOneStream i d cs) as [[s1 cs1]|] eqn:U; [|discriminate].
      intros Q. inversion Q; subst.
      destruct (Fp s' cs1 U) as [pre [s [post [E1 [E2 [E3 [E4 E5]]]]]]].
      exists (s0 :: pre), s, post. simpl. unfold collectFromForest in *.
      rewrite E1, E2. repeat split; try assumption. now constructor.
    + destruct (updateOneStream i d cs) as [[s1 cs1]|]; [discriminate|].
      intros _. simpl. constructor; [assumption | now apply Fn].
Qed.

Lemma updateOneStream_patches_one i d f : patchesOneOfForest i d f.
Proof.
  apply patchesOne_forest; apply Forall_forall; intros t _; apply patchesOne_tree.
Qed.

(** X13. The soft delete touches one stream document.  When a stream is
    moved to the trash, the list of stream documents changes at exactly one
    place: the first document bearing the id gets [trashed = true] and the
    tracking stamps, and keeps its id, parentId and name; its descendants
    are not flagged and no other stream is touched, added or removed. *)
Theorem soft_delete_touches_one_stream env context params w node :
  storageFails env flagAsTrashed_updateOne = false ->
  findById (streams w) (id params) = Some node ->
  canDeleteStream context (Stream.id (item node)) = true ->
  Stream.trashed (item node) = None ->
  exists pre s post,
    collectFromForest (streams w) = pre ++ s :: post /\
    collectFromForest (streams (snd (streams_delete env context params w)))
    = pre ++ Stream.make (Stream.id s) (Stream.parentId s) (Stream.name s) (Some true)
               (Some (trackingModified context)) (Some (trackingModifiedBy context))
             :: post /\
    Stream.id s = id params /\
    Forall (fun x => Stream.id x <> id params) pre.
Proof.
  intros Rf F C T. rewrite (streams_delete_found env _ _ _ _ F C). unfold deleteStream.
  rewrite T. unfold flagAsTrashed, bind. rewrite (storageCall_ok _ _ _ Rf).
  destruct node as [s0 cs].
  destruct (updateOneStream_found (id params)
              (updateTrackingProperties context (mkData (Some true) None None))
              _ _ _ F) as [f' [U _]].
  rewrite U. simpl.
  destruct (updateOneStream_patches_one _ _ _ _ _ U) as [pre [s [post [E1 [E2 [_ [E4 E5]]]]]]].
  exists pre, s, post. repeat split; assumption.
Qed.

Lemma soft_delete_touches_one_stream_witness :
  collectFromForest
    (streams (snd (streams_delete (someEnv "keep-nothing" false) someContext
                     (mkParams "A/B" None) untrashedWorld)))
  = [aStream "A" None None;
     Stream.make "A/B" (Some "A") "A/B" (Some true) (Some 7) (Some "access")].
Proof.
  destruct (soft_delete_touches_one_stream (someEnv "keep-nothing" false) someContext
              (mkParams "A/B" None) untrashedWorld
              (Node (aStream "A/B" (Some "A") None) []))
    as [pre [s [post [E1 [E2 _]]]]]; try reflexivity.
Defined.

(** ** The inclusion test *)

Lemma arrayAIsIncludedInB_subset a b :
  arrayAIsIncludedInB a b = true <-> (forall x, In x a -> In x b).
Proof.
  unfold arrayAIsIncludedInB. rewrite forallb_forall.
  split; intros H x Hx; apply includes_In; now apply H.
Qed.

(** X14. [arrayAIsIncludedInB a b] answers true exactly when every
    element of [a] occurs in [b], whatever the order and the repetitions:
    so it holds of the empty [a], of [a] against itself, and carries over
    from [a] in [b] and [b] in [c] to [a] in [c]. *)
Theorem arrayAIsIncludedInB_spec a b :
  (arrayAIsIncludedInB a b = true <-> (forall x, In x a -> In x b)) /\
  arrayAIsIncludedInB [] b = true /\
  arrayAIsIncludedInB a a = true /\
  (forall c, arrayAIsIncludedInB a b = true -> arrayAIsIncludedInB b c = true ->
             arrayAIsIncludedInB a c = true).
Proof.
  pose proof arrayAIsIncludedInB_subset as S.
  split; [apply S|]. split; [reflexivity|]. split.
  - apply S. auto.
  - intros c Hab Hbc. apply S. intros x Hx.
    apply (proj1 (S b c) Hbc). now apply (proj1 (S a b) Hab).
Qed.

(** X15. The test of the streamed handlers and the filter of the final
    deletion agree.  For a record that references the closure set, the
    handlers' test ("several streamIds, not all of them in the list") fails
    exactly when pulling the closure-set ids leaves it no streamIds: the
    events whose history and attachments are removed are those that
    [removeStreamdIdsFromAllEvents] leaves with [streamIds = []], the ones
    the final [deleteEvents] selects. *)
Theorem handlers_select_what_is_deleted ids e sids :
  references ids e ->
  Event.streamIds e = Some sids ->
  (stillAttached (Event.streamIds e) ids = false <-> pull ids sids = []) /\
  (isLive e = true ->
   (matches [HeadId_exists false; StreamIds_is []] (strip ids e) = true
    <-> stillAttached (Event.streamIds e) ids = false)).
Proof.
  intros Href S.
  assert (A : stillAttached (Event.streamIds e) ids = false <-> pull ids sids = []).
  { split.
    - intros H. destruct (not_attached_inside ids e Href H) as [l [E P]]. congruence.
    - intros P. rewrite S. simpl. apply andb_false_iff. right. apply negb_false_iff.
      apply arrayAIsIncludedInB_subset. intros x Hx. apply includes_In.
      destruct (includes ids x) eqn:I; [reflexivity|].
      assert (In x (pull ids sids))
        by (unfold pull; apply filter_In; split; [assumption | now rewrite I]).
      rewrite P in H. contradiction. }
  split; [exact A|]. intros L. rewrite A.
  rewrite (strip_live ids e sids L S). apply isLive_headId in L.
  unfold matches. simpl. rewrite L. simpl. rewrite andb_true_r.
  destruct (pull ids sids); simpl; split; congruence.
Qed.

Lemma handlers_select_what_is_deleted_witness :
  stillAttached (Event.streamIds e1) ["A/B"] = false <-> pull ["A/B"] ["A/B"; "X"] = [].
Proof.
  apply (handlers_select_what_is_deleted ["A/B"] e1 ["A/B"; "X"]).
  - exists ["A/B"; "X"], "A/B". simpl. auto.
  - reflexivity.
Defined.

(** * The guard on system streams, creation and update *)

Lemma forbidSystemStream_outcome sys access x :
  match forbidSystemStream sys access x with
  | inl e =>
      e = factoryError invalidOperation /\
      exists i, x = Some i /\ isSystemStreamId sys (withNewPrefix sys access i) = true
  | inr y =>
      y = option_map (withNewPrefix sys access) x /\
      forall i, y = Some i -> isSystemStreamId sys i = false
  end.
Proof.
  destruct x as [i|]; simpl.
  - destruct (isSystemStreamId sys (withNewPrefix sys access i)) eqn:S.
    + split; [reflexivity | eauto].
    + split; [reflexivity|]. intros j E. inversion E; subst. exact S.
  - split; [reflexivity | discriminate].
Qed.

Lemma forbidSystemStreamsActions_outcome sys access x y :
  match forbidSystemStreamsActions sys access x y with
  | inl e =>
      e = factoryError invalidOperation /\
      exists i, (x = Some i \/ y = Some i) /\
                isSystemStreamId sys (withNewPrefix sys access i) = true
  | inr (x', y') =>
      x' = option_map (withNewPrefix sys access) x /\
      y' = option_map (withNewPrefix sys access) y /\
      (forall i, x' = Some i -> isSystemStreamId sys i = false) /\
      (forall i, y' = Some i -> isSystemStreamId sys i = false)
  end.
Proof.
  unfold forbidSystemStreamsActions.
  pose proof (forbidSystemStream_outcome sys access x) as Hx.
  pose proof (forbidSystemStream_outcome sys access y) as Hy.
  destruct (forbidSystemStream sys access x) as [e|x'].
  - destruct Hx as [-> [i [E S]]]. split; [reflexivity|]. exists i. auto.
  - destruct (forbidSystemStream sys access y) as [e|y'].
    + destruct Hy as [-> [i [E S]]]. split; [reflexivity|]. exists i. auto.
    + destruct Hx as [-> Sx], Hy as [-> Sy]. auto.
Qed.

(** X16. The chain registered for [streams.delete] refuses a system stream
    before it looks anything up: when the requested id, rewritten with the
    new prefix if the backward compatibility is active and the request does
    not disable it, names a system stream, the answer is [invalidOperation]
    and nothing is changed, whatever the tree, the access and the storage.
    Whenever the chain fails, the error is one of the five of the deletion,
    [unknownResource] names the rewritten id, and an error raised by a check
    leaves the world as it was. *)
Theorem registered_delete_guards_system_streams sys access env context params w :
  (isSystemStreamId sys (withNewPrefix sys access (id params)) = true ->
   streams_delete_registered sys access env context params w
   = (inl (factoryError invalidOperation), w)) /\
  (forall e,
     fst (streams_delete_registered sys access env context params w) = inl e ->
     exists a,
       e = factoryError a /\
       (a = unknownResource (withNewPrefix sys access (id params)) \/ a = forbidden \/
        a = invalidOperation \/ a = invalidParametersFormat \/ a = unexpectedError) /\
       (isValidationError a = true ->
        snd (streams_delete_registered sys access env context params w) = w)).
Proof.
  unfold streams_delete_registered, forbidSystemStreamsActions. simpl.
  destruct (isSystemStreamId sys (withNewPrefix sys access (id params))) eqn:S; simpl.
  - split; [reflexivity|]. intros e E. inversion E. exists invalidOperation.
    split; [reflexivity|]. split; [one_of | reflexivity].
  - split; [discriminate|]. intros e.
    destruct (streams_delete env context
                (mkParams (withNewPrefix sys access (id params)) (mergeEventsWithParent params)) w)
      as [[r|a] w'] eqn:D; simpl; [discriminate|].
    intros E. inversion E. exists a. split; [reflexivity|].
    exact (delete_errors _ _ _ _ _ _ D).
Qed.

Lemma registered_delete_guards_system_streams_witness :
  streams_delete_registered someSystemStreams someAccess (someEnv "keep-nothing" false)
    someContext (mkParams ".email" (Some false)) linkedWorld
  = (inl (factoryError invalidOperation), linkedWorld) /\
  snd (streams_delete_registered someSystemStreams someAccess (someEnv "keep-nothing" false)
         someContext (mkParams "nowhere" (Some false)) linkedWorld) = linkedWorld.
Proof.
  destruct (registered_delete_guards_system_streams someSystemStreams someAccess
              (someEnv "keep-nothing" false) someContext (mkParams ".email" (Some false))
              linkedWorld) as [A _].
  destruct (registered_delete_guards_system_streams someSystemStreams someAccess
              (someEnv "keep-nothing" false) someContext (mkParams "nowhere" (Some false))
              linkedWorld) as [_ B].
  split.
  - apply A. reflexivity.
  - destruct (B (factoryError (unknownResource "nowhere")) eq_refl) as [a [E [_ U]]].
    apply U. inversion E. reflexivity.
Defined.

(** X17. [streams.create]: a failure changes nothing and notifies nobody,
    and its error is one of seven, [unknownReferencedResource] naming the
    parent that was sent to the storage.  A success means that neither the
    id nor the parent names a system stream, that the access may create a
    child under the (rewritten) parent, that a non-empty id was not reserved
    before or after slugification and is stored slugified, that the
    [children] property was stripped and the tracking properties stamped,
    and that the stream the storage answered is the result; the tree is the
    one the storage leaves and [STREAMS_CHANGED] is emitted once. *)
Theorem create_outcome sys strings access storage context params w out w' :
  streams_create sys strings access storage context params w = (out, w') ->
  let requested := option_map (withNewPrefix sys access) (c_id params) in
  let parent := option_map (withNewPrefix sys access) (c_parentId params) in
  match out with
  | inl e => w' = w /\ isCreationError parent e
  | inr r =>
      (forall i, requested = Some i -> isSystemStreamId sys i = false) /\
      (forall p, parent = Some p -> isSystemStreamId sys p = false) /\
      canCreateChildOnStream access parent = true /\
      (forall i, requested = Some i -> truthy i = true ->
         isReservedId strings i = false /\ isReservedId strings (slugify strings i) = false) /\
      exists s tree,
        streams_insertOne storage
          (mkCreateParams (storedId strings requested) (c_name params) parent None
             (Some (trackingModified context)) (Some (trackingModifiedBy context))
             (Some (trackingModified context)) (Some (trackingModifiedBy context)))
          (streams w) = inr (s, tree) /\
        r = mkResult (Some s) None /\
        w' = add_notification USERNAME_BASED_STREAMS_CHANGED (set_streams tree w)
  end.
Proof.
  intros H requested parent. unfold streams_create in H.
  pose proof (forbidSystemStreamsActions_outcome sys access (c_id params) (c_parentId params)) as G.
  destruct (forbidSystemStreamsActions sys access (c_id params) (c_parentId params))
    as [e|[newId newParentId]].
  { inversion H; subst. destruct G as [-> _]. split; [reflexivity|]. left. reflexivity. }
  destruct G as [Ei [Ep [Si Sp]]]. fold requested in Ei. fold parent in Ep. subst newId newParentId.
  cbv zeta in H. unfold applyPrerequisitesForCreation in H. simpl in H.
  destruct (canCreateChildOnStream access parent) eqn:C; simpl in H.
  2:{ inversion H; subst. split; [reflexivity|]. right. left. reflexivity. }
  assert (Store : forall stored,
            c_parentId stored = parent ->
            createStream storage stored emptyResult w = (out, w') ->
            match out with
            | inl e => w' = w /\ isCreationError parent e
            | inr r =>
                exists s tree,
                  streams_insertOne storage stored (streams w) = inr (s, tree) /\
                  r = mkResult (Some s) None /\
                  w' = add_notification USERNAME_BASED_STREAMS_CHANGED (set_streams tree w)
            end).
  { intros stored Ps. unfold createStream.
    destruct (streams_insertOne storage stored (streams w)) as [err|[s tree]].
    - rewrite Ps.
      destruct (isDuplicate err).
      + destruct (isDuplicateIndex err "streamId").
        * intros E; inversion E; subst. split; [reflexivity|]. unfold isCreationError. tauto.
        * destruct (isDuplicateIndex err "name"); intros E; inversion E; subst;
            (split; [reflexivity|]); unfold isCreationError; tauto.
      + destruct parent as [p|]; intros E; inversion E; subst; (split; [reflexivity|]).
        * unfold isCreationError. do 5 right. left. exists p. auto.
        * unfold isCreationError. tauto.
    - intros E; inversion E; subst. exists s, tree. auto. }
  destruct requested as [i|] eqn:R; simpl in H.
  - destruct (truthy i) eqn:T; simpl in H.
    + destruct (isReservedId strings i) eqn:R1; simpl in H.
      { inversion H; subst. split; [reflexivity|]. unfold isCreationError. tauto. }
      destruct (isReservedId strings (slugify strings i)) eqn:R2; simpl in H.
      { inversion H; subst. split; [reflexivity|]. unfold isCreationError. tauto. }
      apply Store in H; [|reflexivity].
      destruct out as [e|r]; [exact H|].
      split; [exact Si|]. split; [exact Sp|]. split; [reflexivity|].
      split.
      { intros j E _. inversion E; subst. auto. }
      unfold storedId. rewrite T. exact H.
    + apply Store in H; [|reflexivity].
      destruct out as [e|r]; [exact H|].
      split; [exact Si|]. split; [exact Sp|]. split; [reflexivity|].
      split.
      { intros j E Tj. inversion E; subst. congruence. }
      unfold storedId. rewrite T. exact H.
  - apply Store in H; [|reflexivity].
    destruct out as [e|r]; [exact H|].
    split; [exact Si|]. split; [exact Sp|]. split; [reflexivity|].
    split; [discriminate|]. exact H.
Qed.

Lemma create_outcome_witness :
  isReservedId someStrings "Notes" = false /\
  canCreateChildOnStream someAccess (Some "A") = true.
Proof.
  destruct (create_outcome someSystemStreams someStrings someAccess someStorage someContext
              (mkCreateParams (Some "Notes") "notes" (Some "A") (Some ["x"]) None None None None)
              linkedWorld
              (fst (streams_create someSystemStreams someStrings someAccess someStorage someContext
                      (mkCreateParams (Some "Notes") "notes" (Some "A") (Some ["x"])
                         None None None None) linkedWorld))
              (snd (streams_create someSystemStreams someStrings someAccess someStorage someContext
                      (mkCreateParams (Some "Notes") "notes" (Some "A") (Some ["x"])
                         None None None None) linkedWorld))
              eq_refl) as [_ [_ [C [R _]]]].
  split; [|exact C].
  exact (proj1 (R "Notes" eq_refl eq_refl)).
Defined.

(** X18. [streams.update], from the prerequisites on: a failure changes
    nothing and notifies nobody; an update that names the stream itself as
    its new parent is answered with [invalidOperation] whether or not the
    stream exists or the access allows the update; [unknownResource] means
    that the stream is not in the tree.  A success means that the stream
    exists, that the access may update it, that the new parent is not the
    stream itself, that the storage was given the update with the tracking
    properties stamped and nothing else changed, and that its answer is the
    result; [STREAMS_CHANGED] is emitted once. *)
Theorem update_outcome access storage context params w out w' :
  streams_update access storage context params w = (out, w') ->
  match out with
  | inl e =>
      w' = w /\
      (up_parentId (u_update params) = Value (u_id params) ->
       e = factoryError invalidOperation) /\
      (forall i, e = factoryError (unknownResource i) ->
       i = u_id params /\ findById (streams w) (u_id params) = None)
  | inr r =>
      up_parentId (u_update params) <> Value (u_id params) /\
      exists node s tree,
        findById (streams w) (u_id params) = Some node /\
        canUpdateStream access (Stream.id (item node)) = true /\
        streams_updateOne storage (u_id params)
          (mkStreamUpdate (up_name (u_update params)) (up_parentId (u_update params))
             (up_trashed (u_update params))
             (Some (trackingModified context)) (Some (trackingModifiedBy context)))
          (streams w) = inr (s, tree) /\
        r = mkResult (Some s) None /\
        w' = add_notification USERNAME_BASED_STREAMS_CHANGED (set_streams tree w)
  end.
Proof.
  unfold streams_update, applyPrerequisitesForUpdate.
  destruct params as [i u]. simpl.
  assert (Self : forall p, up_parentId u = Value p -> String.eqb p i = false -> Value p <> Value i).
  { intros p _ Ne E. inversion E; subst. rewrite String.eqb_refl in Ne. discriminate. }
  assert (Store : forall w0 out0,
            updateStream storage (mkUpdateParams i (stampUpdate context u)) emptyResult w = (out0, w0) ->
            match out0 with
            | inl e => w0 = w /\ forall j, e <> factoryError (unknownResource j)
            | inr r =>
                exists s tree,
                  streams_updateOne storage i (stampUpdate context u) (streams w) = inr (s, tree) /\
                  r = mkResult (Some s) None /\
                  w0 = add_notification USERNAME_BASED_STREAMS_CHANGED (set_streams tree w)
            end).
  { intros w0 out0. unfold updateStream. simpl.
    destruct (streams_updateOne storage i (stampUpdate context u) (streams w)) as [err|[s tree]].
    - destruct (isDuplicate err).
      + destruct (isDuplicateIndex err "name"); intros E; inversion E; subst;
          (split; [reflexivity | discriminate]).
      + destruct (up_parentId u); intros E; inversion E; subst;
          (split; [reflexivity | discriminate]).
    - intros E; inversion E; subst. exists s, tree. auto. }
  destruct (up_parentId u) as [| |p] eqn:P.
  - destruct (findById (streams w) i) as [node|] eqn:F.
    + destruct (canUpdateStream access (Stream.id (item node))) eqn:C; simpl.
      * intros H. apply Store in H. destruct out as [e|r].
        -- destruct H as [-> N]. split; [reflexivity|]. split; [discriminate|].
           intros j E. destruct (N j E).
        -- split; [discriminate|]. destruct H as [s [tree H]]. exists node, s, tree.
           unfold stampUpdate in H. rewrite P in H. tauto.
      * intros H; inversion H; subst. split; [reflexivity|]. split; discriminate.
    + intros H; inversion H; subst. split; [reflexivity|]. split; [discriminate|].
      intros j E. inversion E. auto.
  - destruct (findById (streams w) i) as [node|] eqn:F.
    + destruct (canUpdateStream access (Stream.id (item node))) eqn:C; simpl.
      * intros H. apply Store in H. destruct out as [e|r].
        -- destruct H as [-> N]. split; [reflexivity|]. split; [discriminate|].
           intros j E. destruct (N j E).
        -- split; [discriminate|]. destruct H as [s [tree H]]. exists node, s, tree.
           unfold stampUpdate in H. rewrite P in H. tauto.
      * intros H; inversion H; subst. split; [reflexivity|]. split; discriminate.
    + intros H; inversion H; subst. split; [reflexivity|]. split; [discriminate|].
      intros j E. inversion E. auto.
  - destruct (String.eqb p i) eqn:Q.
    { apply String.eqb_eq in Q. subst p.
      intros H; inversion H; subst. split; [reflexivity|]. split; [reflexivity | discriminate]. }
    pose proof (Self p eq_refl Q) as Ne.
    destruct (findById (streams w) i) as [node|] eqn:F.
    + destruct (canUpdateStream access (Stream.id (item node))) eqn:C; simpl.
      * destruct (truthy p && negb (canCreateChildOnStream access (Some p))).
        { intros H; inversion H; subst. split; [reflexivity|].
          split; [intros E; destruct (Ne E) | discriminate]. }
        intros H. apply Store in H. destruct out as [e|r].
        -- destruct H as [-> N]. split; [reflexivity|].
           split; [intros E; destruct (Ne E)|]. intros j E. destruct (N j E).
        -- split; [exact Ne|]. destruct H as [s [tree H]]. exists node, s, tree.
           unfold stampUpdate in H. rewrite P in H. tauto.
      * intros H; inversion H; subst. split; [reflexivity|].
        split; [intros E; destruct (Ne E) | discriminate].
    + intros H; inversion H; subst. split; [reflexivity|].
      split; [intros E; destruct (Ne E)|]. intros j E. inversion E. auto.
Qed.

Lemma update_outcome_witness :
  snd (streams_update someAccess someStorage someContext
         (mkUpdateParams "A" (mkStreamUpdate Absent (Value "A") Absent None None)) linkedWorld)
  = linkedWorld.
Proof.
  exact (proj1 (update_outcome someAccess someStorage someContext
                  (mkUpdateParams "A" (mkStreamUpdate Absent (Value "A") Absent None None))
                  linkedWorld (inl (factoryError invalidOperation)) linkedWorld eq_refl)).
Defined.

(** * Attachments of the deleted events *)

Lemma stillAttached_outside sids0 ids :
  stillAttached sids0 ids = true ->
  exists sids, sids0 = Some sids /\ pull ids sids <> [].
Proof.
  destruct sids0 as [sids|]; [|discriminate]. simpl. intros A.
  apply andb_true_iff in A. destruct A as [_ A]. apply negb_true_iff in A.
  exists sids. split; [reflexivity|]. intros P.
  assert (I : arrayAIsIncludedInB sids ids = true).
  { apply arrayAIsIncludedInB_subset. intros x Hx. apply includes_In.
    destruct (includes ids x) eqn:E; [reflexivity|].
    assert (In x (pull ids sids))
      by (unfold pull; apply filter_In; split; [assumption | now rewrite E]).
    rewrite P in H. contradiction. }
  congruence.
Qed.

Lemma detached_keeps_attached env ids l e sids :
  String.eqb (deletionMode (auditSettings env)) "keep-everything" = false ->
  In e l -> isLive e = true -> Event.streamIds e = Some sids ->
  pull ids sids <> [] ->
  In (Event.with_streamIds (Some (pull ids sids)) e) (detached env ids l).
Proof.
  intros Mode He L S Out. rewrite detached_stripping by assumption.
  apply filter_In. split.
  - rewrite <- (strip_live _ e sids L S). apply in_map. now apply historyHandled_live.
  - apply negb_true_iff. unfold matches. simpl.
    destruct (pull ids sids); [congruence|]. simpl. apply andb_false_r.
Qed.

(** X19. Attachment removal is best effort.  In a hard deletion with
    [mergeEventsWithParent = false], whichever removals of attachment files
    fail: the delete reports the deletion and no error; the events are
    those the detach path leaves and the closure set is pruned from the
    streams, as if nothing had failed.  For every live event the
    attachments step selects (in the closure set, with attachments, not
    still attached elsewhere) the removal is invoked: its files are gone,
    or the failure is in the log.  When the deletion mode is not
    keep-everything these are all the deleted events concerned: a live
    event that referenced the closure set, carried attachments, and of
    which no document is left, has had its removal invoked.  The step
    itself never ends in an error once its find has answered, and changes
    neither events nor streams. *)
Theorem attachment_failures_are_only_logged env context params w node b linked :
  reliable env ->
  mergeEventsWithParent params = Some false ->
  findById (streams w) (id params) = Some node ->
  canDeleteStream context (Stream.id (item node)) = true ->
  Stream.trashed (item node) = Some b ->
  In linked (events w) ->
  references (collectPluckFromRootItem node) linked ->
  fst (streams_delete env context params w) = Done (mkResult None (Some (id params))) /\
  events (snd (streams_delete env context params w))
  = detached env (collectPluckFromRootItem node) (events w) /\
  streams (snd (streams_delete env context params w))
  = removeIds (collectPluckFromRootItem node) (streams w) /\
  (forall e, In e (events w) -> isLive e = true ->
             selectedForReaping (collectPluckFromRootItem node) e = true ->
             reaped env e (snd (streams_delete env context params w))) /\
  (deletionMode (auditSettings env) <> "keep-everything" ->
   forall e, In e (events w) -> isLive e = true ->
             references (collectPluckFromRootItem node) e ->
             isSome (Event.attachments e) = true ->
             (forall x, In x (events (snd (streams_delete env context params w))) ->
                        Event.id x <> Event.id e) ->
             reaped env e (snd (streams_delete env context params w))) /\
  (forall ids w0,
     fst (deleteEventsWithAttachments env ids w0) = Done tt /\
     events (snd (deleteEventsWithAttachments env ids w0)) = events w0 /\
     streams (snd (deleteEventsWithAttachments env ids w0)) = streams w0).
Proof.
  intros R Mg F C T Hl Href.
  assert (Reap : forall e, In e (events w) -> isLive e = true ->
            selectedForReaping (collectPluckFromRootItem node) e = true ->
            reaped env e (snd (streams_delete env context params w))).
  { intros e He L Sel.
    rewrite (streams_delete_found env _ _ _ _ F C). unfold deleteStream. rewrite T.
    rewrite (deleteWithData_accepted _ _ _ _ _ R F)
      by (apply (accepted_when_decided _ _ _ false); [assumption | discriminate]).
    rewrite (hasLinkedEvents_true _ _ _ Hl Href). simpl.
    apply (reaped_same env e
             (snd (handleLinkedEvents env params (collectPluckFromRootItem node)
                     (Stream.parentId (item node)) true w)));
      [reflexivity | reflexivity |].
    apply detachPath_reaps; try assumption. congruence. }
  split; [|split; [|split; [|split; [|split]]]].
  - rewrite (streams_delete_found env _ _ _ _ F C). unfold deleteStream. rewrite T.
    rewrite (deleteWithData_accepted _ _ _ _ _ R F)
      by (apply (accepted_when_decided _ _ _ false); [assumption | discriminate]).
    reflexivity.
  - now apply (hard_delete_detaches env context params w node b linked).
  - rewrite (streams_delete_found env _ _ _ _ F C). unfold deleteStream. rewrite T.
    rewrite (deleteWithData_accepted _ _ _ _ _ R F)
      by (apply (accepted_when_decided _ _ _ false); [assumption | discriminate]).
    reflexivity.
  - exact Reap.
  - intros Mode e He L Re At Gone. apply Reap; try assumption.
    unfold selectedForReaping. apply andb_true_iff. split.
    + unfold matches. simpl. rewrite andb_true_r. apply andb_true_iff. split.
      * apply references_matches in Re. unfold matches in Re. simpl in Re.
        now rewrite andb_true_r in Re.
      * now rewrite At.
    + apply negb_true_iff.
      destruct (stillAttached (Event.streamIds e) (collectPluckFromRootItem node)) eqn:A;
        [|reflexivity].
      destruct (stillAttached_outside _ _ A) as [sids [S Out]].
      exfalso.
      apply (Gone (Event.with_streamIds
                     (Some (pull (collectPluckFromRootItem node) sids)) e));
        [|reflexivity].
      rewrite (hard_delete_detaches env context params w node b linked R F C T Mg Hl Href).
      apply detached_keeps_attached; try assumption.
      now apply String.eqb_neq.
  - intros ids w0. split; [|split].
    + apply deleteEventsWithAttachments_done. exact (R attachments_findStreamed).
    + apply keeps_events_deleteEventsWithAttachments.
    + apply keeps_streams_deleteEventsWithAttachments.
Qed.

Lemma attachment_failures_are_only_logged_witness :
  fst (streams_delete (flakyEnv "keep-nothing") someContext
         (mkParams "A/B" (Some false)) linkedWorld)
  = Done (mkResult None (Some "A/B")) /\
  In "e3" (logged (snd (streams_delete (flakyEnv "keep-nothing") someContext
                          (mkParams "A/B" (Some false)) linkedWorld))).
Proof.
  destruct (attachment_failures_are_only_logged (flakyEnv "keep-nothing") someContext
              (mkParams "A/B" (Some false)) linkedWorld abNode true e2)
    as [D [_ [_ [Reap _]]]].
  - intros c; destruct c; exact I || reflexivity.
  - reflexivity.
  - reflexivity.
  - reflexivity.
  - reflexivity.
  - simpl. auto.
  - exists ["A/B"], "A/B". simpl. auto.
  - split; [exact D|]. apply (Reap e3); [simpl; auto | reflexivity | reflexivity].
Defined.
